(** * YoloV3Net: the architecture parser and the detection-graph builder

    A shallow embedding of [pie_detection/scripts/yolov3_net.py]:
    [parse_cfg] (the reader of the bracketed key=value format) and
    [load_model] (the walk over the blocks that assembles the graph and
    decodes the detection heads), with the Python and TensorFlow
    primitives they call. *)

From Stdlib Require Import ZArith QArith Lia Ascii String.
From stdpp Require Import gmap strings list fin_maps.

Local Open Scope string_scope.
Local Open Scope list_scope.
Local Open Scope Z_scope.

(** ** Python: exceptions and results *)

Inductive exn :=
| KeyError
| IndexError
| ValueError
| TypeError
| ZeroDivisionError
| OSError            (* the file cannot be opened *)
| UnicodeDecodeError (* the file does not hold text *)
| LibError.          (* raised inside TensorFlow/Keras *)

Inductive result (A : Type) :=
| Ok (a : A)
| Raise (e : exn).
Arguments Ok {A} a.
Arguments Raise {A} e.

#[global] Instance result_ret : MRet result := fun _ a => Ok a.

#[global] Instance result_bind : MBind result := fun _ _ k m =>
  match m with
  | Ok a => k a
  | Raise e => Raise e
  end.

Definition of_option {A} (e : exn) (o : option A) : result A :=
  match o with
  | Some a => Ok a
  | None => Raise e
  end.

Fixpoint rmapM {A B} (f : A → result B) (l : list A) : result (list B) :=
  match l with
  | [] => Ok []
  | a :: l' => b ← f a; bs ← rmapM f l'; Ok (b :: bs)
  end.

(** ** Python: strings *)

Definition nl : ascii := ascii_of_nat 10.
Definition cr : ascii := ascii_of_nat 13.

(** [str.isspace] on the code points below 256. *)
Definition py_isspace (c : ascii) : bool :=
  let n := nat_of_ascii c in
  ((9 <=? n) && (n <=? 13) || (28 <=? n) && (n <=? 32)
   || (n =? 133) || (n =? 160))%nat.

Definition is_empty (s : string) : bool :=
  match s with
  | EmptyString => true
  | String _ _ => false
  end.

(** [s.lstrip()] *)
Fixpoint lstrip (s : string) : string :=
  match s with
  | EmptyString => EmptyString
  | String c s' => if py_isspace c then lstrip s' else s
  end.

(** [s.rstrip()] *)
Fixpoint rstrip (s : string) : string :=
  match s with
  | EmptyString => EmptyString
  | String c s' =>
      let r := rstrip s' in
      if is_empty r && py_isspace c then EmptyString else String c r
  end.

(** [s.rstrip('\n')] *)
Fixpoint rstrip_nl (s : string) : string :=
  match s with
  | EmptyString => EmptyString
  | String c s' =>
      let r := rstrip_nl s' in
      if is_empty r && Ascii.eqb c nl then EmptyString else String c r
  end.

(** [s.split(sep)] for a one-character separator: never empty. *)
Fixpoint split_on (sep : ascii) (s : string) : list string :=
  match s with
  | EmptyString => [EmptyString]
  | String c s' =>
      let r := split_on sep s' in
      if Ascii.eqb c sep then EmptyString :: r
      else match r with
           | x :: xs => String c x :: xs
           | [] => [String c EmptyString]
           end
  end.

(** [s[0]] *)
Definition str_head (s : string) : result ascii :=
  match s with
  | EmptyString => Raise IndexError
  | String c _ => Ok c
  end.

Fixpoint drop_last (s : string) : string :=
  match s with
  | EmptyString => EmptyString
  | String c EmptyString => EmptyString
  | String c s' => String c (drop_last s')
  end.

(** [s[1:-1]] *)
Definition slice_1_m1 (s : string) : string :=
  match s with
  | EmptyString => EmptyString
  | String _ s' => drop_last s'
  end.

Definition digit_val (c : ascii) : option Z :=
  let n := nat_of_ascii c in
  if ((48 <=? n) && (n <=? 57))%nat then Some (Z.of_nat n - 48) else None.

(** The digits of [int(s)]: decimal digits, single underscores between
    them. *)
Fixpoint int_digits (acc : Z) (after_digit : bool) (s : string) : option Z :=
  match s with
  | EmptyString => if after_digit then Some acc else None
  | String c s' =>
      match digit_val c with
      | Some d => int_digits (10 * acc + d) true s'
      | None =>
          if Ascii.eqb c "_" && after_digit then int_digits acc false s'
          else None
      end
  end.

(** The white space [int] skips around a number, on the code points
    below 256: the ASCII white space and the two Unicode spaces. The
    separators 28 to 31, white space for [str.isspace], [lstrip] and
    [rstrip], are not skipped: [int] raises on them. *)
Definition int_isspace (c : ascii) : bool :=
  let n := nat_of_ascii c in
  ((9 <=? n) && (n <=? 13) || (n =? 32) || (n =? 133) || (n =? 160))%nat.

Fixpoint int_lstrip (s : string) : string :=
  match s with
  | EmptyString => EmptyString
  | String c s' => if int_isspace c then int_lstrip s' else s
  end.

Fixpoint int_rstrip (s : string) : string :=
  match s with
  | EmptyString => EmptyString
  | String c s' =>
      let r := int_rstrip s' in
      if is_empty r && int_isspace c then EmptyString else String c r
  end.

(** CPython's limit on the digits of a conversion between [str] and
    [int], at its default. *)
Definition int_max_str_digits : Z := 4300.

Fixpoint digit_count (s : string) : Z :=
  match s with
  | EmptyString => 0
  | String c s' =>
      match digit_val c with
      | Some _ => 1 + digit_count s'
      | None => digit_count s'
      end
  end.

(** [int(s)] for a [str]: surrounding white space, an optional sign, base
    ten, no more digits than the limit. *)
Definition py_int (s : string) : result Z :=
  let body := int_rstrip (int_lstrip s) in
  if int_max_str_digits <? digit_count body then Raise ValueError
  else
    match body with
    | String "-" d => of_option ValueError (Z.opp <$> int_digits 0 false d)
    | String "+" d => of_option ValueError (int_digits 0 false d)
    | d => of_option ValueError (int_digits 0 false d)
    end.

Fixpoint nat_digits (fuel n : nat) (acc : string) : string :=
  match fuel with
  | O => acc
  | S fuel' =>
      let acc' := String (ascii_of_nat (48 + n mod 10)) acc in
      if (n <? 10)%nat then acc' else nat_digits fuel' (n / 10) acc'
  end.

(** [str(n)] for an [int]: its decimal digits. (Beyond
    [int_max_str_digits] digits [str] raises; the block indices it is
    called on are far below.) *)
Definition py_str (n : Z) : string :=
  let m := Z.abs_nat n in
  let d := nat_digits (S m) m EmptyString in
  if n <? 0 then String "-" d else d.

(** ** Python: lists and dicts *)

(** [l[k]]: a negative index counts from the end. *)
Definition list_get {A} (l : list A) (k : Z) : result A :=
  let n := Z.of_nat (length l) in
  let k' := if k <? 0 then k + n else k in
  if (0 <=? k') && (k' <? n) then of_option IndexError (l !! Z.to_nat k')
  else Raise IndexError.

(** [d[k]] *)
Definition dict_get `{Countable K} {V} (d : gmap K V) (k : K) : result V :=
  of_option KeyError (d !! k).

(** [k in d] *)
Definition dict_has `{Countable K} {V} (d : gmap K V) (k : K) : bool :=
  bool_decide (is_Some (d !! k)).

(** ** parse_cfg *)

(** The text of the file as [open(cfgfile, 'r')] delivers it: every line
    ending is one newline character. *)
Fixpoint universal_newlines (s : string) : string :=
  match s with
  | EmptyString => EmptyString
  | String c s' =>
      if Ascii.eqb c cr then
        match s' with
        | String c' _ =>
            if Ascii.eqb c' nl then universal_newlines s'
            else String nl (universal_newlines s')
        | EmptyString => String nl EmptyString
        end
      else String c (universal_newlines s')
  end.

(** Iterating over the file: the lines, each with its newline. *)
Fixpoint file_lines (s : string) : list string :=
  match s with
  | EmptyString => []
  | String c s' =>
      if Ascii.eqb c nl then String nl EmptyString :: file_lines s'
      else match file_lines s' with
           | l :: ls => String c l :: ls
           | [] => [String c EmptyString]
           end
  end.

(** [line != '\n' and line[0] != '#'] *)
Definition keep_line (line : string) : bool :=
  negb (String.eqb line (String nl EmptyString))
  && match line with
     | String c _ => negb (Ascii.eqb c "#")
     | EmptyString => true
     end.

Abbreviation block := (gmap string string).

Record parser := Parser { holder : block; blocks : list block }.

(** The body of [for line in lines]. *)
Definition parse_line (p : parser) (line : string) : result parser :=
  c ← str_head line;
  let '(line, p) :=
    if Ascii.eqb c "[" then
      ("type=" +:+ rstrip (slice_1_m1 line),
       if negb (size (holder p) =? 0)%nat
       then Parser ∅ (blocks p ++ [holder p])
       else p)
    else (line, p) in
  match split_on "=" line with
  | [key; value] =>
      Ok (Parser (<[rstrip key := lstrip value]> (holder p)) (blocks p))
  | _ => Raise ValueError
  end.

Fixpoint parse_lines (p : parser) (lines : list string) : result parser :=
  match lines with
  | [] => Ok p
  | line :: rest => p' ← parse_line p line; parse_lines p' rest
  end.

Definition cfg_lines (content : string) : list string :=
  rstrip_nl <$> filter (fun l => keep_line l = true)
                       (file_lines (universal_newlines content)).

(** [parse_cfg] from the text of the file on. *)
Definition parse_cfg (content : string) : result (list block) :=
  p ← parse_lines (Parser ∅ []) (cfg_lines content);
  Ok (blocks p ++ [holder p]).

(** What is found under the path [cfgfile]: nothing that [open] can
    open for reading, bytes that are not text in the encoding, or a
    text. *)
Inductive cfg_file :=
| NoFile
| NoText
| Text (content : string).

(** [parse_cfg] from the path on: [open] raises when there is no file to
    read, and the reading of the lines, which is done before any line is
    parsed, raises when the bytes cannot be decoded. *)
Definition parse_cfg_file (f : cfg_file) : result (list block) :=
  match f with
  | NoFile => Raise OSError
  | NoText => Raise UnicodeDecodeError
  | Text content => parse_cfg content
  end.

(** ** Arrays

    A dense array as TensorFlow and NumPy store it: the shape and the
    elements in row-major order. *)

Record ndarray (A : Type) := NDArray { nd_shape : list nat; nd_data : list A }.
Arguments NDArray {A} nd_shape nd_data.
Arguments nd_shape {A} n.
Arguments nd_data {A} n.

Definition prod_list (l : list nat) : nat := foldr Nat.mul 1%nat l.

(** [count] consecutive pieces of [size] elements each. *)
Fixpoint chunks {A} (count size : nat) (l : list A) : list (list A) :=
  match count with
  | O => []
  | S count' => take size l :: chunks count' size (drop size l)
  end.

(** [n] copies of [l], one after the other. *)
Definition cycle {A} (n : nat) (l : list A) : list A := mjoin (replicate n l).

(** A negative axis counts from the last one. *)
Definition norm_axis (rank : nat) (axis : Z) : option nat :=
  let a := if axis <? 0 then axis + Z.of_nat rank else axis in
  if (0 <=? a) && (a <? Z.of_nat rank) then Some (Z.to_nat a) else None.

(** The bounds of [lo:hi] on an axis of [len] elements. *)
Definition slice_bounds (len lo hi : Z) : Z * Z :=
  let norm k := if k <? 0 then Z.max 0 (k + len) else Z.min k len in
  (norm lo, norm hi).

Definition nd_map {A B} (f : A → B) (x : ndarray A) : ndarray B :=
  NDArray (nd_shape x) (f <$> nd_data x).

(** The target of a reshape with at most one [-1] entry, resolved against
    [total] elements. *)
Definition resolve_shape (total : nat) (target : list Z) : option (list nat) :=
  let known := prod_list (Z.to_nat <$> filter (fun d => d ≠ -1) target) in
  if bool_decide (Forall (fun d => -1 ≤ d) target) then
    match length (filter (fun d => d = -1) target) with
    | O => if (known =? total)%nat then Some (Z.to_nat <$> target) else None
    | S O =>
        if (0 <? known)%nat && (total mod known =? 0)%nat
        then Some ((fun d => if d =? -1 then (total / known)%nat
                             else Z.to_nat d) <$> target)
        else None
    | _ => None
    end
  else None.

(** [tf.reshape] *)
Definition nd_reshape {A} (target : list Z) (x : ndarray A)
  : option (ndarray A) :=
  s ← resolve_shape (prod_list (nd_shape x)) target;
  Some (NDArray s (nd_data x)).

(** One piece of every part in turn, [outer] times. *)
Fixpoint interleave {A} (outer : nat) (parts : list (nat * list A)) : list A :=
  match outer with
  | O => []
  | S outer' =>
      mjoin ((fun p => take (fst p) (snd p)) <$> parts)
      ++ interleave outer' ((fun p => (fst p, drop (fst p) (snd p))) <$> parts)
  end.

Definition same_but_axis (a : nat) (s1 s2 : list nat) : bool :=
  bool_decide (take a s1 = take a s2 ∧ drop (S a) s1 = drop (S a) s2
               ∧ length s1 = length s2).

(** [tf.concat(xs, axis)] *)
Definition nd_concat {A} (axis : Z) (xs : list (ndarray A))
  : option (ndarray A) :=
  match xs with
  | [] => None
  | x :: _ =>
      a ← norm_axis (length (nd_shape x)) axis;
      if forallb (fun y => same_but_axis a (nd_shape x) (nd_shape y)) xs then
        let outer := prod_list (take a (nd_shape x)) in
        let width y := prod_list (drop a (nd_shape y)) in
        Some (NDArray
                (take a (nd_shape x)
                 ++ sum_list ((fun y => default O (nd_shape y !! a)) <$> xs)
                 :: drop (S a) (nd_shape x))
                (interleave outer ((fun y => (width y, nd_data y)) <$> xs)))
      else None
  end.

(** [x[:, :, lo:hi]] on an array of rank three. *)
Definition nd_slice2 {A} (lo hi : Z) (x : ndarray A) : option (ndarray A) :=
  match nd_shape x with
  | [b; n; d] =>
      let '(lo', hi') := slice_bounds (Z.of_nat d) lo hi in
      let w := Z.to_nat (hi' - lo') in
      Some (NDArray [b; n; w]
              (mjoin ((fun row => take w (drop (Z.to_nat lo') row))
                      <$> chunks (b * n) d (nd_data x))))
  | _ => None
  end.

Fixpoint drop_ones (s : list nat) : list nat :=
  match s with
  | 1%nat :: s' => drop_ones s'
  | _ => s
  end.

(** An elementwise binary operation where the second operand is
    broadcast along the leading axes of the first: its shape, leading
    ones apart, is the end of the first operand's shape. Other
    broadcasts are outside the fragment the program uses. *)
Definition nd_broadcast {A B C} (op : A → B → C)
    (x : ndarray A) (y : ndarray B) : option (ndarray C) :=
  let sy := drop_ones (nd_shape y) in
  if bool_decide (sy `suffix_of` nd_shape x
                  ∧ (length (nd_shape y) ≤ length (nd_shape x))%nat)
  then Some (NDArray (nd_shape x)
               (zip_with op (nd_data x)
                  (cycle (prod_list (nd_shape x) / prod_list sy) (nd_data y))))
  else None.

(** Repeating an array [m] times along axis [k]. *)
Definition tile_axis {A} (k m : nat) (x : ndarray A) : ndarray A :=
  let outer := prod_list (take k (nd_shape x)) in
  let inner := prod_list (drop k (nd_shape x)) in
  NDArray (alter (Nat.mul m) k (nd_shape x))
          (mjoin (cycle m <$> chunks outer inner (nd_data x))).

Fixpoint tile_from {A} (k : nat) (ms : list nat) (x : ndarray A) : ndarray A :=
  match ms with
  | [] => x
  | m :: ms' => tile_axis k m (tile_from (S k) ms' x)
  end.

(** [tf.tile(x, multiples)] *)
Definition nd_tile {A} (multiples : list Z) (x : ndarray A)
  : option (ndarray A) :=
  if bool_decide (length multiples = length (nd_shape x)
                  ∧ Forall (fun m => 0 ≤ m) multiples)
  then Some (tile_from 0 (Z.to_nat <$> multiples) x)
  else None.

(** [tf.range(n)] *)
Definition tf_range (n : Z) : ndarray Z :=
  NDArray [Z.to_nat n] (seqZ 0 n).

(** [tf.meshgrid(x, y)], with its default Cartesian indexing: both
    results have a row per element of [y] and a column per element of
    [x]. *)
Definition tf_meshgrid {A} (x y : ndarray A) : ndarray A * ndarray A :=
  let nx := length (nd_data x) in
  let ny := length (nd_data y) in
  (NDArray [ny; nx] (cycle ny (nd_data x)),
   NDArray [ny; nx] (mjoin (replicate nx <$> nd_data y))).

(** A list of pairs as a constant of shape [(n, 2)]. *)
Definition of_pairs {A} (l : list (A * A)) : ndarray A :=
  NDArray [length l; 2%nat] (mjoin ((fun p => [fst p; snd p]) <$> l)).

(** ** TensorFlow: symbolic tensors

    What Keras builds under the functional API: every call of a layer or
    of a [tf] operation on a symbolic tensor yields a new symbolic tensor
    that records the call and its operands. *)

Inductive padding := Valid | Same.

#[local] Set Warnings "-register-all".

Inductive tensor :=
| TInput (h w c : Z)
| TTrueDiv (t : tensor) (d : Z)
| TZeroPadding2D (pad_top pad_bottom pad_left pad_right : Z) (t : tensor)
| TConv2D (filters kernel_size strides : Z) (pad : padding)
          (name : string) (use_bias : bool) (t : tensor)
| TBatchNormalization (name : string) (t : tensor)
| TLeakyReLU (alpha : Q) (name : string) (t : tensor)
| TUpSampling2D (size : Z) (t : tensor)
| TConcat (ts : list tensor) (axis : Z)
| TAdd (a b : tensor)
| TMul (a b : tensor)
| TReshape (t : tensor) (target : list Z)
| TSlice2 (t : tensor) (lo hi : Z)
| TSigmoid (t : tensor)
| TExp (t : tensor)
| TConst (c : ndarray Z).

(** A static shape, as [get_shape().as_list()] gives it: [None] is an
    unknown dimension. *)
Definition sshape : Type := list (option Z).

Definition dim_known (d : option Z) : bool :=
  match d with Some _ => true | None => false end.

(** The output length of a convolution window along one axis. *)
Definition conv_dim (pad : padding) (k s : Z) (d : option Z) : option (option Z) :=
  match d with
  | None => Some None
  | Some n =>
      match pad with
      | Same => Some (Some ((n + s - 1) / s))
      | Valid => if k <=? n then Some (Some ((n - k) / s + 1)) else None
      end
  end.

Definition bcast_dim (a b : option Z) : option (option Z) :=
  match a, b with
  | Some x, Some y =>
      if x =? y then Some a
      else if x =? 1 then Some b
      else if y =? 1 then Some a
      else None
  | Some x, None => Some (if x =? 1 then None else a)
  | None, Some y => Some (if y =? 1 then None else b)
  | None, None => Some None
  end.

(** Broadcasting of two shapes given last axis first. *)
Fixpoint bcast_rev (s1 s2 : sshape) : option sshape :=
  match s1, s2 with
  | [], _ => Some s2
  | _, [] => Some s1
  | a :: s1', b :: s2' =>
      d ← bcast_dim a b; r ← bcast_rev s1' s2'; Some (d :: r)
  end.

Definition bcast_shape (s1 s2 : sshape) : option sshape :=
  reverse <$> bcast_rev (reverse s1) (reverse s2).

Definition dim_compat (a b : option Z) : bool :=
  match a, b with
  | Some x, Some y => x =? y
  | _, _ => true
  end.

Definition dim_add (a b : option Z) : option Z :=
  x ← a; y ← b; Some (x + y).

(** The shape of [tf.concat] of two shapes along axis [a]. *)
Definition concat_shape2 (a : nat) (s1 s2 : sshape) : option sshape :=
  if bool_decide (length s1 = length s2)
     && forallb (fun p => dim_compat (fst p) (snd p))
                (zip (take a s1 ++ drop (S a) s1) (take a s2 ++ drop (S a) s2))
  then
    d1 ← s1 !! a; d2 ← s2 !! a;
    Some (take a s1 ++ dim_add d1 d2 :: drop (S a) s1)
  else None.

Definition concat_shape (axis : Z) (ss : list sshape) : option sshape :=
  match ss with
  | [] => None
  | s :: rest =>
      a ← norm_axis (length s) axis;
      foldl (fun acc s' => acc ≫= fun s0 => concat_shape2 a s0 s') (Some s) rest
  end.

Definition all_known (s : sshape) : option (list Z) := mapM id s.

(** The static shape of a reshape: the one [-1] of the target is resolved
    when every input dimension is known, and stays unknown otherwise
    (then nothing is checked before the graph runs). *)
Definition reshape_shape (s : sshape) (target : list Z) : option sshape :=
  if bool_decide (Forall (fun d => -1 ≤ d) target
                  ∧ (length (filter (fun d => d = (-1)%Z) target) ≤ 1)%nat) then
    match all_known s with
    | Some dims =>
        if bool_decide (Forall (fun d => 0 ≤ d) dims) then
          match resolve_shape (prod_list (Z.to_nat <$> dims)) target with
          | Some r => Some ((fun d : nat => Some (Z.of_nat d)) <$> r)
          | None => None
          end
        else None
    | None => Some ((fun d => if d =? -1 then None else Some d) <$> target)
    end
  else None.

Definition slice_dim (lo hi : Z) (d : option Z) : option Z :=
  n ← d;
  let '(lo', hi') := slice_bounds n lo hi in
  Some (Z.max 0 (hi' - lo')).

(** Static shape inference; [None] where the library refuses the call. *)
Fixpoint shape_of (t : tensor) : option sshape :=
  match t with
  | TInput h w c => Some [None; Some h; Some w; Some c]
  | TTrueDiv t _ => shape_of t
  | TZeroPadding2D pt pb pl pr t =>
      match shape_of t with
      | Some [b; h; w; c] =>
          Some [b; Z.add (pt + pb) <$> h; Z.add (pl + pr) <$> w; c]
      | _ => None
      end
  | TConv2D f k s pad _ _ t =>
      match shape_of t with
      | Some [b; h; w; Some c] =>
          if (0 <? f) && (0 <? k) && (0 <? s) then
            oh ← conv_dim pad k s h; ow ← conv_dim pad k s w;
            Some [b; oh; ow; Some f]
          else None
      | _ => None
      end
  | TBatchNormalization _ t => shape_of t
  | TLeakyReLU _ _ t => shape_of t
  | TUpSampling2D size t =>
      match shape_of t with
      | Some [b; h; w; c] =>
          if 0 <? size then Some [b; Z.mul size <$> h; Z.mul size <$> w; c]
          else None
      | _ => None
      end
  | TConcat ts axis =>
      ss ← (fix go (l : list tensor) : option (list sshape) :=
              match l with
              | [] => Some []
              | t :: l' => s ← shape_of t; r ← go l'; Some (s :: r)
              end) ts;
      concat_shape axis ss
  | TAdd a b | TMul a b =>
      s1 ← shape_of a; s2 ← shape_of b; bcast_shape s1 s2
  | TReshape t target => s ← shape_of t; reshape_shape s target
  | TSlice2 t lo hi =>
      s ← shape_of t;
      match s with
      | b :: n :: d :: rest => Some (b :: n :: slice_dim lo hi d :: rest)
      | _ => None
      end
  | TSigmoid t => shape_of t
  | TExp t => shape_of t
  | TConst c => Some ((fun d => Some (Z.of_nat d)) <$> nd_shape c)
  end.

(** A library call: the new tensor, or the library's exception when the
    shapes do not fit. *)
Definition lib (t : tensor) : result tensor :=
  match shape_of t with
  | Some _ => Ok t
  | None => Raise LibError
  end.

(** [t.get_shape().as_list()] *)
Definition get_shape (t : tensor) : sshape := default [] (shape_of t).

(** ** TensorFlow: what a graph computes

    The arithmetic of the elements and the Keras layers' kernels are the
    library's; the [tf] operations on arrays are the ones above. *)

Class Numeric (R : Type) := {
  rofZ : Z → R;
  radd : R → R → R;
  rmul : R → R → R;
  rdiv : R → R → R;
  rsigmoid : R → R;
  rexp : R → R }.

Class Kernels (R : Type) := {
  k_zero_padding : Z → Z → Z → Z → ndarray R → option (ndarray R);
  k_conv2d : Z → Z → Z → padding → string → bool → ndarray R → option (ndarray R);
  k_batch_norm : string → ndarray R → option (ndarray R);
  k_leaky_relu : Q → string → ndarray R → option (ndarray R);
  k_upsampling : Z → ndarray R → option (ndarray R) }.

Section Eval.
Context {R : Type} `{Numeric R} `{Kernels R}.

(** The value of a tensor for a batch of images [img]. *)
Fixpoint eval (img : ndarray R) (t : tensor) : option (ndarray R) :=
  match t with
  | TInput h w c =>
      match nd_shape img with
      | [_; h'; w'; c'] =>
          if bool_decide (Z.of_nat h' = h ∧ Z.of_nat w' = w ∧ Z.of_nat c' = c)
          then Some img else None
      | _ => None
      end
  | TTrueDiv t d => nd_map (fun v => rdiv v (rofZ d)) <$> eval img t
  | TZeroPadding2D pt pb pl pr t => eval img t ≫= k_zero_padding pt pb pl pr
  | TConv2D f k s pad name bias t => eval img t ≫= k_conv2d f k s pad name bias
  | TBatchNormalization name t => eval img t ≫= k_batch_norm name
  | TLeakyReLU alpha name t => eval img t ≫= k_leaky_relu alpha name
  | TUpSampling2D size t => eval img t ≫= k_upsampling size
  | TConcat ts axis =>
      xs ← (fix go (l : list tensor) : option (list (ndarray R)) :=
              match l with
              | [] => Some []
              | t :: l' => x ← eval img t; r ← go l'; Some (x :: r)
              end) ts;
      nd_concat axis xs
  | TAdd a b => x ← eval img a; y ← eval img b; nd_broadcast radd x y
  | TMul a b => x ← eval img a; y ← eval img b; nd_broadcast rmul x y
  | TReshape t target => eval img t ≫= nd_reshape target
  | TSlice2 t lo hi => eval img t ≫= nd_slice2 lo hi
  | TSigmoid t => nd_map rsigmoid <$> eval img t
  | TExp t => nd_map rexp <$> eval img t
  | TConst c => Some (nd_map rofZ c)
  end.
End Eval.

(** ** load_model *)

(** What the variable [filters] holds: the empty list it starts with, or
    an [int]. *)
Inductive fval :=
| FNil
| FInt (n : Z).

(** [a + b] on such values. *)
Definition py_add (a b : fval) : result fval :=
  match a, b with
  | FInt x, FInt y => Ok (FInt (x + y))
  | FNil, FNil => Ok FNil
  | _, _ => Raise TypeError
  end.

(** The variables of the walk. [out_pred] is [None] while it still is the
    empty list. *)
Record state := State {
  outputs : gmap Z tensor;
  output_filters : list fval;
  filters : fval;
  out_pred : option tensor;
  scale : Z;
  inputs : tensor }.

Definition attr_int (b : block) (key : string) : result Z :=
  v ← dict_get b key; py_int v.

(** [range(0, n, 2)] *)
Definition range_by_2 (n : nat) : list Z :=
  (fun k => 2 * Z.of_nat k) <$> seq 0 ((n + 1) / 2).

(** The [convolutional] branch. *)
Definition conv_block (st : state) (i : Z) (b : block) : result state :=
  activation ← dict_get b "activation";
  filters ← attr_int b "filters";
  kernel_size ← attr_int b "size";
  strides ← attr_int b "stride";
  x ← (if 1 <? strides then lib (TZeroPadding2D 1 0 1 0 (inputs st))
       else Ok (inputs st));
  x ← lib (TConv2D filters kernel_size strides
             (if 1 <? strides then Valid else Same)
             ("conv_" +:+ py_str i)
             (if dict_has b "batch_normalize" then false else true) x);
  x ← (if dict_has b "batch_normalize"
       then lib (TBatchNormalization ("bnorm_" +:+ py_str i) x) else Ok x);
  x ← (if String.eqb activation "leaky"
       then lib (TLeakyReLU (1 # 10) ("leaky_" +:+ py_str i) x) else Ok x);
  Ok (State (outputs st) (output_filters st) (FInt filters)
            (out_pred st) (scale st) x).

(** The [upsample] branch. *)
Definition upsample_block (st : state) (b : block) : result state :=
  stride ← attr_int b "stride";
  x ← lib (TUpSampling2D stride (inputs st));
  Ok (State (outputs st) (output_filters st) (filters st)
            (out_pred st) (scale st) x).

(** The [route] branch. (The code also stores the split list back in the
    block; nothing reads it afterwards.) *)
Definition route_block (st : state) (i : Z) (b : block) : result state :=
  layers ← dict_get b "layers";
  let layers := split_on "," layers in
  start ← list_get layers 0 ≫= py_int;
  if (1 <? length layers)%nat then
    end_ ← list_get layers 1 ≫= py_int;
    let end_ := end_ - i in
    f1 ← list_get (output_filters st) (i + start);
    f2 ← list_get (output_filters st) end_;
    filters ← py_add f1 f2;
    t1 ← dict_get (outputs st) (i + start);
    t2 ← dict_get (outputs st) (i + end_);
    x ← lib (TConcat [t1; t2] (-1));
    Ok (State (outputs st) (output_filters st) filters
              (out_pred st) (scale st) x)
  else
    filters ← list_get (output_filters st) (i + start);
    x ← dict_get (outputs st) (i + start);
    Ok (State (outputs st) (output_filters st) filters
              (out_pred st) (scale st) x).

(** The [shortcut] branch. *)
Definition shortcut_block (st : state) (i : Z) (b : block) : result state :=
  from_ ← attr_int b "from";
  t1 ← dict_get (outputs st) (i - 1);
  t2 ← dict_get (outputs st) (i + from_);
  x ← lib (TAdd t1 t2);
  Ok (State (outputs st) (output_filters st) (filters st)
            (out_pred st) (scale st) x).

(** The anchors a [yolo] block selects. *)
Definition yolo_anchors (b : block) : result (list (Z * Z)) :=
  mask ← dict_get b "mask";
  mask ← rmapM py_int (split_on "," mask);
  anchors ← dict_get b "anchors";
  anchors ← rmapM py_int (split_on "," anchors);
  anchors ← rmapM (fun j => a ← list_get anchors j;
                            a' ← list_get anchors (j + 1); Ok (a, a'))
                  (range_by_2 (length anchors));
  rmapM (list_get anchors) mask.

(** The grid offsets of the records: [tf.range] to the last reshape of
    [cxy]. *)
Definition grid_offsets (d1 d2 n_anchors : Z) : option (ndarray Z) :=
  let x := tf_range d1 in
  let y := tf_range d2 in
  let '(cx, cy) := tf_meshgrid x y in
  cx ← nd_reshape [-1; 1] cx;
  cy ← nd_reshape [-1; 1] cy;
  cxy ← nd_concat (-1) [cx; cy];
  cxy ← nd_tile [1; n_anchors] cxy;
  nd_reshape [1; -1; 2] cxy.

(** What a [yolo] block computes: the reshaped input and the decoded
    prediction of the head. *)
Definition yolo_head (input_image : tensor) (num_classes : Z)
    (b : block) (inputs : tensor) : result (tensor * tensor) :=
  anchors ← yolo_anchors b;
  let n_anchors := Z.of_nat (length anchors) in
  let out_shape := get_shape inputs in
  d1 ← list_get out_shape 1 ≫= of_option TypeError;
  d2 ← list_get out_shape 2 ≫= of_option TypeError;
  inputs ← lib (TReshape inputs [-1; n_anchors * d1 * d2; 5 + num_classes]);
  box_centers ← lib (TSlice2 inputs 0 2);
  box_shapes ← lib (TSlice2 inputs 2 4);
  confidence ← lib (TSlice2 inputs 4 5);
  classes ← lib (TSlice2 inputs 5 (num_classes + 5));
  box_centers ← lib (TSigmoid box_centers);
  confidence ← lib (TSigmoid confidence);
  classes ← lib (TSigmoid classes);
  anchors ← of_option LibError (nd_tile [d1 * d2; 1] (of_pairs anchors));
  box_shapes ← lib (TExp box_shapes);
  box_shapes ← lib (TMul box_shapes (TConst anchors));
  cxy ← of_option LibError (grid_offsets d1 d2 n_anchors);
  ih ← list_get (get_shape input_image) 1 ≫= of_option TypeError;
  iw ← list_get (get_shape input_image) 2 ≫= of_option TypeError;
  s1 ← (if d1 =? 0 then Raise ZeroDivisionError else Ok (ih / d1));
  s2 ← (if d2 =? 0 then Raise ZeroDivisionError else Ok (iw / d2));
  box_centers ← lib (TAdd box_centers (TConst cxy));
  box_centers ← lib (TMul box_centers (TConst (NDArray [2%nat] [s1; s2])));
  prediction ← lib (TConcat [box_centers; box_shapes; confidence; classes] (-1));
  Ok (inputs, prediction).

(** The [yolo] branch. *)
Definition yolo_block (input_image : tensor) (num_classes : Z)
    (st : state) (b : block) : result state :=
  '(x, prediction) ← yolo_head input_image num_classes b (inputs st);
  if negb (scale st =? 0) then
    acc ← of_option TypeError (out_pred st);
    p ← lib (TConcat [acc; prediction] 1);
    Ok (State (outputs st) (output_filters st) (filters st)
              (Some p) (scale st) x)
  else
    Ok (State (outputs st) (output_filters st) (filters st)
              (Some prediction) 1 x).

(** The chain of [if]/[elif] on the block's type; no branch is taken for
    any other type. *)
Definition dispatch (input_image : tensor) (num_classes : Z)
    (st : state) (i : Z) (b : block) : result state :=
  ty ← dict_get b "type";
  if String.eqb ty "convolutional" then conv_block st i b
  else if String.eqb ty "upsample" then upsample_block st b
  else if String.eqb ty "route" then route_block st i b
  else if String.eqb ty "shortcut" then shortcut_block st i b
  else if String.eqb ty "yolo" then yolo_block input_image num_classes st b
  else Ok st.

(** The two statements that end the loop body. *)
Definition record_layer (st : state) (i : Z) : state :=
  State (<[i := inputs st]> (outputs st))
        (output_filters st ++ [filters st])
        (filters st) (out_pred st) (scale st) (inputs st).

(** The body of [for i, block in enumerate(blocks[1:])]. *)
Definition step (input_image : tensor) (num_classes : Z)
    (st : state) (i : Z) (b : block) : result state :=
  st ← dispatch input_image num_classes st i b;
  Ok (record_layer st i).

Fixpoint walk (input_image : tensor) (num_classes : Z)
    (st : state) (i : Z) (bs : list block) : result state :=
  match bs with
  | [] => Ok st
  | b :: bs' =>
      st' ← step input_image num_classes st i b;
      walk input_image num_classes st' (i + 1) bs'
  end.

(** The state before the first block. *)
Definition init_state (input_image : tensor) : result state :=
  x ← lib (TTrueDiv input_image 255);
  Ok (State ∅ [] FNil None 0 x).

(** [Model(input_image, out_pred)] *)
Record model := Model { model_inputs : tensor; model_outputs : option tensor }.

(** The walk from the first block on. *)
Definition run (input_image : tensor) (num_classes : Z)
    (bs : list block) : result state :=
  st ← init_state input_image;
  walk input_image num_classes st 0 bs.

Definition load_model (cfg : string) (model_size : Z * Z * Z)
    (num_classes : Z) : result model :=
  blocks ← parse_cfg cfg;
  let '(h, w, c) := model_size in
  input_image ← lib (TInput h w c);
  st ← run input_image num_classes (drop 1 blocks);
  Ok (Model input_image (out_pred st)).

(** ** Notions the statements use *)

Definition has_type (b : block) (ty : string) : bool :=
  bool_decide (b !! "type" = Some ty).

(** The predictions of the detection heads met on a walk, first head
    first. *)
Fixpoint head_predictions (input_image : tensor) (num_classes : Z)
    (st : state) (i : Z) (bs : list block) : result (list tensor) :=
  match bs with
  | [] => Ok []
  | b :: bs' =>
      st' ← step input_image num_classes st i b;
      rest ← head_predictions input_image num_classes st' (i + 1) bs';
      if has_type b "yolo" then
        '(_, p) ← yolo_head input_image num_classes b (inputs st);
        Ok (p :: rest)
      else Ok rest
  end.

Definition run_heads (input_image : tensor) (num_classes : Z)
    (bs : list block) : result (list tensor) :=
  st ← init_state input_image;
  head_predictions input_image num_classes st 0 bs.

(** The predictions of the heads [ps] joined to [acc] one after the
    other, as the [yolo] branch joins them. *)
Definition merge_heads (acc : option tensor) (ps : list tensor) : option tensor :=
  foldl (fun acc p => Some match acc with
                           | Some a => TConcat [a; p] 1
                           | None => p
                           end) acc ps.

(** The elements of image [i] of a batch of records. *)
Definition batch_block {A} (x : ndarray A) (i : nat) : list A :=
  match nd_shape x with
  | [_; n; d] => take (n * d) (drop (i * (n * d)) (nd_data x))
  | _ => []
  end.

(** The four parts of a head's prediction, for the reshaped input [x]. *)
Definition centers_of (x : tensor) (cxy : ndarray Z) (s1 s2 : Z) : tensor :=
  TMul (TAdd (TSigmoid (TSlice2 x 0 2)) (TConst cxy))
       (TConst (NDArray [2%nat] [s1; s2])).

Definition sizes_of (x : tensor) (anchors : ndarray Z) : tensor :=
  TMul (TExp (TSlice2 x 2 4)) (TConst anchors).

Definition objectness_of (x : tensor) : tensor := TSigmoid (TSlice2 x 4 5).

Definition classes_of (x : tensor) (num_classes : Z) : tensor :=
  TSigmoid (TSlice2 x 5 (num_classes + 5)).

(** The grid coordinate the code pairs with channel [c] of record [r] of
    a head with [na] anchors: the cell index [r / na], modulo and divided
    by the first grid dimension. *)
Definition grid_coordinate (h na r c : nat) : Z :=
  if (c =? 0)%nat then Z.of_nat ((r / na) mod h) else Z.of_nat ((r / na) / h).

(** An array holds as many elements as its shape says. *)
Definition nd_wf {A} (x : ndarray A) : Prop :=
  length (nd_data x) = prod_list (nd_shape x).

(** Record [j] of an array whose last axis has [d] entries. *)
Definition record {A} (d j : nat) (x : ndarray A) : list A :=
  take d (drop (j * d) (nd_data x)).

(** A line that is not a header and holds one [=]. *)
Definition kv_line (line : string) : bool :=
  match line with
  | String c _ =>
      negb (Ascii.eqb c "[") && (length (split_on "=" line) =? 2)%nat
  | EmptyString => false
  end.

Definition kv_key (line : string) : string :=
  rstrip (default EmptyString (split_on "=" line !! 0%nat)).

Definition kv_value (line : string) : string :=
  lstrip (default EmptyString (split_on "=" line !! 1%nat)).

(** The blocks that assign [filters]. *)
Definition sets_filters (b : block) : bool :=
  has_type b "convolutional" || has_type b "route".

(** The arithmetic of the rationals, for any choice of the two
    transcendental functions. *)
Definition Q_numeric (sigmoid exp : Q → Q) : Numeric Q :=
  {| rofZ := inject_Z; radd := Qplus; rmul := Qmult; rdiv := Qdiv;
     rsigmoid := sigmoid; rexp := exp |}.

(** ** Invariants *)

(** The first block of the parser's output holds the key [k]. *)
Definition first_has (k : string) (p : parser) : Prop :=
  ∃ b bs, blocks p ++ [holder p] = b :: bs ∧ is_Some (b !! k).

(** The state of the cache after [n] blocks. *)
Record cache_ok (st : state) (n : nat) : Prop := {
  cache_filters_length : length (output_filters st) = n;
  cache_outputs_dom : ∀ k, is_Some (outputs st !! k) ↔ 0 ≤ k < Z.of_nat n;
  cache_last_output :
    (0 < n)%nat → outputs st !! (Z.of_nat n - 1) = Some (inputs st);
  cache_last_filters :
    (0 < n)%nat → output_filters st !! (n - 1)%nat = Some (filters st) }.

(** What the accumulator and its flag keep. *)
Definition pred_ok (st : state) : Prop :=
  (scale st = 0 → out_pred st = None)
  ∧ (scale st ≠ 0 → is_Some (out_pred st))
  ∧ ∀ t, out_pred st = Some t → is_Some (shape_of t).

(** The sum of the widths of the parts of an interleaving. *)
Definition widths {A} (parts : list (nat * list A)) : nat :=
  sum_list (fst <$> parts).

(** ** Small inputs *)

Definition text_of (lines : list string) : string :=
  foldr (fun l s => l +:+ String nl s) EmptyString lines.

(** A text that opens with a key-value line. *)
Definition kv_text : string :=
  "a=1" +:+ String nl ("[net]" +:+ String nl "height = 416").

Definition conv_plain (n : string) : block :=
  {[ "type" := "convolutional"; "filters" := n; "size" := "1";
     "stride" := "1"; "pad" := "1"; "activation" := "linear" ]}.

Definition conv_down : block :=
  {[ "type" := "convolutional"; "batch_normalize" := "1"; "filters" := "4";
     "size" := "3"; "stride" := "2"; "pad" := "1"; "activation" := "leaky" ]}.

Definition route_back2 : block := {[ "type" := "route"; "layers" := "-2" ]}.

Definition route_pair : block := {[ "type" := "route"; "layers" := "-1, 0" ]}.

Definition shortcut_back2 : block :=
  {[ "type" := "shortcut"; "from" := "-2"; "activation" := "linear" ]}.

Definition upsample_2 : block := {[ "type" := "upsample"; "stride" := "2" ]}.

Definition maxpool_2 : block :=
  {[ "type" := "maxpool"; "size" := "2"; "stride" := "2" ]}.

Definition yolo_of (mask : string) : block :=
  {[ "type" := "yolo"; "mask" := mask;
     "anchors" := "10,13,  16,30,  33,23"; "classes" := "1" ]}.

(** A description with a block of a type the walk has no branch for. *)
Definition maxpool_cfg : string :=
  text_of [ "[net]"; "width=416"; "height=416"; "channels=3"; "";
            "[convolutional]"; "batch_normalize=1"; "filters=255"; "size=3";
            "stride=32"; "pad=1"; "activation=leaky"; "";
            "[maxpool]"; "size=2"; "stride=1"; "";
            "[yolo]"; "mask = 0,1,2";
            "anchors = 10,13,  16,30,  33,23,  30,61,  62,45,  59,119";
            "classes=80"; "num=6" ].

(** A description that upsamples before any convolution. *)
Definition upsample_first_cfg : string :=
  text_of [ "[net]"; "width=416"; "height=416"; "channels=3"; "";
            "[upsample]"; "stride=2"; "";
            "[convolutional]"; "filters=255"; "size=1"; "stride=32";
            "pad=1"; "activation=linear"; "";
            "[yolo]"; "mask = 0,1,2";
            "anchors = 10,13,  16,30,  33,23,  30,61,  62,45,  59,119";
            "classes=80"; "num=6" ].

Definition succeeds {A} (r : result A) : bool :=
  match r with Ok _ => true | Raise _ => false end.

(** The value of a computation, [d] if it raises. *)
Definition value_of {A} (d : A) (r : result A) : A :=
  match r with Ok a => a | Raise _ => d end.

Definition no_state : state := State ∅ [] FNil None 0 (TInput 0 0 0).

Definition img8 : tensor := TInput 8 8 3.

(** The state after the blocks [bs], walked from an 8 by 8 image with one
    class. *)
Definition after (bs : list block) : state := value_of no_state (run img8 1 bs).

(** A network whose weights and biases are all zero, shown a black image:
    every layer yields zeros of its output shape. *)
Definition zeros (shape : list nat) : ndarray Q :=
  NDArray shape (replicate (prod_list shape) 0%Q).

Definition conv_out (pad : padding) (k s n : nat) : nat :=
  match pad with
  | Same => ((n + s - 1) / s)%nat
  | Valid => ((n - k) / s + 1)%nat
  end.

Definition zero_kernels : Kernels Q :=
  {| k_zero_padding pt pb pl pr x :=
       match nd_shape x with
       | [b; h; w; c] =>
           Some (zeros [b; (h + Z.to_nat (pt + pb))%nat;
                        (w + Z.to_nat (pl + pr))%nat; c])
       | _ => None
       end;
     k_conv2d f k s pad _ _ x :=
       match nd_shape x with
       | [b; h; w; c] =>
           Some (zeros [b; conv_out pad (Z.to_nat k) (Z.to_nat s) h;
                        conv_out pad (Z.to_nat k) (Z.to_nat s) w; Z.to_nat f])
       | _ => None
       end;
     k_batch_norm _ x := Some (zeros (nd_shape x));
     k_leaky_relu _ _ x := Some (zeros (nd_shape x));
     k_upsampling s x :=
       match nd_shape x with
       | [b; h; w; c] =>
           Some (zeros [b; (Z.to_nat s * h)%nat; (Z.to_nat s * w)%nat; c])
       | _ => None
       end |}.

(** The exponential to the first order at 0, where it is exact, and the
    sigmoid made of it. *)
Definition exp_1st (q : Q) : Q := (1 + q)%Q.

Definition sigmoid_of (ex : Q → Q) (q : Q) : Q := (1 / (1 + ex (- q)))%Q.

Definition Q_demo : Numeric Q := Q_numeric (sigmoid_of exp_1st) exp_1st.

(** A head on a 4 by 4 grid of a 128 by 128 image: stride 32. *)
Definition img128 : tensor := TInput 128 128 3.

Definition conv_32 : block :=
  {[ "type" := "convolutional"; "filters" := "6"; "size" := "32";
     "stride" := "32"; "pad" := "1"; "activation" := "linear" ]}.

Definition head_input : tensor :=
  inputs (value_of no_state (run img128 1 [conv_32])).

Definition head_128 : tensor * tensor :=
  value_of (img128, img128) (yolo_head img128 1 (yolo_of "0") head_input).

Definition black : ndarray Q := zeros [1; 128; 128; 3]%nat.

(** The state after the blocks [bs], walked from any image. *)
Definition state_after (img : tensor) (nc : Z) (bs : list block) : state :=
  value_of no_state (run img nc bs).

(** A head on a grid of 2 rows and 3 columns: a 64 by 96 image, stride
    32. *)
Definition img_oblong : tensor := TInput 64 96 3.

Definition black_oblong : ndarray Q := zeros [1; 64; 96; 3]%nat.

(** A head whose input has twice the channels its anchor needs: a 64 by
    64 image, stride 32, 12 filters for one anchor and one class. *)
Definition img64 : tensor := TInput 64 64 3.

Definition black64 : ndarray Q := zeros [1; 64; 64; 3]%nat.

Definition conv_12 : block :=
  {[ "type" := "convolutional"; "filters" := "12"; "size" := "32";
     "stride" := "32"; "pad" := "1"; "activation" := "linear" ]}.

(** Three heads on an 8 by 8 image. *)
Definition three_heads : list block :=
  [ conv_plain "6"; yolo_of "0"; route_back2; conv_plain "12"; yolo_of "0,1";
    route_back2; conv_plain "6"; yolo_of "2" ].

(** ** The lines of a description *)

(** A header line: its first character is the opening bracket. *)
Definition is_header (line : string) : bool :=
  match line with
  | String c _ => Ascii.eqb c "["
  | EmptyString => false
  end.

(** A comment line: its first character is the hash sign. *)
Definition is_comment (line : string) : bool :=
  match line with
  | String c _ => Ascii.eqb c "#"
  | EmptyString => false
  end.

(** A line without a line break in it. *)
Fixpoint no_breaks (s : string) : bool :=
  match s with
  | EmptyString => true
  | String c s' => negb (Ascii.eqb c nl) && negb (Ascii.eqb c cr) && no_breaks s'
  end.

(** The text that is split at [=]: a header line is rewritten first. *)
Definition assignment_of (line : string) : string :=
  if is_header line then "type=" +:+ rstrip (slice_1_m1 line) else line.

(** The line holds exactly one [=] where it is split. *)
Definition one_equals (line : string) : bool :=
  (length (split_on "=" (assignment_of line)) =? 2)%nat.

(** What the parser keeps: every closed block but the first holds the key
    [type], so does the open one once a block has been closed, and no
    block has been closed while the open one is empty. *)
Definition typed_blocks (p : parser) : Prop :=
  Forall (fun b : block => is_Some (b !! "type")) (drop 1 (blocks p))
  ∧ (blocks p ≠ [] → is_Some (holder p !! "type"))
  ∧ (holder p = ∅ → blocks p = []).

(** ** The attributes the walk reads *)

(** The keys whose values a step reads. *)
Definition value_keys : list string :=
  [ "type"; "activation"; "filters"; "size"; "stride"; "layers"; "from";
    "mask"; "anchors" ].

(** Two blocks that a step cannot tell apart: the same values under the
    keys it reads, and [batch_normalize] in both or in neither. *)
Definition same_reads (b b' : block) : bool :=
  forallb (fun key => bool_decide (b !! key = b' !! key)) value_keys
  && Bool.eqb (dict_has b "batch_normalize") (dict_has b' "batch_normalize").

(** A convolutional block that says it has no normalization and no
    padding. *)
Definition conv_down_plain : block :=
  <[ "batch_normalize" := "0" ]> (<[ "pad" := "0" ]> conv_down).

(** A shortcut that names itself, and a route that names a later layer. *)
Definition shortcut_self : block := {[ "type" := "shortcut"; "from" := "0" ]}.

Definition route_ahead : block := {[ "type" := "route"; "layers" := "1" ]}.

(** The number of records of a batch of records. *)
Definition records_of {A} (x : ndarray A) : nat :=
  default O (nd_shape x !! 1%nat).

(** A head's prediction [p] has the value [v]: a batch of [bsz] images
    with records of [d] channels. *)
Definition head_value_of {R} `{Numeric R} `{Kernels R}
    (img0 : ndarray R) (bsz d : nat) (p : tensor) (v : ndarray R) : Prop :=
  eval img0 p = Some v ∧ nd_wf v ∧ nd_shape v = [bsz; records_of v; d].

(** Component [c] (0 the width, 1 the height) of the anchor the code
    pairs with record [j] of a head: the anchors in turn, record after
    record. *)
Definition anchor_component (anchors : list (Z * Z)) (j c : nat) : Z :=
  match anchors !! (j mod length anchors)%nat with
  | Some p => if (c =? 0)%nat then fst p else snd p
  | None => 0
  end.

(** A head whose list of anchor values has an odd length. *)
Definition yolo_odd : block :=
  {[ "type" := "yolo"; "mask" := "0"; "anchors" := "10,13,  16" ]}.

(** The length of the grid a convolutional block leaves along an axis of
    [n] cells: the stride-1 convolution pads as needed and keeps it, the
    others see one more cell and no padding. *)
Definition conv_grid (k s n : Z) : Z :=
  if 1 <? s then (n + 1 - k) / s + 1 else n.

(** A block whose attributes a convolutional or an upsample branch can
    read. *)
Definition layer_reads (b : block) : bool :=
  (has_type b "convolutional"
   && dict_has b "activation"
   && succeeds (attr_int b "filters") && succeeds (attr_int b "size")
   && succeeds (attr_int b "stride"))
  || (has_type b "upsample" && succeeds (attr_int b "stride")).

(** An integer [str] writes: one of at most [int_max_str_digits]
    digits. *)
Definition str_fits (n : Z) : bool := Z.abs n <? 10 ^ int_max_str_digits.

(** The rest of the lines after a section: nothing, or lines that open
    with a header. *)
Definition opens_section (rest : list string) : bool :=
  match rest with
  | [] => true
  | l :: _ => is_header l
  end.

(** Two descriptions of one network, under first sections that differ. *)
Definition net_416_cfg : string :=
  text_of [ "[net]"; "width=416"; "height=416"; "";
            "[convolutional]"; "filters=4"; "size=1"; "stride=1";
            "activation=linear" ].

Definition net_bare_cfg : string :=
  text_of [ "[anything]"; "[convolutional]"; "filters=4"; "size=1";
            "stride=1"; "activation=linear" ].

(** A string of decimal digits only. *)
Fixpoint all_digits (s : string) : bool :=
  match s with
  | EmptyString => true
  | String c s' => dim_known (digit_val c) && all_digits s'
  end.

(** The names of the layers on top of a tensor, down to the nearest
    convolution: the names of the layers the last convolutional block
    made. *)
Fixpoint block_names (t : tensor) : list string :=
  match t with
  | TLeakyReLU _ name t' => name :: block_names t'
  | TBatchNormalization name t' => name :: block_names t'
  | TConv2D _ _ _ _ name _ _ => [name]
  | _ => []
  end.


(** A string without the character [=]. *)
Fixpoint no_equals (s : string) : bool :=
  match s with
  | EmptyString => true
  | String c s' => negb (Ascii.eqb c "=") && no_equals s'
  end.

(** The keys a convolutional block must hold, and those read as
    integers. *)
Definition conv_keys : list string := [ "activation"; "filters"; "size"; "stride" ].

Definition conv_int_keys : list string := [ "filters"; "size"; "stride" ].

(** Every integer attribute the block holds parses. *)
Definition ints_parse (b : block) : bool :=
  forallb (fun key => match b !! key with
                      | Some v => succeeds (py_int v)
                      | None => true
                      end) conv_int_keys.

(** A convolutional block without a stride. *)
Definition conv_no_stride : block :=
  {[ "type" := "convolutional"; "filters" := "4"; "size" := "1";
     "activation" := "linear" ]}.

(** * Properties *)

#[local] Set Warnings "-clear-no-such-hyp".

(** ** Results *)

Lemma bind_Ok {A B} (m : result A) (k : A → result B) (r : B) :
  m ≫= k = Ok r ↔ ∃ a, m = Ok a ∧ k a = Ok r.
Proof. destruct m; simpl; naive_solver. Qed.

Lemma of_option_Ok {A} (e : exn) (o : option A) (a : A) :
  of_option e o = Ok a ↔ o = Some a.
Proof. destruct o; simpl; naive_solver. Qed.

Lemma dict_get_Ok `{Countable K} {V} (d : gmap K V) (k : K) (v : V) :
  dict_get d k = Ok v ↔ d !! k = Some v.
Proof. apply of_option_Ok. Qed.

Lemma list_get_Ok {A} (l : list A) (k : Z) (a : A) :
  list_get l k = Ok a ↔
  (0 ≤ k ∧ l !! Z.to_nat k = Some a)
  ∨ (k < 0 ∧ 0 ≤ k + Z.of_nat (length l)
     ∧ l !! Z.to_nat (k + Z.of_nat (length l)) = Some a).
Proof.
  unfold list_get. destruct (Z.ltb_spec k 0).
  - destruct (Z.leb_spec 0 (k + Z.of_nat (length l))); simpl.
    + destruct (Z.ltb_spec (k + Z.of_nat (length l)) (Z.of_nat (length l)));
        [rewrite of_option_Ok; naive_solver lia | lia].
    + split; [done | lia].
  - destruct (Z.leb_spec 0 k); [| lia]. simpl.
    destruct (Z.ltb_spec k (Z.of_nat (length l))).
    + rewrite of_option_Ok. naive_solver lia.
    + split; [done |]. intros [[_ Hl] | ?]; [| lia].
      apply lookup_lt_Some in Hl. lia.
Qed.

Lemma lib_Ok (t t' : tensor) :
  lib t = Ok t' ↔ t' = t ∧ is_Some (shape_of t).
Proof.
  unfold lib. destruct (shape_of t) as [s |]; split.
  - intros [= <-]. eauto.
  - by intros [-> _].
  - done.
  - intros [_ [? [=]]].
Qed.

(** Unfolds the binds of a successful computation. *)
Ltac ok_inv H :=
  repeat match type of H with
    | (_ ≫= _) = Ok _ =>
        let x := fresh "x" in
        let Hx := fresh "E" in
        apply bind_Ok in H as (x & Hx & H)
    end.

(** ** The parser *)

Lemma kv_line_spec (line : string) :
  kv_line line = true →
  ∃ c key value, str_head line = Ok c ∧ c ≠ "["%char
    ∧ split_on "=" line = [key; value]
    ∧ kv_key line = rstrip key ∧ kv_value line = lstrip value.
Proof.
  unfold kv_line, kv_key, kv_value. destruct line as [| c s]; [done |].
  intros [Hc Hl]%andb_prop. exists c.
  destruct (split_on "=" (String c s)) as [| k [| v [| ? ?]]]; try done.
  exists k, v. repeat split; try done.
  intros ->. done.
Qed.

Lemma parse_line_kv (p : parser) (line : string) :
  kv_line line = true →
  parse_line p line
  = Ok (Parser (<[kv_key line := kv_value line]> (holder p)) (blocks p)).
Proof.
  intros (c & k & v & Hc & Hne & Hs & -> & ->)%kv_line_spec.
  unfold parse_line. rewrite Hc. simpl.
  destruct (Ascii.eqb_spec c "["); [done |]. by rewrite Hs.
Qed.

(** Key-value lines met while no block has been closed only fill the
    holder. *)
Lemma parse_lines_kv (pre : list string) (h : block) :
  Forall (fun l => kv_line l = true) pre →
  ∃ h', parse_lines (Parser h []) pre = Ok (Parser h' [])
        ∧ ∀ k, is_Some (h !! k) → is_Some (h' !! k).
Proof.
  intros Hpre. revert h. induction Hpre as [| l pre Hl _ IH]; intros h.
  - exists h. done.
  - simpl. rewrite parse_line_kv by done. simpl.
    destruct (IH (<[kv_key l := kv_value l]> h)) as (h' & -> & Hh').
    exists h'. split; [done |]. intros k Hk. apply Hh'.
    rewrite lookup_insert. case_decide; eauto.
Qed.

Lemma parse_lines_app (p : parser) (l1 l2 : list string) :
  parse_lines p (l1 ++ l2) = parse_lines p l1 ≫= fun p' => parse_lines p' l2.
Proof.
  revert p. induction l1 as [| l l1 IH]; intros p; [done |].
  simpl. destruct (parse_line p l); simpl; [apply IH | done].
Qed.

(** The first block of the output, once it holds a key, keeps it. *)
Lemma parse_line_first_has (k : string) (p p' : parser) (line : string) :
  first_has k p → parse_line p line = Ok p' → first_has k p'.
Proof.
  intros (b & bs & Hb & Hk). unfold parse_line. intros Hp. ok_inv Hp.
  destruct (Ascii.eqb x "[").
  - destruct (split_on "=" _) as [| key [| value [| ? ?]]]; try done.
    injection Hp as <-. unfold first_has. simpl.
    destruct (size (holder p) =? 0)%nat eqn:Hsz; simpl.
    + apply Nat.eqb_eq, map_size_empty_iff in Hsz.
      destruct (blocks p) as [| b0 bl]; simpl in *.
      * injection Hb as <- <-. rewrite Hsz, lookup_empty in Hk.
        by destruct Hk.
      * injection Hb as <- <-. eauto.
    + rewrite Hb. simpl. eauto.
  - destruct (split_on "=" _) as [| key [| value [| ? ?]]]; try done.
    injection Hp as <-. unfold first_has. simpl.
    destruct (blocks p) as [| b0 bl]; simpl in *.
    + injection Hb as <- <-. eexists _, _. split; [done |].
      rewrite lookup_insert. case_decide; eauto.
    + injection Hb as <- <-. eauto.
Qed.

Lemma parse_lines_first_has (k : string) (lines : list string) (p p' : parser) :
  first_has k p → parse_lines p lines = Ok p' → first_has k p'.
Proof.
  revert p. induction lines as [| l lines IH]; intros p Hk; simpl.
  - by intros [= <-].
  - intros Hp. ok_inv Hp. eauto using parse_line_first_has.
Qed.


(** C8, as the code has it: key-value lines ahead of the first header
    raise nothing; they fill a block of their own, without a header, which
    is the first block of the result whenever the later lines parse. *)
Theorem kv_before_header_accepted
    (content : string) (pre rest : list string) (line : string) :
  cfg_lines content = pre ++ line :: rest →
  Forall (fun l => kv_line l = true) pre →
  kv_line line = true →
  ∃ h : block,
    parse_lines (Parser ∅ []) (pre ++ [line]) = Ok (Parser h [])
    ∧ h !! kv_key line = Some (kv_value line)
    ∧ parse_cfg content
      = (parse_lines (Parser h []) rest
         ≫= fun p => Ok (blocks p ++ [holder p]))
    ∧ ∀ bs, parse_cfg content = Ok bs →
        ∃ b bs', bs = b :: bs' ∧ is_Some (b !! kv_key line).
Proof.
  intros Hlines Hpre Hline.
  destruct (parse_lines_kv pre ∅ Hpre) as (h0 & Hh0 & _).
  exists (<[kv_key line := kv_value line]> h0).
  assert (Hpl : parse_lines (Parser ∅ []) (pre ++ [line])
                = Ok (Parser (<[kv_key line := kv_value line]> h0) [])).
  { rewrite parse_lines_app, Hh0. simpl. by rewrite parse_line_kv. }
  assert (Hcfg : parse_cfg content
                 = (parse_lines (Parser (<[kv_key line := kv_value line]> h0) []) rest
                    ≫= fun p => Ok (blocks p ++ [holder p]))).
  { unfold parse_cfg. rewrite Hlines.
    replace (pre ++ line :: rest) with ((pre ++ [line]) ++ rest)
      by (by rewrite <- app_assoc).
    by rewrite parse_lines_app, Hpl. }
  split; [done |]. split; [apply lookup_insert_eq |]. split; [done |].
  intros bs. rewrite Hcfg. intros Hp. ok_inv Hp. injection Hp as <-.
  eapply (parse_lines_first_has (kv_key line)) in E as (b & bs' & ? & ?);
    [eauto |].
  exists (<[kv_key line := kv_value line]> h0), []. split; [done |].
  rewrite lookup_insert_eq. eauto.
Qed.

Lemma kv_before_header_accepted_witness :
  ∃ h : block,
    parse_lines (Parser ∅ []) ([] ++ ["a=1"]) = Ok (Parser h [])
    ∧ h !! kv_key "a=1" = Some (kv_value "a=1")
    ∧ parse_cfg kv_text
      = (parse_lines (Parser h []) ["[net]"; "height = 416"]
         ≫= fun p => Ok (blocks p ++ [holder p]))
    ∧ ∀ bs, parse_cfg kv_text = Ok bs →
        ∃ b bs', bs = b :: bs' ∧ is_Some (b !! kv_key "a=1").
Proof.
  apply (kv_before_header_accepted kv_text [] ["[net]"; "height = 416"] "a=1").
  - vm_compute. reflexivity.
  - constructor.
  - vm_compute. reflexivity.
Defined.

(** C8 fails on the code: the text below opens with a key-value line and
    is parsed without an error, into a first block without a header. *)
Lemma kv_before_header_counterexample :
  cfg_lines kv_text = ["a=1"; "[net]"; "height = 416"]
  ∧ parse_cfg kv_text
    = Ok [ {[ "a" := "1" ]}; {[ "type" := "net"; "height" := "416" ]} ].
Proof. split; vm_compute; reflexivity. Qed.

(** ** The walk: what every step keeps *)

Lemma walk_app (img : tensor) (nc : Z) (st : state) (i : Z) (bs1 bs2 : list block) :
  walk img nc st i (bs1 ++ bs2)
  = walk img nc st i bs1
    ≫= fun st' => walk img nc st' (i + Z.of_nat (length bs1)) bs2.
Proof.
  revert st i. induction bs1 as [| b bs1 IH]; intros st i.
  - simpl. by rewrite Z.add_0_r.
  - change (length (b :: bs1)) with (S (length bs1)).
    rewrite Nat2Z.inj_succ. cbn [app walk].
    destruct (step img nc st i b); simpl; [| done].
    rewrite IH. by replace (i + 1 + Z.of_nat (length bs1))
      with (i + Z.succ (Z.of_nat (length bs1))) by lia.
Qed.

Lemma run_snoc (img : tensor) (nc : Z) (bs : list block) (b : block) :
  run img nc (bs ++ [b])
  = run img nc bs ≫= fun st => step img nc st (Z.of_nat (length bs)) b.
Proof.
  unfold run. destruct (init_state img); simpl; [| done].
  rewrite walk_app. destruct (walk img nc a 0 bs); simpl; [| done].
  by destruct (step img nc _ _ b).
Qed.

(** The branches leave the cache alone. *)
Lemma dispatch_frame (img : tensor) (nc : Z) (st st' : state) (i : Z) (b : block) :
  dispatch img nc st i b = Ok st' →
  outputs st' = outputs st ∧ output_filters st' = output_filters st.
Proof.
  unfold dispatch. intros H. ok_inv H.
  repeat match type of H with
         | (if ?c then _ else _) = _ => destruct c
         end.
  - unfold conv_block in H. ok_inv H. by injection H as <-.
  - unfold upsample_block in H. ok_inv H. by injection H as <-.
  - unfold route_block in H. ok_inv H.
    destruct (1 <? _)%nat; ok_inv H; by injection H as <-.
  - unfold shortcut_block in H. ok_inv H. by injection H as <-.
  - unfold yolo_block in H. ok_inv H. destruct x0 as [y p].
    destruct (negb _); ok_inv H; by injection H as <-.
  - by injection H as <-.
Qed.

Lemma step_cache_ok (img : tensor) (nc : Z) (st st' : state) (n : nat) (b : block) :
  cache_ok st n → step img nc st (Z.of_nat n) b = Ok st' → cache_ok st' (S n).
Proof.
  intros [Hl Hd _ _] H. unfold step in H. ok_inv H. injection H as <-.
  apply dispatch_frame in E as [Ho Hf]. split; simpl.
  - rewrite Hf, length_app, Hl. simpl. lia.
  - intros k. rewrite Ho, lookup_insert. case_decide.
    + split; [lia | eauto].
    + rewrite Hd. lia.
  - intros _. replace (Z.of_nat (S n) - 1) with (Z.of_nat n) by lia.
    apply lookup_insert_eq.
  - intros _. rewrite Hf, lookup_app_r by lia.
    by replace (n - 0 - length (output_filters st))%nat with 0%nat by lia.
Qed.

Lemma walk_cache_ok (img : tensor) (nc : Z) (bs : list block) (st st' : state) (n : nat) :
  cache_ok st n → walk img nc st (Z.of_nat n) bs = Ok st' →
  cache_ok st' (n + length bs).
Proof.
  revert st n. induction bs as [| b bs IH]; intros st n Hc; simpl.
  - intros [= <-]. by rewrite Nat.add_0_r.
  - intros H. ok_inv H. eapply step_cache_ok in E; [| done].
    replace (Z.of_nat n + 1) with (Z.of_nat (S n)) in H by lia.
    apply IH in H; [| done]. by replace (n + S (length bs))%nat
      with (S n + length bs)%nat by lia.
Qed.

Lemma run_cache_ok (img : tensor) (nc : Z) (bs : list block) (st : state) :
  run img nc bs = Ok st → cache_ok st (length bs).
Proof.
  unfold run. intros H. ok_inv H. unfold init_state in E. ok_inv E.
  injection E as <-.
  apply (walk_cache_ok img nc bs _ st 0%nat) in H; [done |].
  split; simpl; try lia. intros k. rewrite lookup_empty. split; [| lia].
  by intros [? ?].
Qed.

Lemma step_recorded (img : tensor) (nc : Z) (st st' : state) (n : nat) (b : block) :
  length (output_filters st) = n →
  step img nc st (Z.of_nat n) b = Ok st' →
  output_filters st' !! n = Some (filters st')
  ∧ outputs st' !! Z.of_nat n = Some (inputs st')
  ∧ ∀ j, (j < n)%nat → output_filters st' !! j = output_filters st !! j.
Proof.
  intros Hl H. unfold step in H. ok_inv H. injection H as <-.
  apply dispatch_frame in E as [Ho Hf]. simpl. rewrite Hf. repeat split.
  - rewrite lookup_app_r by lia. by rewrite Hl, Nat.sub_diag.
  - apply lookup_insert_eq.
  - intros j Hj. by rewrite lookup_app_l by lia.
Qed.

(** ** The branches *)

Lemma if_lib_Ok (c : bool) (t x y : tensor) :
  (if c then lib t else Ok x) = Ok y →
  y = (if c then t else x) ∧ (c = true → is_Some (shape_of t)).
Proof.
  destruct c.
  - intros [-> ?]%lib_Ok. done.
  - intros [= ->]. done.
Qed.

Lemma dispatch_type (img : tensor) (nc : Z) (st : state) (i : Z) (b : block) (ty : string) :
  b !! "type" = Some ty →
  dispatch img nc st i b
  = if String.eqb ty "convolutional" then conv_block st i b
    else if String.eqb ty "upsample" then upsample_block st b
    else if String.eqb ty "route" then route_block st i b
    else if String.eqb ty "shortcut" then shortcut_block st i b
    else if String.eqb ty "yolo" then yolo_block img nc st b
    else Ok st.
Proof. intros Hty. unfold dispatch, dict_get. by rewrite Hty. Qed.

Lemma step_Ok (img : tensor) (nc : Z) (st st' : state) (i : Z) (b : block) :
  step img nc st i b = Ok st' ↔
  ∃ st1, dispatch img nc st i b = Ok st1 ∧ st' = record_layer st1 i.
Proof.
  unfold step. rewrite bind_Ok. split; intros (st1 & ? & ?); exists st1;
    split; congruence.
Qed.

Lemma attr_int_Ok (b : block) (key : string) (n : Z) :
  attr_int b key = Ok n ↔ ∃ v, b !! key = Some v ∧ py_int v = Ok n.
Proof.
  unfold attr_int. rewrite bind_Ok. split; intros (v & Hv & ?); exists v.
  - by apply dict_get_Ok in Hv.
  - by rewrite dict_get_Ok.
Qed.

(** C9, as the code has it: a block whose type is none of the five the
    chain tests for raises nothing; the current tensor, the filter count
    and the prediction stay as they are, and the block is cached like any
    other. *)
Theorem other_type_is_skipped
    (img : tensor) (nc : Z) (st : state) (i : Z) (b : block) (ty : string) :
  b !! "type" = Some ty →
  ty ∉ ["convolutional"; "upsample"; "route"; "shortcut"; "yolo"] →
  step img nc st i b
  = Ok (State (<[i := inputs st]> (outputs st))
              (output_filters st ++ [filters st])
              (filters st) (out_pred st) (scale st) (inputs st)).
Proof.
  intros Hty Hnot. unfold step. rewrite (dispatch_type _ _ _ _ _ ty Hty).
  repeat match goal with
         | |- context [String.eqb ty ?s] =>
             destruct (String.eqb_spec ty s) as [-> | _];
             [exfalso; apply Hnot; set_solver |]
         end.
  done.
Qed.

(** C5: the layers a convolutional block adds, in their order. *)
Theorem convolutional_block_layers
    (img : tensor) (nc : Z) (st st' : state) (i : Z) (b : block) :
  b !! "type" = Some "convolutional" →
  step img nc st i b = Ok st' →
  ∃ activation n_filters kernel_size strides,
    b !! "activation" = Some activation
    ∧ attr_int b "filters" = Ok n_filters
    ∧ attr_int b "size" = Ok kernel_size
    ∧ attr_int b "stride" = Ok strides
    ∧ (let bn := dict_has b "batch_normalize" in
       let padded :=
         if 1 <? strides then TZeroPadding2D 1 0 1 0 (inputs st)
         else inputs st in
       let conv :=
         TConv2D n_filters kernel_size strides
                 (if 1 <? strides then Valid else Same)
                 ("conv_" +:+ py_str i) (negb bn) padded in
       let normed :=
         if bn then TBatchNormalization ("bnorm_" +:+ py_str i) conv
         else conv in
       inputs st'
       = if String.eqb activation "leaky"
         then TLeakyReLU (1 # 10) ("leaky_" +:+ py_str i) normed
         else normed)
    ∧ (¬ 1 < strides → strides = 1)
    ∧ filters st' = FInt n_filters
    ∧ outputs st' !! i = Some (inputs st')
    ∧ output_filters st' = output_filters st ++ [FInt n_filters].
Proof.
  intros Hty H. apply step_Ok in H as (st1 & H & ->).
  rewrite (dispatch_type _ _ _ _ _ _ Hty) in H. simpl in H.
  pose proof (dispatch_frame img nc st st1 i b) as Hfr.
  rewrite (dispatch_type _ _ _ _ _ _ Hty) in Hfr. simpl in Hfr.
  specialize (Hfr H) as [Ho Hf].
  unfold conv_block in H. ok_inv H. injection H as <-.
  apply dict_get_Ok in E.
  repeat match goal with
         | H : (if _ then lib _ else Ok _) = Ok _ |- _ =>
             apply if_lib_Ok in H as [-> _]
         end.
  match goal with
  | H : lib (TConv2D _ _ _ _ _ _ _) = Ok _ |- _ =>
      apply lib_Ok in H as [-> [s Hs]]
  end.
  exists x, x0, x1, x2. simpl. repeat split; try done.
  - intros Hst. simpl in Hs.
    destruct (shape_of _) as [[| ? [| ? [| ? [| [c |] [| ? ?]]]]] |];
      try done.
    destruct (0 <? x0), (0 <? x1); simpl in Hs; try done.
    destruct (Z.ltb_spec 0 x2); [lia | done].
  - apply lookup_insert_eq.
Qed.

Lemma route_block_layers (st st' : state) (i : Z) (b : block) :
  route_block st i b = Ok st' →
  ∃ layers, b !! "layers" = Some layers.
Proof.
  unfold route_block. intros H. ok_inv H. apply dict_get_Ok in E. eauto.
Qed.

(** A reference that the cache resolves is an index of the list of
    filter counts, read at that very position. *)
Lemma cached_index (st : state) (n : nat) (k : Z) (t : tensor) :
  cache_ok st n → outputs st !! k = Some t → 0 ≤ k < Z.of_nat n.
Proof. intros [_ Hd _ _] Hk. apply Hd. eauto. Qed.

Lemma list_get_direct {A} (l : list A) (k : Z) (a : A) :
  0 ≤ k → list_get l k = Ok a → l !! Z.to_nat k = Some a.
Proof. intros Hk [[_ ?] | [? _]]%list_get_Ok; [done | lia]. Qed.

Lemma list_get_from_end {A} (l : list A) (k : Z) (a : A) :
  k < 0 → list_get l k = Ok a →
  l !! Z.to_nat (Z.of_nat (length l) + k) = Some a.
Proof.
  intros Hk [[? _] | (_ & _ & H)]%list_get_Ok; [lia |].
  by rewrite Z.add_comm.
Qed.

Lemma route_block_one (st : state) (i : Z) (b : block)
    (layers s0 : string) (start : Z) :
  b !! "layers" = Some layers → split_on "," layers = [s0] →
  py_int s0 = Ok start →
  route_block st i b
  = (f ← list_get (output_filters st) (i + start);
     x ← dict_get (outputs st) (i + start);
     Ok (State (outputs st) (output_filters st) f (out_pred st) (scale st) x)).
Proof.
  intros Hl Hsp Hs0. unfold route_block, dict_get. rewrite Hl. simpl.
  rewrite Hsp. simpl. by rewrite Hs0.
Qed.

Lemma route_block_two (st : state) (i : Z) (b : block)
    (layers s0 s1 : string) (more : list string) (start end_raw : Z) :
  b !! "layers" = Some layers → split_on "," layers = s0 :: s1 :: more →
  py_int s0 = Ok start → py_int s1 = Ok end_raw →
  route_block st i b
  = (f1 ← list_get (output_filters st) (i + start);
     f2 ← list_get (output_filters st) (end_raw - i);
     f ← py_add f1 f2;
     t1 ← dict_get (outputs st) (i + start);
     t2 ← dict_get (outputs st) (i + (end_raw - i));
     x ← lib (TConcat [t1; t2] (-1));
     Ok (State (outputs st) (output_filters st) f (out_pred st) (scale st) x)).
Proof.
  intros Hl Hsp Hs0 Hs1. unfold route_block, dict_get. rewrite Hl. simpl.
  rewrite Hsp.
  change (list_get (s0 :: s1 :: more) 0) with (Ok s0).
  assert (list_get (s0 :: s1 :: more) 1 = Ok s1) as ->.
  { apply list_get_Ok. left. done. }
  assert ((1 <? length (s0 :: s1 :: more))%nat = true) as ->
    by (apply Nat.ltb_lt; simpl; lia).
  simpl. rewrite Hs0. simpl. by rewrite Hs1.
Qed.

(** C7: a route block with one reference takes over the cached tensor and
    the recorded filter count of the layer it names. *)
Theorem route_one_reference
    (img : tensor) (nc : Z) (bs : list block) (st st' : state) (b : block)
    (layers s0 : string) (start : Z) :
  run img nc bs = Ok st →
  b !! "type" = Some "route" →
  b !! "layers" = Some layers →
  split_on "," layers = [s0] →
  py_int s0 = Ok start →
  step img nc st (Z.of_nat (length bs)) b = Ok st' →
  let i := Z.of_nat (length bs) in
  ∃ t f,
    0 ≤ i + start < i
    ∧ outputs st !! (i + start) = Some t
    ∧ output_filters st !! Z.to_nat (i + start) = Some f
    ∧ inputs st' = t
    ∧ outputs st' !! i = Some t
    ∧ filters st' = f
    ∧ output_filters st' !! Z.to_nat i = Some f
    ∧ output_filters st' !! Z.to_nat (i + start) = Some f.
Proof.
  intros Hrun Hty Hl Hsp Hs0 H i.
  pose proof (run_cache_ok _ _ _ _ Hrun) as Hc.
  pose proof (step_recorded img nc st st' (length bs) b
                (cache_filters_length _ _ Hc) H) as (Hrf & Hro & Hold).
  apply step_Ok in H as (st1 & H & ->).
  rewrite (dispatch_type _ _ _ _ _ _ Hty) in H. simpl in H.
  rewrite (route_block_one _ _ _ _ _ _ Hl Hsp Hs0) in H.
  ok_inv H. injection H as <-. apply dict_get_Ok in E0.
  pose proof (cached_index _ _ _ _ Hc E0) as Hk. fold i in Hk.
  apply list_get_direct in E; [| lia]. simpl in *.
  exists x0, x. repeat split; try done; try lia.
  - unfold i. by rewrite Nat2Z.id.
  - rewrite Hold by lia. done.
Qed.

(** C1: a route block with two references concatenates, along the last
    axis, the tensors cached for the two layers it names, and records the
    sum of the filter counts recorded for these two layers. *)
Theorem route_two_references
    (img : tensor) (nc : Z) (bs : list block) (st st' : state) (b : block)
    (layers s0 s1 : string) (more : list string) (start end_raw : Z) :
  run img nc bs = Ok st →
  b !! "type" = Some "route" →
  b !! "layers" = Some layers →
  split_on "," layers = s0 :: s1 :: more →
  py_int s0 = Ok start →
  py_int s1 = Ok end_raw →
  step img nc st (Z.of_nat (length bs)) b = Ok st' →
  let i := Z.of_nat (length bs) in
  let end_ := end_raw - i in
  ∃ t1 t2 f1 f2 f,
    0 ≤ i + start < i ∧ 0 ≤ i + end_ < i
    ∧ outputs st !! (i + start) = Some t1
    ∧ outputs st !! (i + end_) = Some t2
    ∧ inputs st' = TConcat [t1; t2] (-1)
    ∧ outputs st' !! i = Some (TConcat [t1; t2] (-1))
    ∧ output_filters st' !! Z.to_nat (i + start) = Some f1
    ∧ output_filters st' !! Z.to_nat (i + end_) = Some f2
    ∧ py_add f1 f2 = Ok f
    ∧ output_filters st' !! Z.to_nat i = Some f
    ∧ (∀ n1 n2, f1 = FInt n1 → f2 = FInt n2 → f = FInt (n1 + n2))
    ∧ ∀ R (N : Numeric R) (K : Kernels R) (img0 x1 x2 : ndarray R),
        eval img0 t1 = Some x1 → eval img0 t2 = Some x2 →
        eval img0 (inputs st') = nd_concat (-1) [x1; x2].
Proof.
  intros Hrun Hty Hl Hsp Hs0 Hs1 H i end_.
  pose proof (run_cache_ok _ _ _ _ Hrun) as Hc.
  pose proof (step_recorded img nc st st' (length bs) b
                (cache_filters_length _ _ Hc) H) as (Hrf & Hro & Hold).
  apply step_Ok in H as (st1 & H & ->).
  rewrite (dispatch_type _ _ _ _ _ _ Hty) in H. simpl in H.
  rewrite (route_block_two _ _ _ _ _ _ _ _ _ Hl Hsp Hs0 Hs1) in H.
  ok_inv H. injection H as <-.
  apply dict_get_Ok in E2, E3. apply lib_Ok in E4 as [-> _].
  fold i in E, E0, E2, E3. fold end_ in E0, E3.
  pose proof (cached_index _ _ _ _ Hc E2) as Hk1.
  pose proof (cached_index _ _ _ _ Hc E3) as Hk2. fold i in Hk1, Hk2.
  apply list_get_direct in E; [| lia].
  apply list_get_from_end in E0; [| lia].
  rewrite (cache_filters_length _ _ Hc) in E0. fold i in E0. simpl in *.
  exists x2, x3, x, x0, x1. repeat split; try done; try lia.
  - rewrite Hold by lia. done.
  - rewrite Hold by lia. done.
  - unfold i. by rewrite Nat2Z.id.
  - intros n1 n2 -> ->. simpl in E1. congruence.
  - intros R N K img0 y1 y2 H1 H2. by rewrite H1, H2.
Qed.

(** ** The carried filter count *)

Lemma run_app (img : tensor) (nc : Z) (bs1 bs2 : list block) :
  run img nc (bs1 ++ bs2)
  = run img nc bs1
    ≫= fun st => walk img nc st (Z.of_nat (length bs1)) bs2.
Proof.
  unfold run. destruct (init_state img); simpl; [| done].
  by rewrite walk_app.
Qed.

Lemma has_type_false (b : block) (ty ty' : string) :
  has_type b ty = false → b !! "type" = Some ty' → String.eqb ty' ty = false.
Proof.
  unfold has_type. intros Hf Hty. apply bool_decide_eq_false in Hf.
  destruct (String.eqb_spec ty' ty); [congruence | done].
Qed.

Lemma dispatch_filters_kept (img : tensor) (nc : Z) (st st' : state) (i : Z) (b : block) :
  sets_filters b = false → dispatch img nc st i b = Ok st' →
  filters st' = filters st.
Proof.
  unfold sets_filters. intros [Hc Hr]%orb_false_elim H.
  unfold dispatch in H. ok_inv H. apply dict_get_Ok in E.
  rewrite (has_type_false _ _ _ Hc E), (has_type_false _ _ _ Hr E) in H.
  repeat match type of H with
         | (if ?c then _ else _) = _ => destruct c
         end.
  - unfold upsample_block in H. ok_inv H. by injection H as <-.
  - unfold shortcut_block in H. ok_inv H. by injection H as <-.
  - unfold yolo_block in H. ok_inv H. destruct x0 as [y p].
    destruct (negb _); ok_inv H; by injection H as <-.
  - by injection H as <-.
Qed.

Lemma walk_filters_kept (img : tensor) (nc : Z) (bs : list block) (st st' : state) (i : Z) :
  Forall (fun b => sets_filters b = false) bs →
  walk img nc st i bs = Ok st' → filters st' = filters st.
Proof.
  intros Hbs. revert st i. induction Hbs as [| b bs Hb _ IH]; intros st i; simpl.
  - by intros [= <-].
  - intros H. ok_inv H. apply IH in H. rewrite H.
    apply step_Ok in E as (st1 & E & ->). simpl.
    eauto using dispatch_filters_kept.
Qed.

Lemma walk_recorded_kept (img : tensor) (nc : Z) (bs : list block) (st st' : state) (i : Z) (j : nat) :
  walk img nc st i bs = Ok st' → (j < length (output_filters st))%nat →
  output_filters st' !! j = output_filters st !! j.
Proof.
  revert st i. induction bs as [| b bs IH]; intros st i; simpl.
  - by intros [= <-].
  - intros H Hj. ok_inv H. apply step_Ok in E as (st1 & E & ->).
    apply dispatch_frame in E as [_ Hf].
    rewrite (IH _ _ H); simpl; rewrite Hf.
    + by rewrite lookup_app_l.
    + rewrite length_app. lia.
Qed.

(** After a walk the variable [filters] holds what the last block that
    assigns it recorded, or the empty list it started with. *)
Lemma run_filters_origin (img : tensor) (nc : Z) (bs : list block) (st : state) :
  run img nc bs = Ok st →
  (∀ pre c post, bs = pre ++ c :: post →
     Forall (fun b => sets_filters b = false) post →
     output_filters st !! length pre = Some (filters st))
  ∧ (Forall (fun b => sets_filters b = false) bs → filters st = FNil).
Proof.
  intros Hrun. split.
  - intros pre c post -> Hpost.
    replace (pre ++ c :: post) with ((pre ++ [c]) ++ post) in Hrun
      by (by rewrite <- app_assoc).
    rewrite run_app in Hrun. ok_inv Hrun.
    pose proof (run_cache_ok _ _ _ _ E) as Hc.
    rewrite length_app in Hc. simpl in Hc.
    rewrite (walk_filters_kept _ _ _ _ _ _ Hpost Hrun).
    rewrite (walk_recorded_kept _ _ _ _ _ _ (length pre) Hrun)
      by (rewrite (cache_filters_length _ _ Hc); lia).
    rewrite <- (cache_last_filters _ _ Hc) by lia. f_equal. lia.
  - intros Hbs. unfold run in Hrun. ok_inv Hrun.
    rewrite (walk_filters_kept _ _ _ _ _ _ Hbs Hrun).
    unfold init_state in E. ok_inv E. by injection E as <-.
Qed.

Lemma bcast_rev_diag (s : sshape) : bcast_rev s s = Some s.
Proof.
  induction s as [| d s IH]; simpl; [done |].
  rewrite IH. destruct d as [x |]; simpl; [| done].
  by rewrite Z.eqb_refl.
Qed.

Lemma bcast_shape_diag (s : sshape) : bcast_shape s s = Some s.
Proof.
  unfold bcast_shape. rewrite bcast_rev_diag. simpl.
  by rewrite reverse_involutive.
Qed.

(** C10, as the code has it: what an upsample or a shortcut block records
    is the variable [filters] as it stands: the count recorded for the
    last convolutional or route block before it, or the empty list when
    there is none. Upsampling keeps the last dimension of the current
    tensor, and so does the addition of two tensors of one shape. *)
Theorem carried_filter_count
    (img : tensor) (nc : Z) (bs : list block) (st st' : state) (b : block) :
  run img nc bs = Ok st →
  has_type b "upsample" || has_type b "shortcut" = true →
  step img nc st (Z.of_nat (length bs)) b = Ok st' →
  let i := length bs in
  output_filters st' !! i = Some (filters st)
  ∧ filters st' = filters st
  ∧ (∀ pre c post, bs = pre ++ c :: post → sets_filters c = true →
       Forall (fun x => sets_filters x = false) post →
       output_filters st' !! i = output_filters st' !! length pre)
  ∧ (Forall (fun x => sets_filters x = false) bs →
       output_filters st' !! i = Some FNil)
  ∧ (has_type b "upsample" = true →
       ∃ stride bd h w c,
         inputs st' = TUpSampling2D stride (inputs st)
         ∧ shape_of (inputs st) = Some [bd; h; w; c]
         ∧ shape_of (inputs st')
           = Some [bd; Z.mul stride <$> h; Z.mul stride <$> w; c])
  ∧ (has_type b "shortcut" = true →
       ∃ t2, inputs st' = TAdd (inputs st) t2
             ∧ (shape_of t2 = shape_of (inputs st) →
                shape_of (inputs st') = shape_of (inputs st))).
Proof.
  intros Hrun Hty H i. subst i.
  pose proof (run_cache_ok _ _ _ _ Hrun) as Hc.
  pose proof (run_filters_origin _ _ _ _ Hrun) as [Hlast Hnone].
  pose proof (step_recorded img nc st st' (length bs) b
                (cache_filters_length _ _ Hc) H) as (Hrf & Hro & Hold).
  assert (Hsf : sets_filters b = false).
  { unfold sets_filters, has_type in *.
    apply orb_true_iff in Hty as [Hu | Hs]; apply bool_decide_eq_true in Hu || apply bool_decide_eq_true in Hs;
      rewrite !bool_decide_eq_false_2; try done; congruence. }
  apply step_Ok in H as (st1 & H & ->).
  pose proof (dispatch_filters_kept _ _ _ _ _ _ Hsf H) as Hk.
  simpl in Hrf, Hold |- *. rewrite Hk in *.
  split; [done |]. split; [done |]. split; [| split; [| split]].
  - intros pre c post -> _ Hpost. rewrite Hrf.
    rewrite Hold by (rewrite length_app; simpl; lia). symmetry. eauto.
  - intros Hbs. by rewrite Hrf, Hnone.
  - intros Hu. apply bool_decide_eq_true in Hu.
    rewrite (dispatch_type _ _ _ _ _ _ Hu) in H. simpl in H.
    unfold upsample_block in H. ok_inv H. injection H as <-.
    apply lib_Ok in E0 as [-> [s Hs]]. simpl in Hs |- *.
    destruct (shape_of (inputs st)) as [[| bd [| h [| w [| c [| ? ?]]]]] |];
      try done.
    destruct (0 <? x); [| done]. by exists x, bd, h, w, c.
  - intros Hs. apply bool_decide_eq_true in Hs.
    rewrite (dispatch_type _ _ _ _ _ _ Hs) in H. simpl in H.
    unfold shortcut_block in H. ok_inv H. injection H as <-.
    apply dict_get_Ok in E0, E1. apply lib_Ok in E2 as [-> _].
    pose proof (cached_index _ _ _ _ Hc E0) as Hi.
    rewrite (cache_last_output _ _ Hc) in E0 by lia. injection E0 as <-.
    exists x1. split; [done |]. simpl. intros ->.
    destruct (shape_of (inputs st)); simpl; [apply bcast_shape_diag | done].
Qed.

(** ** The statements at small inputs *)

Lemma value_of_Ok {A} (d : A) (r : result A) :
  succeeds r = true → r = Ok (value_of d r).
Proof. by destruct r. Qed.

Lemma after_Ok (bs : list block) :
  succeeds (run img8 1 bs) = true → run img8 1 bs = Ok (after bs).
Proof. apply value_of_Ok. Qed.

Lemma step_after (bs : list block) (b : block) :
  succeeds (run img8 1 (bs ++ [b])) = true →
  run img8 1 bs = Ok (after bs)
  ∧ step img8 1 (after bs) (Z.of_nat (length bs)) b = Ok (after (bs ++ [b])).
Proof.
  intros Hs. apply after_Ok in Hs as Hr. rewrite run_snoc in Hr.
  unfold after in *. destruct (run img8 1 bs) as [st |]; simpl in *;
    [by split | done].
Qed.

Lemma other_type_is_skipped_witness :
  let st := after [conv_plain "4"] in
  step img8 1 st 1 maxpool_2
  = Ok (State (<[1 := inputs st]> (outputs st))
              (output_filters st ++ [filters st])
              (filters st) (out_pred st) (scale st) (inputs st)).
Proof.
  apply (other_type_is_skipped img8 1 _ 1 maxpool_2 "maxpool").
  - vm_compute. reflexivity.
  - vm_compute. intros H.
    repeat (apply elem_of_cons in H as [H | H]; [discriminate H |]).
    by apply elem_of_nil in H.
Defined.

(** C9 fails on the code: the description below has a [maxpool] block,
    and the model is built all the same. *)
Lemma unknown_block_type_counterexample :
  match parse_cfg maxpool_cfg with
  | Ok bs => bs !! 2%nat ≫= fun b => b !! "type"
  | Raise _ => None
  end = Some "maxpool"
  ∧ ∃ m, load_model maxpool_cfg (416, 416, 3) 80 = Ok m.
Proof.
  split; [vm_compute; reflexivity |].
  eexists. apply (value_of_Ok (Model img8 None)). vm_compute. reflexivity.
Qed.

Lemma convolutional_block_layers_witness :
  let st := after [] in
  let st' := after [conv_down] in
  ∃ activation n_filters kernel_size strides,
    conv_down !! "activation" = Some activation
    ∧ attr_int conv_down "filters" = Ok n_filters
    ∧ attr_int conv_down "size" = Ok kernel_size
    ∧ attr_int conv_down "stride" = Ok strides
    ∧ (let bn := dict_has conv_down "batch_normalize" in
       let padded :=
         if 1 <? strides then TZeroPadding2D 1 0 1 0 (inputs st)
         else inputs st in
       let conv :=
         TConv2D n_filters kernel_size strides
                 (if 1 <? strides then Valid else Same)
                 ("conv_" +:+ py_str 0) (negb bn) padded in
       let normed :=
         if bn then TBatchNormalization ("bnorm_" +:+ py_str 0) conv
         else conv in
       inputs st'
       = if String.eqb activation "leaky"
         then TLeakyReLU (1 # 10) ("leaky_" +:+ py_str 0) normed
         else normed)
    ∧ (¬ 1 < strides → strides = 1)
    ∧ filters st' = FInt n_filters
    ∧ outputs st' !! 0 = Some (inputs st')
    ∧ output_filters st' = output_filters st ++ [FInt n_filters].
Proof.
  apply (convolutional_block_layers img8 1 (after []) (after [conv_down]) 0 conv_down).
  - vm_compute. reflexivity.
  - apply (step_after [] conv_down). vm_compute. reflexivity.
Defined.

Lemma route_one_reference_witness :
  let st := after [conv_plain "4"; conv_plain "12"] in
  let st' := after [conv_plain "4"; conv_plain "12"; route_back2] in
  ∃ t f,
    0 ≤ 2 + -2 < 2
    ∧ outputs st !! (2 + -2) = Some t
    ∧ output_filters st !! Z.to_nat (2 + -2) = Some f
    ∧ inputs st' = t
    ∧ outputs st' !! 2 = Some t
    ∧ filters st' = f
    ∧ output_filters st' !! Z.to_nat 2 = Some f
    ∧ output_filters st' !! Z.to_nat (2 + -2) = Some f.
Proof.
  apply (route_one_reference img8 1 [conv_plain "4"; conv_plain "12"]
           _ _ route_back2 "-2" "-2" (-2)).
  - apply after_Ok. vm_compute. reflexivity.
  - vm_compute. reflexivity.
  - vm_compute. reflexivity.
  - vm_compute. reflexivity.
  - vm_compute. reflexivity.
  - apply (step_after [conv_plain "4"; conv_plain "12"] route_back2).
    vm_compute. reflexivity.
Defined.

Lemma route_two_references_witness :
  let st := after [conv_plain "4"; conv_plain "12"] in
  let st' := after [conv_plain "4"; conv_plain "12"; route_pair] in
  ∃ t1 t2 f1 f2 f,
    0 ≤ 2 + -1 < 2 ∧ 0 ≤ 2 + (0 - 2) < 2
    ∧ outputs st !! (2 + -1) = Some t1
    ∧ outputs st !! (2 + (0 - 2)) = Some t2
    ∧ inputs st' = TConcat [t1; t2] (-1)
    ∧ outputs st' !! 2 = Some (TConcat [t1; t2] (-1))
    ∧ output_filters st' !! Z.to_nat (2 + -1) = Some f1
    ∧ output_filters st' !! Z.to_nat (2 + (0 - 2)) = Some f2
    ∧ py_add f1 f2 = Ok f
    ∧ output_filters st' !! Z.to_nat 2 = Some f
    ∧ (∀ n1 n2, f1 = FInt n1 → f2 = FInt n2 → f = FInt (n1 + n2))
    ∧ ∀ R (N : Numeric R) (K : Kernels R) (img0 x1 x2 : ndarray R),
        eval img0 t1 = Some x1 → eval img0 t2 = Some x2 →
        eval img0 (inputs st') = nd_concat (-1) [x1; x2].
Proof.
  apply (route_two_references img8 1 [conv_plain "4"; conv_plain "12"]
           _ _ route_pair "-1, 0" "-1" " 0" [] (-1) 0).
  - apply after_Ok. vm_compute. reflexivity.
  - vm_compute. reflexivity.
  - vm_compute. reflexivity.
  - vm_compute. reflexivity.
  - vm_compute. reflexivity.
  - vm_compute. reflexivity.
  - apply (step_after [conv_plain "4"; conv_plain "12"] route_pair).
    vm_compute. reflexivity.
Defined.

Lemma carried_filter_count_witness :
  let bs := [conv_plain "4"] in
  let st := after bs in
  let st' := after (bs ++ [upsample_2]) in
  let i := length bs in
  output_filters st' !! i = Some (filters st)
  ∧ filters st' = filters st
  ∧ (∀ pre c post, bs = pre ++ c :: post → sets_filters c = true →
       Forall (fun x => sets_filters x = false) post →
       output_filters st' !! i = output_filters st' !! length pre)
  ∧ (Forall (fun x => sets_filters x = false) bs →
       output_filters st' !! i = Some FNil)
  ∧ (has_type upsample_2 "upsample" = true →
       ∃ stride bd h w c,
         inputs st' = TUpSampling2D stride (inputs st)
         ∧ shape_of (inputs st) = Some [bd; h; w; c]
         ∧ shape_of (inputs st')
           = Some [bd; Z.mul stride <$> h; Z.mul stride <$> w; c])
  ∧ (has_type upsample_2 "shortcut" = true →
       ∃ t2, inputs st' = TAdd (inputs st) t2
             ∧ (shape_of t2 = shape_of (inputs st) →
                shape_of (inputs st') = shape_of (inputs st))).
Proof.
  apply (carried_filter_count img8 1 [conv_plain "4"] _ _ upsample_2).
  - apply after_Ok. vm_compute. reflexivity.
  - vm_compute. reflexivity.
  - apply (step_after [conv_plain "4"] upsample_2). vm_compute. reflexivity.
Defined.

(** C10 fails on the code: an upsample block ahead of every convolution
    records the empty list, while its output has the three channels of
    the image. *)
Lemma carried_filter_count_counterexample :
  match parse_cfg upsample_first_cfg with
  | Ok bs =>
      match run (TInput 416 416 3) 80 (drop 1 bs) with
      | Ok st =>
          Some ((fun b => has_type b "upsample") <$> bs !! 1%nat,
                output_filters st !! 0%nat,
                get_shape <$> outputs st !! 0)
      | Raise _ => None
      end
  | Raise _ => None
  end
  = Some (Some true, Some FNil, Some [None; Some 832; Some 832; Some 3])
  ∧ ∃ m, load_model upsample_first_cfg (416, 416, 3) 80 = Ok m.
Proof.
  split; [vm_compute; reflexivity |].
  eexists. apply (value_of_Ok (Model img8 None)). vm_compute. reflexivity.
Qed.

(** ** Lists in rows *)

Local Open Scope nat_scope.

Lemma mjoin_lookup_uniform {A} (ls : list (list A)) (n i j : nat) :
  Forall (fun l => length l = n) ls → j < n →
  mjoin ls !! (i * n + j) = ls !! i ≫= fun l => l !! j.
Proof.
  intros Hls Hj. revert i. induction Hls as [| l ls Hl _ IH]; intros i.
  - done.
  - destruct i as [| i]; simpl.
    + by rewrite lookup_app_l by lia.
    + rewrite lookup_app_r by lia. rewrite <- IH. f_equal. lia.
Qed.

Lemma mjoin_length_uniform {A} (ls : list (list A)) (n : nat) :
  Forall (fun l => length l = n) ls → length (mjoin ls) = length ls * n.
Proof.
  induction 1 as [| l ls Hl _ IH]; simpl; [done |].
  rewrite length_app. lia.
Qed.

Lemma chunks_length {A} (count size : nat) (l : list A) :
  length (chunks count size l) = count.
Proof.
  revert l. induction count as [| c IH]; intros l; simpl; [done |].
  by rewrite IH.
Qed.

Lemma chunks_lookup {A} (count size i : nat) (l : list A) :
  i < count → chunks count size l !! i = Some (take size (drop (i * size) l)).
Proof.
  revert l i. induction count as [| c IH]; intros l i Hi; [lia |].
  destruct i as [| i]; simpl; [done |].
  rewrite IH by lia. by rewrite drop_drop.
Qed.

Lemma chunks_uniform {A} (count size : nat) (l : list A) :
  count * size ≤ length l →
  Forall (fun r => length r = size) (chunks count size l).
Proof.
  revert l. induction count as [| c IH]; intros l Hl; simpl; constructor.
  - rewrite length_take. lia.
  - apply IH. rewrite length_drop. lia.
Qed.

Lemma cycle_length {A} (n : nat) (l : list A) :
  length (cycle n l) = n * length l.
Proof.
  unfold cycle.
  rewrite (mjoin_length_uniform _ (length l)) by (by apply Forall_replicate).
  by rewrite length_replicate.
Qed.

Lemma cycle_lookup {A} (n i j : nat) (l : list A) :
  i < n → j < length l → cycle n l !! (i * length l + j) = l !! j.
Proof.
  intros Hi Hj. unfold cycle.
  rewrite mjoin_lookup_uniform by (done || by apply Forall_replicate).
  by rewrite lookup_replicate_2.
Qed.

(** The rows of a list cut in pieces and mapped piece by piece. *)
Lemma mjoin_chunks_lookup {A B} (f : list A → list B) (count size w i j : nat) (l : list A) :
  (∀ r, length r = size → length (f r) = w) →
  count * size ≤ length l → i < count → j < w →
  mjoin (f <$> chunks count size l) !! (i * w + j)
  = f (take size (drop (i * size) l)) !! j.
Proof.
  intros Hf Hl Hi Hj.
  rewrite mjoin_lookup_uniform.
  - by rewrite list_lookup_fmap, chunks_lookup.
  - apply Forall_fmap. eapply Forall_impl; [by apply chunks_uniform |].
    intros r Hr. by apply Hf.
  - done.
Qed.

Lemma mjoin_chunks_length {A B} (f : list A → list B) (count size w : nat) (l : list A) :
  (∀ r, length r = size → length (f r) = w) →
  count * size ≤ length l →
  length (mjoin (f <$> chunks count size l)) = count * w.
Proof.
  intros Hf Hl. rewrite (mjoin_length_uniform _ w).
  - by rewrite length_fmap, chunks_length.
  - apply Forall_fmap. eapply Forall_impl; [by apply chunks_uniform |].
    intros r Hr. by apply Hf.
Qed.

Lemma first_row_length {A} (parts : list (nat * list A)) :
  Forall (fun p => fst p ≤ length (snd p)) parts →
  length (mjoin ((fun p => take (fst p) (snd p)) <$> parts)) = widths parts.
Proof.
  unfold widths. induction 1 as [| [w d] parts Hp _ IH]; [done |].
  change (length (take w d ++ mjoin ((fun p => take (fst p) (snd p)) <$> parts))
          = w + sum_list (fst <$> parts)).
  rewrite length_app, length_take, IH. simpl in Hp. lia.
Qed.

(** Piece [o] of an interleaving is piece [o] of every part, in the order
    of the parts. *)
Lemma interleave_chunk {A} (outer o : nat) (parts : list (nat * list A)) :
  o < outer →
  Forall (fun p => outer * fst p ≤ length (snd p)) parts →
  take (widths parts) (drop (o * widths parts) (interleave outer parts))
  = mjoin ((fun p => take (fst p) (drop (o * fst p) (snd p))) <$> parts).
Proof.
  revert o parts. induction outer as [| outer IH]; intros o parts Ho Hp;
    [lia |].
  assert (Hrow : length (mjoin ((fun p => take (fst p) (snd p)) <$> parts))
                 = widths parts).
  { apply first_row_length. eapply Forall_impl; [done |].
    intros [w d]; simpl. lia. }
  cbn [interleave]. destruct o as [| o].
  - rewrite Nat.mul_0_l, drop_0, take_app_length' by done. reflexivity.
  - replace (S o * widths parts) with (widths parts + o * widths parts) by lia.
    rewrite <- drop_drop, drop_app_length' by done.
    assert (Hw : widths ((fun p => (fst p, drop (fst p) (snd p))) <$> parts)
                 = widths parts).
    { unfold widths. rewrite <- list_fmap_compose. done. }
    rewrite <- Hw at 1 2. rewrite IH.
    + rewrite <- list_fmap_compose. f_equal. apply list_fmap_ext.
      intros _ [w d] _. simpl. by rewrite drop_drop.
    + lia.
    + apply Forall_fmap. eapply Forall_impl; [done |].
      intros [w d]; simpl. rewrite length_drop. lia.
Qed.

Lemma interleave_length {A} (outer : nat) (parts : list (nat * list A)) :
  Forall (fun p => outer * fst p ≤ length (snd p)) parts →
  length (interleave outer parts) = outer * widths parts.
Proof.
  revert parts. induction outer as [| outer IH]; intros parts Hp; [done |].
  cbn [interleave]. rewrite length_app, first_row_length, IH.
  - assert (Hw : widths ((fun p => (fst p, drop (fst p) (snd p))) <$> parts)
                 = widths parts).
    { unfold widths. rewrite <- list_fmap_compose. done. }
    rewrite Hw. lia.
  - apply Forall_fmap. eapply Forall_impl; [done |].
    intros [w d]; simpl. rewrite length_drop. lia.
  - eapply Forall_impl; [done |]. intros [w d]; simpl. lia.
Qed.

(** An entry of the first part of an interleaving. *)
Lemma interleave_lookup_first {A} (outer o c w : nat) (d : list A)
    (rest : list (nat * list A)) :
  o < outer → c < w →
  Forall (fun p => outer * fst p ≤ length (snd p)) ((w, d) :: rest) →
  interleave outer ((w, d) :: rest) !! (o * widths ((w, d) :: rest) + c)
  = d !! (o * w + c).
Proof.
  intros Ho Hc Hp.
  pose proof (interleave_chunk outer o _ Ho Hp) as Hch.
  apply (f_equal (fun l => l !! c)) in Hch.
  rewrite lookup_take_lt, lookup_drop in Hch
    by (unfold widths; simpl; lia).
  rewrite Hch. simpl. rewrite lookup_app_l.
  - by rewrite lookup_take_lt, lookup_drop.
  - rewrite length_take, length_drop. inversion Hp; subst; simpl in *. nia.
Qed.

Local Close Scope nat_scope.

(** ** The detection head *)

Lemma shape_dim_Ok (s : sshape) (k : Z) (d : Z) :
  0 ≤ k →
  list_get s k ≫= of_option TypeError = Ok d →
  s !! Z.to_nat k = Some (Some d).
Proof.
  intros Hk H. apply bind_Ok in H as (o & Ho & H).
  apply of_option_Ok in H as ->. by apply list_get_direct in Ho.
Qed.

Lemma floor_div_Ok (d n q : Z) :
  (if d =? 0 then Raise ZeroDivisionError else Ok (n / d)) = Ok q →
  d ≠ 0 ∧ q = n / d.
Proof. destruct (Z.eqb_spec d 0); [done |]. by intros [= <-]. Qed.

(** What a successful head consists of. *)
Lemma yolo_head_Ok (img : tensor) (nc : Z) (b : block) (t x p : tensor) :
  yolo_head img nc b t = Ok (x, p) →
  ∃ anchors d1 d2 ih iw tiled cxy,
    yolo_anchors b = Ok anchors
    ∧ get_shape t !! 1%nat = Some (Some d1)
    ∧ get_shape t !! 2%nat = Some (Some d2)
    ∧ get_shape img !! 1%nat = Some (Some ih)
    ∧ get_shape img !! 2%nat = Some (Some iw)
    ∧ d1 ≠ 0 ∧ d2 ≠ 0
    ∧ nd_tile [d1 * d2; 1] (of_pairs anchors) = Some tiled
    ∧ grid_offsets d1 d2 (Z.of_nat (length anchors)) = Some cxy
    ∧ x = TReshape t [-1; Z.of_nat (length anchors) * d1 * d2; 5 + nc]
    ∧ p = TConcat [centers_of x cxy (ih / d1) (iw / d2); sizes_of x tiled;
                   objectness_of x; classes_of x nc] (-1)
    ∧ is_Some (shape_of x)
    ∧ is_Some (shape_of p).
Proof.
  unfold yolo_head. intros H.
  apply bind_Ok in H as (anchors & Ha & H).
  apply bind_Ok in H as (d1 & Hd1 & H).
  apply bind_Ok in H as (d2 & Hd2 & H).
  apply shape_dim_Ok in Hd1; [| done]. apply shape_dim_Ok in Hd2; [| done].
  apply bind_Ok in H as (x0 & Hx & H). apply lib_Ok in Hx as [-> Hxs].
  repeat match type of H with
         | (lib ?t ≫= _) = Ok _ =>
             let y := fresh "y" in
             let Hy := fresh "Hy" in
             apply bind_Ok in H as (y & Hy & H);
             apply lib_Ok in Hy as [-> _]
         end.
  apply bind_Ok in H as (tiled & Ht & H). apply of_option_Ok in Ht.
  repeat match type of H with
         | (lib ?t ≫= _) = Ok _ =>
             let y := fresh "y" in
             let Hy := fresh "Hy" in
             apply bind_Ok in H as (y & Hy & H);
             apply lib_Ok in Hy as [-> _]
         end.
  apply bind_Ok in H as (cxy & Hc & H). apply of_option_Ok in Hc.
  apply bind_Ok in H as (ih & Hih & H).
  apply bind_Ok in H as (iw & Hiw & H).
  apply shape_dim_Ok in Hih; [| done]. apply shape_dim_Ok in Hiw; [| done].
  apply bind_Ok in H as (s1 & Hs1 & H). apply floor_div_Ok in Hs1 as [? ->].
  apply bind_Ok in H as (s2 & Hs2 & H). apply floor_div_Ok in Hs2 as [? ->].
  apply bind_Ok in H as (c1 & Hc1 & H). apply lib_Ok in Hc1 as [-> _].
  apply bind_Ok in H as (c2 & Hc2 & H). apply lib_Ok in Hc2 as [-> _].
  apply bind_Ok in H as (p0 & Hp & H). apply lib_Ok in Hp as [-> Hp].
  injection H as <- <-.
  exists anchors, d1, d2, ih, iw, tiled, cxy. repeat split; try done.
Qed.

(** ** Arrays: shapes, sizes and entries *)

Local Open Scope nat_scope.

#[local] Arguments Nat.div : simpl never.
#[local] Arguments Nat.modulo : simpl never.
#[local] Arguments Nat.mul : simpl never.
#[local] Arguments Z.mul : simpl never.
#[local] Arguments Z.to_nat : simpl never.
#[local] Arguments Z.of_nat : simpl never.
#[local] Arguments chunks : simpl never.
#[local] Arguments cycle : simpl never.
#[local] Arguments interleave : simpl never.
#[local] Arguments seqZ : simpl never.

Lemma cycle_lookup_mod {A} (n k : nat) (l : list A) :
  k < n * length l → cycle n l !! k = l !! (k mod length l).
Proof.
  intros Hk. assert (0 < length l) by nia.
  rewrite (Nat.div_mod_eq k (length l)) at 1.
  rewrite (Nat.mul_comm (length l)). apply cycle_lookup.
  - apply Nat.Div0.div_lt_upper_bound. lia.
  - apply Nat.mod_upper_bound. lia.
Qed.

Lemma prod_list_app (s1 s2 : list nat) :
  prod_list (s1 ++ s2) = prod_list s1 * prod_list s2.
Proof.
  unfold prod_list. induction s1 as [| d s1 IH]; simpl; [lia |].
  rewrite IH. lia.
Qed.

Lemma prod_list_split (k : nat) (s : list nat) :
  prod_list (take k s) * prod_list (drop k s) = prod_list s.
Proof. by rewrite <- prod_list_app, take_drop. Qed.

Lemma prod_list_drop_ones (s : list nat) :
  prod_list (drop_ones s) = prod_list s.
Proof.
  induction s as [| d s IH]; [done |].
  destruct d as [| [| d]]; try done.
  simpl. rewrite IH. unfold prod_list. simpl. lia.
Qed.

Lemma prod_list_suffix (s1 s2 : list nat) :
  s1 `suffix_of` s2 → ∃ q, prod_list s2 = q * prod_list s1.
Proof. intros [k ->]. exists (prod_list k). apply prod_list_app. Qed.

Lemma prod_list_3 (a b c : nat) : prod_list [a; b; c] = a * b * c.
Proof. unfold prod_list. simpl. lia. Qed.

Lemma nd_map_wf {A B} (f : A → B) (x : ndarray A) :
  nd_wf x → nd_wf (nd_map f x).
Proof. unfold nd_wf, nd_map. simpl. by rewrite length_fmap. Qed.

(** Reshaping to records. *)
Lemma resolve_records (total : nat) (n d : Z) (s : list nat) :
  (0 ≤ n)%Z → (0 ≤ d)%Z →
  resolve_shape total [-1; n; d]%Z = Some s →
  ∃ b, s = [b; Z.to_nat n; Z.to_nat d]
       ∧ total = b * (Z.to_nat n * Z.to_nat d).
Proof.
  intros Hn Hd. unfold resolve_shape.
  assert (filter (fun k => k ≠ (-1)%Z) [-1; n; d]%Z = [n; d]) as ->.
  { rewrite !filter_cons, filter_nil.
    repeat case_decide; try done; lia. }
  assert (filter (fun k => k = (-1)%Z) [-1; n; d]%Z = [(-1)%Z]) as ->.
  { rewrite !filter_cons, filter_nil.
    repeat case_decide; try done; lia. }
  case_bool_decide; [| done]. cbn [length fmap list_fmap].
  set (known := prod_list [Z.to_nat n; Z.to_nat d]).
  assert (Hk : known = Z.to_nat n * Z.to_nat d)
    by (unfold known, prod_list; simpl; lia).
  destruct (Nat.ltb_spec 0 known); [| done].
  destruct (Nat.eqb_spec (total mod known) 0) as [Hm |]; [| done].
  simpl. intros [= <-]. exists (total / known).
  destruct (Z.eqb_spec n (-1)); [lia |]. destruct (Z.eqb_spec d (-1)); [lia |].
  split; [done |]. rewrite <- Hk.
  rewrite (Nat.div_mod_eq total known) at 1. lia.
Qed.

Lemma nd_reshape_records {A} (n d : Z) (x y : ndarray A) :
  (0 ≤ n)%Z → (0 ≤ d)%Z → nd_wf x →
  nd_reshape [-1; n; d]%Z x = Some y →
  ∃ b, nd_shape y = [b; Z.to_nat n; Z.to_nat d]
       ∧ nd_data y = nd_data x ∧ nd_wf y.
Proof.
  intros Hn Hd Hx. unfold nd_reshape.
  destruct (resolve_shape _ _) as [s |] eqn:Hs; [| done].
  simpl. intros [= <-].
  apply resolve_records in Hs as (b & -> & Hb); [| done | done].
  exists b. repeat split. unfold nd_wf in *. cbn [nd_shape nd_data].
  rewrite Hx, Hb, prod_list_3. lia.
Qed.

(** Slicing the last axis of records. *)
Lemma nd_slice2_records {A} (lo hi : Z) (b n d : nat) (x : ndarray A) :
  nd_shape x = [b; n; d] → nd_wf x →
  (0 ≤ lo ≤ hi)%Z → (hi ≤ Z.of_nat d)%Z →
  let w := Z.to_nat (hi - lo) in
  ∃ y, nd_slice2 lo hi x = Some y
       ∧ nd_shape y = [b; n; w] ∧ nd_wf y
       ∧ ∀ j c, j < b * n → c < w →
           nd_data y !! (j * w + c) = nd_data x !! (j * d + Z.to_nat lo + c).
Proof.
  intros Hs Hx Hlo Hhi w. unfold nd_slice2. rewrite Hs.
  unfold slice_bounds.
  destruct (Z.ltb_spec lo 0); [lia |]. destruct (Z.ltb_spec hi 0); [lia |].
  rewrite (Z.min_l lo), (Z.min_l hi) by lia. fold w.
  eexists. split; [done |]. cbn [nd_shape nd_data].
  unfold nd_wf in *. rewrite Hs, prod_list_3 in Hx. cbn [nd_shape nd_data].
  assert (Hrow : ∀ r : list A, length r = d →
                   length (take w (drop (Z.to_nat lo) r)) = w).
  { intros r Hr. rewrite length_take, length_drop. lia. }
  split; [done |]. split.
  - rewrite (mjoin_chunks_length _ _ d w) by (exact Hrow || lia).
    rewrite prod_list_3. lia.
  - intros j c Hj Hc.
    rewrite (mjoin_chunks_lookup _ _ d w) by (exact Hrow || lia).
    rewrite lookup_take_lt, lookup_drop, lookup_take_lt, lookup_drop by lia.
    f_equal. lia.
Qed.

(** Broadcasting along the leading axes. *)
Lemma nd_broadcast_Some {A B C} (op : A → B → C)
    (x : ndarray A) (y : ndarray B) (z : ndarray C) :
  nd_wf x → nd_wf y → nd_broadcast op x y = Some z →
  nd_shape z = nd_shape x ∧ nd_wf z
  ∧ ∀ k a, nd_data x !! k = Some a →
      ∃ v, nd_data y !! (k mod length (nd_data y)) = Some v
           ∧ nd_data z !! k = Some (op a v).
Proof.
  intros Hx Hy. unfold nd_broadcast. case_bool_decide as Hc; [| done].
  intros [= <-]. cbn [nd_shape nd_data]. destruct Hc as [Hsuf _].
  apply prod_list_suffix in Hsuf as [q Hq].
  rewrite prod_list_drop_ones in *. unfold nd_wf in *.
  cbn [nd_shape nd_data]. rewrite <- Hx, <- Hy in *.
  set (cnt := length (nd_data x) / length (nd_data y)).
  assert (Hcnt : cnt * length (nd_data y) = length (nd_data x)).
  { unfold cnt. rewrite Hq.
    destruct (length (nd_data y)) as [| m] eqn:Hm; [lia |].
    rewrite Nat.div_mul by lia. done. }
  split; [done |]. split.
  - rewrite length_zip_with, cycle_length. lia.
  - intros k a Hk. apply lookup_lt_Some in Hk as Hlt.
    assert (0 < length (nd_data y)) by nia.
    destruct (lookup_lt_is_Some_2 (nd_data y) (k mod length (nd_data y)))
      as [v Hv]; [by apply Nat.mod_upper_bound; lia |].
    exists v. split; [done |].
    rewrite lookup_zip_with, Hk. simpl.
    rewrite cycle_lookup_mod by lia. by rewrite Hv.
Qed.

Lemma nd_concat_cons {A} (axis : Z) (x : ndarray A) (xs : list (ndarray A)) :
  nd_concat axis (x :: xs)
  = (a ← norm_axis (length (nd_shape x)) axis;
     if forallb (fun y => same_but_axis a (nd_shape x) (nd_shape y)) (x :: xs)
     then Some (NDArray
                  (take a (nd_shape x)
                   ++ sum_list ((fun y => default 0 (nd_shape y !! a)) <$> x :: xs)
                   :: drop (S a) (nd_shape x))
                  (interleave (prod_list (take a (nd_shape x)))
                     ((fun y => (prod_list (drop a (nd_shape y)), nd_data y))
                      <$> x :: xs)))
     else None).
Proof. done. Qed.

(** Concatenating records along their last axis. *)
Lemma nd_concat_records {A} (b n : nat) (xs : list (ndarray A)) (ws : list nat) (z : ndarray A) :
  Forall2 (fun x w => nd_shape x = [b; n; w] ∧ nd_wf x) xs ws →
  nd_concat (-1) xs = Some z →
  nd_shape z = [b; n; sum_list ws]
  ∧ nd_data z
    = interleave (b * n) ((fun x => (default 0 (nd_shape x !! 2), nd_data x)) <$> xs)
  ∧ nd_wf z.
Proof.
  intros Hxs.
  assert (Hsum : sum_list ((fun y : ndarray A => default 0 (nd_shape y !! 2)) <$> xs)
                 = sum_list ws).
  { induction Hxs as [| x' w' xs' ws' [Hx' _] _ IH]; [done |].
    rewrite fmap_cons. cbn [sum_list sum_list_with]. rewrite Hx'. simpl.
    f_equal. apply IH. }
  assert (Hall : Forall (fun y => ∃ w', nd_shape y = [b; n; w'] ∧ nd_wf y) xs).
  { clear -Hxs. induction Hxs as [| x' w' xs' ws' [Hx' ?] _ IH];
      constructor; eauto. }
  assert (Hparts :
    (fun y : ndarray A => (prod_list (drop 2 (nd_shape y)), nd_data y)) <$> xs
    = (fun y : ndarray A => (default 0 (nd_shape y !! 2), nd_data y)) <$> xs).
  { apply Forall_fmap_ext_1. eapply Forall_impl; [exact Hall |].
    intros y (w' & Hy & _). rewrite Hy. simpl. unfold prod_list. simpl.
    f_equal. lia. }
  intros Hz. destruct xs as [| x xs]; [done |].
  rewrite nd_concat_cons in Hz.
  assert (Hx : ∃ w, nd_shape x = [b; n; w]).
  { inversion Hall as [| ? ? (w' & ? & ?) _]; eauto. }
  destruct Hx as [w Hx].
  apply bind_Some in Hz as (a & Ha & Hz). rewrite Hx in Ha.
  change (norm_axis (length [b; n; w]) (-1)) with (Some 2) in Ha.
  injection Ha as <-. destruct (forallb _ _); [| done].
  apply (inj Some) in Hz. subst z. cbn [nd_shape nd_data]. rewrite Hx.
  change (take 2 [b; n; w]) with [b; n].
  change (drop 3 [b; n; w]) with (@nil nat).
  rewrite Hparts, Hsum.
  assert (Hout : prod_list [b; n] = b * n) by (unfold prod_list; simpl; lia).
  rewrite Hout. split; [done |]. split; [done |].
  unfold nd_wf. cbn [nd_shape nd_data app]. rewrite interleave_length.
  - rewrite prod_list_3. unfold widths. rewrite <- list_fmap_compose.
    change (fst ∘ _) with (fun y : ndarray A => default 0 (nd_shape y !! 2)).
    rewrite Hsum. lia.
  - apply Forall_fmap. eapply Forall_impl; [exact Hall |].
    intros y (w' & Hy & Hwf).
    simpl. rewrite Hy. simpl. unfold nd_wf in Hwf.
    rewrite Hwf, Hy, prod_list_3. lia.
Qed.

(** ** The constants of a head *)

Lemma prod_list_alter (m k : nat) (s : list nat) :
  k < length s → prod_list (alter (Nat.mul m) k s) = m * prod_list s.
Proof.
  unfold prod_list. change (alter (Nat.mul m) k s) with (list_alter (Nat.mul m) k s).
  revert k. induction s as [| d s IH]; intros k Hk; [simpl in Hk; lia |].
  destruct k as [| k]; simpl in *; [lia |]. rewrite IH by lia. lia.
Qed.

Lemma tile_axis_wf {A} (k m : nat) (x : ndarray A) :
  nd_wf x → k < length (nd_shape x) → nd_wf (tile_axis k m x).
Proof.
  unfold nd_wf, tile_axis. intros Hx Hk. cbn [nd_shape nd_data].
  pose proof (prod_list_split k (nd_shape x)) as Hs.
  rewrite (mjoin_chunks_length _ _ (prod_list (drop k (nd_shape x)))
             (m * prod_list (drop k (nd_shape x)))).
  - rewrite prod_list_alter by done. lia.
  - intros r Hr. by rewrite cycle_length, Hr.
  - lia.
Qed.

Lemma of_pairs_wf {A} (l : list (A * A)) : nd_wf (of_pairs l).
Proof.
  unfold nd_wf, of_pairs. cbn [nd_shape nd_data].
  rewrite (mjoin_length_uniform _ 2).
  - rewrite length_fmap. unfold prod_list. simpl. lia.
  - apply Forall_fmap, Forall_forall. done.
Qed.

(** The anchors repeated for every cell. *)
Lemma tiled_anchors {A} (m : Z) (l : list (A * A)) (y : ndarray A) :
  nd_tile [m; 1]%Z (of_pairs l) = Some y →
  nd_shape y = [Z.to_nat m * length l; 2] ∧ nd_wf y.
Proof.
  unfold nd_tile. case_bool_decide; [| done]. intros [= <-].
  cbn [fmap list_fmap tile_from]. split.
  - unfold tile_axis, of_pairs. cbn [nd_shape alter list_alter].
    change (Z.to_nat 1) with 1. by rewrite Nat.mul_1_l.
  - apply tile_axis_wf; [apply tile_axis_wf |].
    + apply of_pairs_wf.
    + simpl. lia.
    + unfold tile_axis, of_pairs. simpl. lia.
Qed.

Lemma chunks_one {A} (size : nat) (l : list A) :
  length l ≤ size → mjoin (cycle 1 <$> chunks 1 size l) = l.
Proof.
  intros Hl. unfold chunks, cycle. simpl.
  by rewrite !app_nil_r, take_ge.
Qed.

(** Every row repeated [m] times, side by side. *)
Lemma tiled_columns {A} (m : Z) (n w : nat) (x : ndarray A) :
  nd_shape x = [n; w] → nd_wf x → (0 ≤ m)%Z →
  ∃ y, nd_tile [1; m]%Z x = Some y
       ∧ nd_shape y = [n; Z.to_nat m * w] ∧ nd_wf y
       ∧ ∀ k a c, k < n → a < Z.to_nat m → c < w →
           nd_data y !! (k * (Z.to_nat m * w) + (a * w + c))
           = nd_data x !! (k * w + c).
Proof.
  intros Hs Hx Hm. unfold nd_tile. rewrite Hs.
  rewrite bool_decide_eq_true_2 by (split; [done | repeat constructor; lia]).
  eexists. split; [done |].
  cbn [fmap list_fmap tile_from].
  assert (Hwf1 : nd_wf (tile_axis 1 (Z.to_nat m) x))
    by (apply tile_axis_wf; [done | rewrite Hs; simpl; lia]).
  assert (Hs1 : nd_shape (tile_axis 1 (Z.to_nat m) x) = [n; Z.to_nat m * w])
    by (unfold tile_axis; by rewrite Hs).
  assert (Hd1 : nd_data (tile_axis 1 (Z.to_nat m) x)
                = mjoin (cycle (Z.to_nat m) <$> chunks n w (nd_data x))).
  { unfold tile_axis. cbn [nd_data]. rewrite Hs.
    unfold prod_list. simpl. by rewrite !Nat.mul_1_r. }
  assert (Hlen : length (nd_data x) = n * w).
  { unfold nd_wf in Hx. rewrite Hx, Hs. unfold prod_list. simpl. lia. }
  split; [| split].
  - unfold tile_axis at 1. cbn [nd_shape]. rewrite Hs1. simpl.
    change (Z.to_nat 1) with 1. by rewrite Nat.mul_1_l.
  - apply tile_axis_wf; [done | rewrite Hs1; simpl; lia].
  - intros k a c Hk Ha Hc. unfold tile_axis at 1. cbn [nd_data].
    rewrite Hs1. change (take 0 [n; Z.to_nat m * w]) with (@nil nat).
    change (prod_list []) with 1. change (Z.to_nat 1) with 1.
    rewrite chunks_one
      by (unfold nd_wf in Hwf1; rewrite Hwf1, Hs1; done).
    rewrite Hd1.
    rewrite (mjoin_chunks_lookup _ _ w (Z.to_nat m * w)); try lia.
    + assert (Hr : length (take w (drop (k * w) (nd_data x))) = w).
      { rewrite length_take, length_drop. nia. }
      replace (a * w + c)
        with (a * length (take w (drop (k * w) (nd_data x))) + c)
        by (by rewrite Hr).
      rewrite cycle_lookup by lia.
      by rewrite lookup_take_lt, lookup_drop.
    + intros r Hr. by rewrite cycle_length, Hr.
    + nia.
Qed.

Lemma resolve_rows (total : nat) :
  resolve_shape total [-1; 1]%Z = Some [total; 1].
Proof.
  unfold resolve_shape.
  change (filter (fun d => d ≠ (-1)%Z) [-1; 1]%Z) with [1%Z].
  change (filter (fun d => d = (-1)%Z) [-1; 1]%Z) with [(-1)%Z].
  rewrite bool_decide_eq_true_2 by (repeat constructor; lia).
  change (prod_list (Z.to_nat <$> [1%Z])) with 1.
  cbn [length]. rewrite Nat.mod_1_r. simpl. by rewrite Nat.div_1_r.
Qed.

Lemma nd_reshape_rows {A} (s : list nat) (d : list A) :
  nd_reshape [-1; 1]%Z (NDArray s d) = Some (NDArray [prod_list s; 1] d).
Proof. unfold nd_reshape. cbn [nd_shape nd_data]. by rewrite resolve_rows. Qed.

Lemma resolve_pairs (m : nat) :
  resolve_shape (m * 2) [1; -1; 2]%Z = Some [1; m; 2].
Proof.
  unfold resolve_shape.
  change (filter (fun d => d ≠ (-1)%Z) [1; -1; 2]%Z) with [1%Z; 2%Z].
  change (filter (fun d => d = (-1)%Z) [1; -1; 2]%Z) with [(-1)%Z].
  rewrite bool_decide_eq_true_2 by (repeat constructor; lia).
  change (prod_list (Z.to_nat <$> [1%Z; 2%Z])) with 2.
  cbn [length]. rewrite Nat.Div0.mod_mul. simpl.
  by rewrite Nat.div_mul.
Qed.

(** The offset of record [k * n_anchors + a]: the cell index [k] taken
    modulo and divided by the first grid dimension. *)
Lemma grid_offsets_spec (d1 d2 n_anchors : Z) :
  (0 ≤ n_anchors)%Z →
  let h := Z.to_nat d1 in
  let w := Z.to_nat d2 in
  let na := Z.to_nat n_anchors in
  ∃ cxy, grid_offsets d1 d2 n_anchors = Some cxy
    ∧ nd_shape cxy = [1; w * h * na; 2] ∧ nd_wf cxy
    ∧ ∀ k a c, k < w * h → a < na → c < 2 →
        nd_data cxy !! ((k * na + a) * 2 + c)
        = Some (if c =? 0 then Z.of_nat (k mod h) else Z.of_nat (k / h)).
Proof.
  intros Hna h w na. unfold grid_offsets, tf_meshgrid, tf_range.
  cbn [nd_data nd_shape]. rewrite !length_seqZ. fold h w.
  rewrite !nd_reshape_rows. cbn [mbind option_bind].
  assert (Hwh : prod_list [w; h] = w * h) by (unfold prod_list; simpl; lia).
  rewrite Hwh.
  set (dx := cycle w (seqZ 0 d1)). set (dy := mjoin (replicate h <$> seqZ 0 d2)).
  assert (Hdx : length dx = w * h) by (unfold dx; by rewrite cycle_length, length_seqZ).
  assert (Hdy : length dy = w * h).
  { unfold dy. rewrite (mjoin_length_uniform _ h).
    - by rewrite length_fmap, length_seqZ.
    - apply Forall_fmap, Forall_forall. intros ? _. apply length_replicate. }
  destruct (nd_concat (-1) [NDArray [w * h; 1] dx; NDArray [w * h; 1] dy])
    as [c0 |] eqn:Hc0.
  2:{ exfalso. rewrite nd_concat_cons in Hc0. cbn [nd_shape] in Hc0.
      change (norm_axis (length [w * h; 1]) (-1)) with (Some 1) in Hc0.
      cbn [mbind option_bind forallb] in Hc0.
      unfold same_but_axis in Hc0.
      rewrite !bool_decide_eq_true_2 in Hc0 by done. done. }
  assert (Hc0' := Hc0). rewrite nd_concat_cons in Hc0'. cbn [nd_shape] in Hc0'.
  apply bind_Some in Hc0' as (ax & Hax & Hc0').
  change (norm_axis (length [w * h; 1]) (-1)) with (Some 1) in Hax.
  injection Hax as <-. destruct (forallb _ _); [| done].
  apply (inj Some) in Hc0'.
  assert (Hs0 : nd_shape c0 = [w * h; 2]) by (by subst c0).
  assert (Hd0 : nd_data c0 = interleave (w * h) [(1, dx); (1, dy)]).
  { subst c0. cbn [nd_data fmap list_fmap nd_shape]. unfold prod_list. simpl.
    by rewrite !Nat.mul_1_r. }
  assert (Hparts : Forall (fun p : nat * list Z => w * h * fst p ≤ length (snd p))
                     [(1, dx); (1, dy)]).
  { repeat constructor; simpl; lia. }
  assert (Hw0 : nd_wf c0).
  { unfold nd_wf. rewrite Hd0, Hs0, interleave_length by done.
    unfold widths, prod_list. simpl. lia. }
  cbn [mbind option_bind].
  destruct (tiled_columns n_anchors (w * h) 2 c0 Hs0 Hw0 Hna)
    as (c1 & Hc1 & Hs1 & Hw1 & Hl1).
  rewrite Hc1. cbn [mbind option_bind]. fold na in Hs1, Hl1.
  unfold nd_reshape. rewrite Hs1.
  replace (prod_list [w * h; na * 2]) with (w * h * na * 2)
    by (unfold prod_list; simpl; lia).
  rewrite resolve_pairs. cbn [mbind option_bind].
  eexists. split; [done |]. cbn [nd_shape nd_data]. split; [done |]. split.
  { unfold nd_wf in *. cbn [nd_shape nd_data]. rewrite Hw1, Hs1.
    unfold prod_list. simpl. lia. }
  intros k a c Hk Ha Hc.
  replace ((k * na + a) * 2 + c) with (k * (na * 2) + (a * 2 + c)) by lia.
  rewrite Hl1, Hd0 by done.
  pose proof (interleave_chunk (w * h) k _ Hk Hparts) as Hch.
  apply (f_equal (fun l => l !! c)) in Hch.
  change (widths [(1, dx); (1, dy)]) with 2 in Hch.
  rewrite lookup_take_lt, lookup_drop in Hch by done. rewrite Hch.
  cbn [fmap list_fmap mjoin list_join fst snd]. rewrite !Nat.mul_1_r, app_nil_r.
  assert (0 < h) by nia.
  destruct c as [| [| c]]; [| | lia].
  - rewrite lookup_app_l by (rewrite length_take, length_drop; lia).
    rewrite lookup_take_lt, lookup_drop, Nat.add_0_r by lia.
    unfold dx. replace h with (length (seqZ 0 d1)) at 1 by apply length_seqZ.
    rewrite cycle_lookup_mod by (rewrite length_seqZ; fold h; lia).
    rewrite length_seqZ. fold h. rewrite lookup_seqZ_lt.
    + simpl. do 2 f_equal.
    + pose proof (Nat.mod_upper_bound k h). lia.
  - rewrite lookup_app_r by (rewrite length_take, length_drop; lia).
    rewrite length_take, length_drop.
    replace (1 - 1 `min` (length dx - k)) with 0 by lia.
    rewrite lookup_take_lt, lookup_drop, Nat.add_0_r by lia.
    unfold dy. rewrite (Nat.div_mod_eq k h) at 1.
    rewrite (Nat.mul_comm h).
    rewrite (mjoin_lookup_uniform _ h).
    + rewrite list_lookup_fmap, lookup_seqZ_lt.
      * simpl. rewrite lookup_replicate_2; [done |].
        apply Nat.mod_upper_bound. lia.
      * assert (k / h < w) by (apply Nat.Div0.div_lt_upper_bound; lia). lia.
    + apply Forall_fmap, Forall_forall. intros ? _. apply length_replicate.
    + apply Nat.mod_upper_bound. lia.
Qed.

(** ** What a head computes *)

Lemma resolve_records_ok (total : nat) (n d : Z) :
  (0 ≤ n)%Z → (0 ≤ d)%Z →
  0 < Z.to_nat n * Z.to_nat d →
  total mod (Z.to_nat n * Z.to_nat d) = 0 →
  resolve_shape total [-1; n; d]%Z
  = Some [total / (Z.to_nat n * Z.to_nat d); Z.to_nat n; Z.to_nat d].
Proof.
  intros Hn Hd Hpos Hmod. unfold resolve_shape.
  assert (filter (fun k => k ≠ (-1)%Z) [-1; n; d]%Z = [n; d]) as ->.
  { rewrite !filter_cons, filter_nil.
    repeat case_decide; try done; lia. }
  assert (filter (fun k => k = (-1)%Z) [-1; n; d]%Z = [(-1)%Z]) as ->.
  { rewrite !filter_cons, filter_nil.
    repeat case_decide; try done; lia. }
  rewrite bool_decide_eq_true_2 by (repeat constructor; lia).
  cbn [length fmap list_fmap].
  assert (Hk : prod_list [Z.to_nat n; Z.to_nat d] = Z.to_nat n * Z.to_nat d)
    by (unfold prod_list; simpl; lia).
  rewrite Hk, Hmod.
  destruct (Nat.ltb_spec 0 (Z.to_nat n * Z.to_nat d)); [| lia]. simpl.
  destruct (Z.eqb_spec n (-1)); [lia |]. destruct (Z.eqb_spec d (-1)); [lia |].
  done.
Qed.

Lemma drop_ones_suffix_3 (b n w : nat) : drop_ones [1; n; w] `suffix_of` [b; n; w].
Proof.
  destruct n as [| [| n]]; simpl.
  - by exists [b].
  - destruct w as [| [| w]]; simpl.
    + by exists [b; 1].
    + by exists [b; 1; 1].
    + by exists [b; 1].
  - by exists [b].
Qed.

Lemma drop_ones_suffix_2 (b n w : nat) : drop_ones [n; w] `suffix_of` [b; n; w].
Proof.
  destruct n as [| [| n]]; simpl.
  - by exists [b].
  - destruct w as [| [| w]]; simpl.
    + by exists [b; 1].
    + by exists [b; 1; 1].
    + by exists [b; 1].
  - by exists [b].
Qed.

Lemma drop_ones_suffix_1 (b n w : nat) : drop_ones [w] `suffix_of` [b; n; w].
Proof.
  destruct w as [| [| w]]; simpl.
  - by exists [b; n].
  - by exists [b; n; 1].
  - by exists [b; n].
Qed.

Lemma nd_broadcast_ok {A B C} (op : A → B → C) (x : ndarray A) (y : ndarray B) :
  drop_ones (nd_shape y) `suffix_of` nd_shape x →
  length (nd_shape y) ≤ length (nd_shape x) →
  nd_wf x → nd_wf y →
  ∃ z, nd_broadcast op x y = Some z
       ∧ nd_shape z = nd_shape x ∧ nd_wf z
       ∧ ∀ k a, nd_data x !! k = Some a →
           ∃ v, nd_data y !! (k mod length (nd_data y)) = Some v
                ∧ nd_data z !! k = Some (op a v).
Proof.
  intros Hsuf Hlen Hx Hy.
  destruct (nd_broadcast op x y) as [z |] eqn:Hz.
  - exists z. split; [done |]. by apply (nd_broadcast_Some op x y).
  - unfold nd_broadcast in Hz. by rewrite bool_decide_eq_true_2 in Hz.
Qed.

Lemma nd_concat_records_ok {A} (b n : nat) (xs : list (ndarray A)) (ws : list nat) :
  xs ≠ [] →
  Forall2 (fun x w => nd_shape x = [b; n; w] ∧ nd_wf x) xs ws →
  ∃ z, nd_concat (-1) xs = Some z
       ∧ nd_shape z = [b; n; sum_list ws]
       ∧ nd_data z
         = interleave (b * n)
             ((fun x => (default 0 (nd_shape x !! 2), nd_data x)) <$> xs)
       ∧ nd_wf z.
Proof.
  intros Hne Hxs. destruct (nd_concat (-1) xs) as [z |] eqn:Hz.
  - exists z. split; [done |]. by apply (nd_concat_records b n xs ws).
  - exfalso. destruct xs as [| x xs]; [done |].
    rewrite nd_concat_cons in Hz.
    assert (Hall : Forall (fun y => ∃ w', nd_shape y = [b; n; w']) (x :: xs)).
    { clear -Hxs. induction Hxs as [| x' w' xs' ws' [Hx' ?] _ IH];
        constructor; eauto. }
    assert (Hx : ∃ w, nd_shape x = [b; n; w])
      by (inversion Hall; subst; done).
    destruct Hx as [w Hx]. rewrite Hx in Hz.
    change (norm_axis (length [b; n; w]) (-1)) with (Some 2) in Hz.
    cbn [mbind option_bind] in Hz.
    assert (Hf : forallb (fun y => same_but_axis 2 [b; n; w] (nd_shape y)) (x :: xs) = true).
    { apply Is_true_true, forallb_True. eapply Forall_impl; [exact Hall |].
      intros y [w' Hy]. rewrite Hy. unfold same_but_axis.
      by rewrite bool_decide_eq_true_2. }
    by rewrite Hf in Hz.
Qed.

Section Head.
Context {R : Type} `{Numeric R} `{Kernels R}.

Lemma eval_reshape (img0 : ndarray R) (t : tensor) (target : list Z) :
  eval img0 (TReshape t target) = eval img0 t ≫= nd_reshape target.
Proof. done. Qed.

Lemma eval_centers (img0 : ndarray R) (x : tensor) (cxy : ndarray Z) (s1 s2 : Z) :
  eval img0 (centers_of x cxy s1 s2)
  = (vx ← eval img0 x;
     sl ← nd_slice2 0 2 vx;
     ad ← nd_broadcast radd (nd_map rsigmoid sl) (nd_map rofZ cxy);
     nd_broadcast rmul ad (nd_map rofZ (NDArray [2%nat] [s1; s2]))).
Proof.
  unfold centers_of. cbn [eval]. destruct (eval img0 x) as [vx |]; [| done].
  simpl. destruct (nd_slice2 0 2 vx); [| done]. simpl.
  by destruct (nd_broadcast radd _ _).
Qed.

Lemma eval_sizes (img0 : ndarray R) (x : tensor) (anchors : ndarray Z) :
  eval img0 (sizes_of x anchors)
  = (vx ← eval img0 x;
     sl ← nd_slice2 2 4 vx;
     nd_broadcast rmul (nd_map rexp sl) (nd_map rofZ anchors)).
Proof.
  unfold sizes_of. cbn [eval]. destruct (eval img0 x) as [vx |]; [| done].
  simpl. by destruct (nd_slice2 2 4 vx).
Qed.

Lemma eval_objectness (img0 : ndarray R) (x : tensor) :
  eval img0 (objectness_of x)
  = (vx ← eval img0 x; sl ← nd_slice2 4 5 vx; Some (nd_map rsigmoid sl)).
Proof.
  unfold objectness_of. cbn [eval]. destruct (eval img0 x) as [vx |]; [| done].
  simpl. by destruct (nd_slice2 4 5 vx).
Qed.

Lemma eval_classes (img0 : ndarray R) (x : tensor) (nc : Z) :
  eval img0 (classes_of x nc)
  = (vx ← eval img0 x; sl ← nd_slice2 5 (nc + 5) vx;
     Some (nd_map rsigmoid sl)).
Proof.
  unfold classes_of. cbn [eval]. destruct (eval img0 x) as [vx |]; [| done].
  simpl. by destruct (nd_slice2 5 (nc + 5) vx).
Qed.

Lemma eval_concat4 (img0 : ndarray R) (a b c d : tensor) (axis : Z)
    (va vb vc vd : ndarray R) :
  eval img0 a = Some va → eval img0 b = Some vb →
  eval img0 c = Some vc → eval img0 d = Some vd →
  eval img0 (TConcat [a; b; c; d] axis) = nd_concat axis [va; vb; vc; vd].
Proof. intros Ha Hb Hc Hd. cbn [eval]. by rewrite Ha, Hb, Hc, Hd. Qed.

Lemma eval_concat2 (img0 : ndarray R) (a b : tensor) (axis : Z)
    (va vb : ndarray R) :
  eval img0 a = Some va → eval img0 b = Some vb →
  eval img0 (TConcat [a; b] axis) = nd_concat axis [va; vb].
Proof. intros Ha Hb. cbn [eval]. by rewrite Ha, Hb. Qed.

End Head.

Lemma rmapM_length {A B} (f : A → result B) (l : list A) (l' : list B) :
  rmapM f l = Ok l' → length l' = length l.
Proof.
  revert l'. induction l as [| a l IH]; intros l'; simpl.
  - by intros [= <-].
  - intros Hl. ok_inv Hl. injection Hl as <-. simpl. f_equal. by apply IH.
Qed.

Lemma split_on_length (sep : ascii) (s : string) :
  0 < length (split_on sep s).
Proof.
  induction s as [| c s IH]; simpl; [lia |].
  destruct (Ascii.eqb c sep); simpl; [lia |].
  destruct (split_on sep s); simpl in *; lia.
Qed.

(** The anchors of a head are as many as the entries of its mask. *)
Lemma yolo_anchors_length (b : block) (anchors : list (Z * Z)) :
  yolo_anchors b = Ok anchors →
  ∃ mask, b !! "mask" = Some mask
          ∧ length anchors = length (split_on "," mask)
          ∧ 0 < length anchors.
Proof.
  unfold yolo_anchors. intros Hy.
  apply bind_Ok in Hy as (mask & Hm & Hy). apply dict_get_Ok in Hm.
  apply bind_Ok in Hy as (ms & Hms & Hy).
  apply bind_Ok in Hy as (an & _ & Hy).
  apply bind_Ok in Hy as (ans & _ & Hy).
  apply bind_Ok in Hy as (prs & _ & Hy).
  apply rmapM_length in Hy, Hms.
  exists mask. split; [done |]. pose proof (split_on_length "," mask).
  split; [congruence | lia].
Qed.

Section HeadValue.
Context {R : Type} `{Numeric R} `{Kernels R}.

Lemma head_value (img : tensor) (nc : Z) (b : block) (t x p : tensor)
    (anchors : list (Z * Z)) (d1 d2 ih iw : Z) (img0 vt : ndarray R) :
  (0 ≤ nc)%Z →
  yolo_head img nc b t = Ok (x, p) →
  yolo_anchors b = Ok anchors →
  get_shape t !! 1 = Some (Some d1) → get_shape t !! 2 = Some (Some d2) →
  (0 < d1)%Z → (0 < d2)%Z →
  get_shape img !! 1 = Some (Some ih) → get_shape img !! 2 = Some (Some iw) →
  eval img0 t = Some vt → nd_wf vt →
  let na := length anchors in
  let h := Z.to_nat d1 in
  let n := na * h * Z.to_nat d2 in
  let d := Z.to_nat (5 + nc) in
  length (nd_data vt) mod (n * d) = 0 →
  ∃ v, eval img0 p = Some v
    ∧ nd_shape v = [length (nd_data vt) / (n * d); n; d] ∧ nd_wf v
    ∧ ∀ j c a, j < length (nd_data vt) / (n * d) * n → c < 2 →
        nd_data vt !! (j * d + c) = Some a →
        nd_data v !! (j * d + c)
        = Some (rmul (radd (rsigmoid a)
                           (rofZ (grid_coordinate h na (j mod n) c)))
                     (rofZ (if c =? 0 then (ih / d1)%Z else (iw / d2)%Z))).
Proof.
  intros Hnc Hhead Han Hd1 Hd2 Hp1 Hp2 Hih Hiw Ht Hwt na h n d Hmod.
  apply yolo_head_Ok in Hhead
    as (an' & d1' & d2' & ih' & iw' & tiled & cxy & Han' & Hd1' & Hd2'
        & Hih' & Hiw' & _ & _ & Htile & Hcxy & -> & -> & _ & _).
  rewrite Han in Han'. injection Han' as <-.
  rewrite Hd1 in Hd1'. injection Hd1' as <-.
  rewrite Hd2 in Hd2'. injection Hd2' as <-.
  rewrite Hih in Hih'. injection Hih' as <-.
  rewrite Hiw in Hiw'. injection Hiw' as <-.
  apply yolo_anchors_length in Han as (_ & _ & _ & Hna). fold na in Hna.
  set (w := Z.to_nat d2) in *.
  set (B := length (nd_data vt) / (n * d)).
  assert (Hn : Z.to_nat (Z.of_nat na * d1 * d2) = n).
  { unfold n, h, w. rewrite !Z2Nat.inj_mul, Nat2Z.id by lia. done. }
  assert (Hd : 5 ≤ d) by (unfold d; lia).
  assert (Hnpos : 0 < n) by (unfold n, h, w; nia).
  (* the reshaped input *)
  set (vx := NDArray [B; n; d] (nd_data vt)).
  assert (Hx : eval img0 (TReshape t [-1; Z.of_nat na * d1 * d2; 5 + nc]%Z)
               = Some vx).
  { rewrite eval_reshape, Ht. cbn [mbind option_bind]. unfold nd_reshape.
    unfold nd_wf in Hwt. rewrite <- Hwt.
    rewrite resolve_records_ok; rewrite ?Hn; fold d; try done; nia. }
  assert (Hlen : length (nd_data vt) = B * (n * d)).
  { unfold B. rewrite (Nat.div_mod_eq (length (nd_data vt)) (n * d)) at 1.
    rewrite Hmod. lia. }
  assert (Hwx : nd_wf vx).
  { unfold nd_wf, vx. cbn [nd_shape nd_data]. rewrite prod_list_3. lia. }
  (* the four slices *)
  destruct (nd_slice2_records 0 2 B n d vx eq_refl Hwx) as (s0 & Hs0 & Hs0s & Hs0w & Hs0l);
    [lia | lia |].
  destruct (nd_slice2_records 2 4 B n d vx eq_refl Hwx) as (s1 & Hs1 & Hs1s & Hs1w & _);
    [lia | lia |].
  destruct (nd_slice2_records 4 5 B n d vx eq_refl Hwx) as (s2 & Hs2 & Hs2s & Hs2w & _);
    [lia | lia |].
  destruct (nd_slice2_records 5 (nc + 5) B n d vx eq_refl Hwx) as (s3 & Hs3 & Hs3s & Hs3w & _);
    [lia | unfold d; lia |].
  change (Z.to_nat (2 - 0)) with 2 in *. change (Z.to_nat (4 - 2)) with 2 in *.
  change (Z.to_nat (5 - 4)) with 1 in *.
  replace (Z.to_nat (nc + 5 - 5)) with (Z.to_nat nc) in * by lia.
  (* the constants *)
  destruct (grid_offsets_spec d1 d2 (Z.of_nat na) ltac:(lia))
    as (cxy' & Hcxy' & Hcs & Hcw & Hcl).
  assert (Some cxy' = Some cxy) as [= ->] by (by rewrite <- Hcxy, <- Hcxy').
  rewrite Nat2Z.id in Hcs, Hcl. fold h w in Hcs, Hcl.
  apply tiled_anchors in Htile as [Hts Htw]. fold na in Hts.
  (* the centers *)
  destruct (nd_broadcast_ok radd (nd_map rsigmoid s0) (nd_map rofZ cxy))
    as (c1 & Hc1 & Hc1s & Hc1w & Hc1l).
  { cbn [nd_map nd_shape]. rewrite Hcs, Hs0s.
    replace (w * h * na) with n by (unfold n; lia). apply drop_ones_suffix_3. }
  { cbn [nd_map nd_shape]. rewrite Hcs, Hs0s. done. }
  { by apply nd_map_wf. }
  { by apply nd_map_wf. }
  destruct (nd_broadcast_ok rmul c1 (nd_map rofZ (NDArray [2] [ih / d1; iw / d2]%Z)))
    as (c2 & Hc2 & Hc2s & Hc2w & Hc2l).
  { cbn [nd_map nd_shape] in *. rewrite Hc1s, Hs0s. apply drop_ones_suffix_1. }
  { cbn [nd_map nd_shape] in *. rewrite Hc1s, Hs0s. simpl. lia. }
  { done. }
  { done. }
  (* the sizes *)
  destruct (nd_broadcast_ok rmul (nd_map rexp s1) (nd_map rofZ tiled))
    as (z1 & Hz1 & Hz1s & Hz1w & _).
  { cbn [nd_map nd_shape]. rewrite Hts, Hs1s.
    replace (Z.to_nat (d1 * d2) * na) with n
      by (unfold n, h, w; rewrite Z2Nat.inj_mul by lia; lia).
    apply drop_ones_suffix_2. }
  { cbn [nd_map nd_shape]. rewrite Hts, Hs1s. simpl. lia. }
  { by apply nd_map_wf. }
  { by apply nd_map_wf. }
  (* the prediction *)
  destruct (nd_concat_records_ok B n
              [c2; z1; nd_map rsigmoid s2; nd_map rsigmoid s3]
              [2; 2; 1; Z.to_nat nc])
    as (v & Hv & Hvs & Hvd & Hvw); [done | |].
  { cbn [nd_map nd_shape] in *.
    repeat (constructor; [split |]); try (by constructor);
      cbn [nd_map nd_shape]; try (by apply nd_map_wf); try done; congruence. }
  assert (Hsum : sum_list [2; 2; 1; Z.to_nat nc] = d) by (unfold d; simpl; lia).
  rewrite Hsum in Hvs.
  exists v. split; [| split; [done | split; [done |]]].
  { fold na. erewrite eval_concat4; [exact Hv | | | |].
    - rewrite eval_centers, Hx. cbn [mbind option_bind].
      rewrite Hs0. cbn [mbind option_bind]. rewrite Hc1. exact Hc2.
    - rewrite eval_sizes, Hx. cbn [mbind option_bind].
      rewrite Hs1. exact Hz1.
    - rewrite eval_objectness, Hx. cbn [mbind option_bind]. by rewrite Hs2.
    - rewrite eval_classes, Hx. cbn [mbind option_bind]. by rewrite Hs3. }
  intros j c a Hj Hc Ha. rewrite Hvd.
  cbn [fmap list_fmap nd_map nd_shape nd_data] in *.
  rewrite Hc2s, Hc1s, Hs0s, Hz1s, Hs1s, Hs2s, Hs3s. cbn [lookup list_lookup default].
  unfold id.
  set (parts := [(2, nd_data c2); (2, nd_data z1);
                 (1, rsigmoid <$> nd_data s2);
                 (Z.to_nat nc, rsigmoid <$> nd_data s3)]).
  assert (Hw : widths parts = d) by (unfold parts, widths, d; simpl; lia).
  rewrite <- Hw at 1. unfold parts.
  rewrite interleave_lookup_first; [| done | done |].
  2:{ unfold nd_wf in *. cbn [nd_shape nd_data] in *.
      rewrite Hc2s, Hc1s, Hs0s, prod_list_3 in Hc2w.
      rewrite Hz1s, Hs1s, prod_list_3 in Hz1w.
      rewrite Hs2s, prod_list_3 in Hs2w. rewrite Hs3s, prod_list_3 in Hs3w.
      repeat (constructor; [cbn [fst snd]; rewrite ?length_fmap; lia |]).
      constructor. }
  (* through the two broadcasts *)
  assert (Hsl : nd_data s0 !! (j * 2 + c) = Some a).
  { rewrite Hs0l by done. cbn [nd_data vx]. rewrite <- Ha. f_equal. lia. }
  destruct (Hc1l (j * 2 + c) (rsigmoid a)) as (g & Hg & Hc1v).
  { by rewrite list_lookup_fmap, Hsl. }
  destruct (Hc2l (j * 2 + c) _ Hc1v) as (s & Hs & Hc2v).
  rewrite Hc2v. do 3 f_equal.
  - (* the grid coordinate *)
    rewrite length_fmap in Hg. unfold nd_wf in Hcw. rewrite Hcw, Hcs in Hg.
    rewrite prod_list_3 in Hg. rewrite list_lookup_fmap in Hg.
    replace ((j * 2 + c) mod (1 * (w * h * na) * 2))
      with ((((j mod n) / na) * na + (j mod n) mod na) * 2 + c) in Hg.
    2:{ replace (1 * (w * h * na) * 2) with (n * 2) by (unfold n; lia).
        rewrite <- (Nat.div_mod_eq (j mod n) na) || rewrite (Nat.mul_comm _ na), <- Nat.div_mod_eq.
        rewrite (Nat.div_mod_eq j n) at 2.
        replace ((n * (j / n) + j mod n) * 2 + c)
          with (j mod n * 2 + c + (j / n) * (n * 2)) by lia.
        rewrite Nat.Div0.mod_add. symmetry. apply Nat.mod_small.
        pose proof (Nat.mod_upper_bound j n). lia. }
    rewrite Hcl in Hg.
    + simpl in Hg. injection Hg as <-. unfold grid_coordinate. done.
    + assert (j mod n < n) by (apply Nat.mod_upper_bound; lia).
      apply Nat.Div0.div_lt_upper_bound. unfold n in *. lia.
    + apply Nat.mod_upper_bound. lia.
    + done.
  - (* the stride *)
    cbn [nd_data nd_map fmap list_fmap length] in Hs.
    replace ((j * 2 + c) mod 2) with c in Hs.
    2:{ rewrite Nat.add_comm, Nat.Div0.mod_add. symmetry. by apply Nat.mod_small. }
    destruct c as [| [| c]]; [| | lia]; simpl in Hs; by injection Hs as <-.
Qed.

End HeadValue.

(** ** The static shape of a head *)

Local Open Scope Z_scope.

Lemma reshape_shape_records (s sx : sshape) (n d : Z) :
  0 ≤ n → 0 ≤ d →
  reshape_shape s [-1; n; d] = Some sx →
  ∃ bd, sx = [bd; Some n; Some d].
Proof.
  intros Hn Hd. unfold reshape_shape. case_bool_decide; [| done].
  destruct (all_known s) as [dims |].
  - case_bool_decide; [| done].
    destruct (resolve_shape _ _) as [r |] eqn:Hr; [| done].
    apply resolve_records in Hr as (b & -> & _); [| done | done].
    intros [= <-]. exists (Some (Z.of_nat b)). cbn [fmap list_fmap].
    by rewrite !Z2Nat.id by lia.
  - intros [= <-]. exists None. cbn [fmap list_fmap].
    destruct (Z.eqb_spec n (-1)); [lia |]. destruct (Z.eqb_spec d (-1)); [lia |].
    done.
Qed.

Lemma slice_dim_within (lo hi d : Z) :
  0 ≤ lo ≤ hi → hi ≤ d → slice_dim lo hi (Some d) = Some (hi - lo).
Proof.
  intros Hlo Hhi. unfold slice_dim, slice_bounds. simpl.
  destruct (Z.ltb_spec lo 0); [lia |]. destruct (Z.ltb_spec hi 0); [lia |].
  f_equal. lia.
Qed.

Lemma bcast_dim_same (a : option Z) : bcast_dim a a = Some a.
Proof. destruct a as [x |]; simpl; [by rewrite Z.eqb_refl | done]. Qed.

Lemma bcast_dim_one (a : option Z) : bcast_dim a (Some 1) = Some a.
Proof.
  destruct a as [x |]; simpl; [| done].
  destruct (Z.eqb_spec x 1); [by subst | done].
Qed.

Lemma bcast_const_3 (bd : option Z) (n w : Z) :
  bcast_shape [bd; Some n; Some w] [Some 1; Some n; Some w]
  = Some [bd; Some n; Some w].
Proof.
  unfold bcast_shape. cbn [reverse rev_append bcast_rev].
  rewrite !bcast_dim_same, bcast_dim_one. done.
Qed.

Lemma bcast_const_2 (bd : option Z) (n w : Z) :
  bcast_shape [bd; Some n; Some w] [Some n; Some w]
  = Some [bd; Some n; Some w].
Proof.
  unfold bcast_shape. cbn [reverse rev_append bcast_rev].
  rewrite !bcast_dim_same. done.
Qed.

Lemma bcast_const_1 (bd : option Z) (n w : Z) :
  bcast_shape [bd; Some n; Some w] [Some w] = Some [bd; Some n; Some w].
Proof.
  unfold bcast_shape. cbn [reverse rev_append bcast_rev].
  rewrite !bcast_dim_same. done.
Qed.

Lemma dim_compat_same (a : option Z) : dim_compat a a = true.
Proof. destruct a; simpl; [apply Z.eqb_refl | done]. Qed.

Lemma concat_shape2_records (bd : option Z) (n w1 w2 : Z) :
  concat_shape2 2 [bd; Some n; Some w1] [bd; Some n; Some w2]
  = Some [bd; Some n; Some (w1 + w2)].
Proof.
  unfold concat_shape2. cbn [length take drop app zip zip_with forallb fst snd].
  rewrite bool_decide_eq_true_2 by done.
  rewrite dim_compat_same. simpl. by rewrite Z.eqb_refl.
Qed.

Lemma shape_of_centers (x : tensor) (cxy : ndarray Z) (s1 s2 : Z) (sx : sshape) :
  shape_of (TSlice2 x 0 2) = Some sx →
  shape_of (centers_of x cxy s1 s2)
  = (s ← bcast_shape sx ((fun d => Some (Z.of_nat d)) <$> nd_shape cxy);
     bcast_shape s [Some 2]).
Proof. intros Hs. unfold centers_of. cbn [shape_of]. cbn [shape_of] in Hs. by rewrite Hs. Qed.

Lemma shape_of_sizes (x : tensor) (anchors : ndarray Z) (sx : sshape) :
  shape_of (TSlice2 x 2 4) = Some sx →
  shape_of (sizes_of x anchors)
  = bcast_shape sx ((fun d => Some (Z.of_nat d)) <$> nd_shape anchors).
Proof. intros Hs. unfold sizes_of. cbn [shape_of]. cbn [shape_of] in Hs. by rewrite Hs. Qed.

Lemma shape_of_concat4 (a b c d : tensor) (sa sb sc sd : sshape) (axis : Z) :
  shape_of a = Some sa → shape_of b = Some sb →
  shape_of c = Some sc → shape_of d = Some sd →
  shape_of (TConcat [a; b; c; d] axis) = concat_shape axis [sa; sb; sc; sd].
Proof. intros Ha Hb Hc Hd. cbn [shape_of]. by rewrite Ha, Hb, Hc, Hd. Qed.

Lemma shape_of_concat2 (a b : tensor) (sa sb : sshape) (axis : Z) :
  shape_of a = Some sa → shape_of b = Some sb →
  shape_of (TConcat [a; b] axis) = concat_shape axis [sa; sb].
Proof. intros Ha Hb. cbn [shape_of]. by rewrite Ha, Hb. Qed.

(** The static shapes of the four parts and of the prediction. *)
Lemma head_static_shape (img : tensor) (nc : Z) (b : block) (t x p : tensor)
    (anchors : list (Z * Z)) (d1 d2 : Z) :
  0 ≤ nc →
  yolo_head img nc b t = Ok (x, p) →
  yolo_anchors b = Ok anchors →
  get_shape t !! 1%nat = Some (Some d1) →
  get_shape t !! 2%nat = Some (Some d2) →
  0 < d1 → 0 < d2 →
  let n := Z.of_nat (length anchors) * d1 * d2 in
  ∃ bd centers sizes objectness classes,
    p = TConcat [centers; sizes; objectness; classes] (-1)
    ∧ shape_of x = Some [bd; Some n; Some (5 + nc)]
    ∧ shape_of centers = Some [bd; Some n; Some 2]
    ∧ shape_of sizes = Some [bd; Some n; Some 2]
    ∧ shape_of objectness = Some [bd; Some n; Some 1]
    ∧ shape_of classes = Some [bd; Some n; Some nc]
    ∧ shape_of p = Some [bd; Some n; Some (5 + nc)].
Proof.
  intros Hnc Hhead Han Hd1 Hd2 Hp1 Hp2 n.
  apply yolo_head_Ok in Hhead
    as (an' & d1' & d2' & ih' & iw' & tiled & cxy & Han' & Hd1' & Hd2'
        & _ & _ & _ & _ & Htile & Hcxy & -> & -> & [sx Hsx] & _).
  rewrite Han in Han'. injection Han' as <-.
  rewrite Hd1 in Hd1'. injection Hd1' as <-.
  rewrite Hd2 in Hd2'. injection Hd2' as <-.
  fold n in Hsx |- *.
  set (x := TReshape t [-1; n; 5 + nc]) in *.
  assert (Hn : 0 ≤ n) by (unfold n; nia).
  assert (Hx : ∃ bd, shape_of x = Some [bd; Some n; Some (5 + nc)]).
  { rewrite Hsx. unfold x in Hsx. cbn [shape_of] in Hsx.
    destruct (shape_of t) as [s |]; [| done]. cbn [mbind option_bind] in Hsx.
    apply reshape_shape_records in Hsx as [bd ->]; [eauto | done | lia]. }
  destruct Hx as [bd Hx].
  assert (Hsl : ∀ lo hi, 0 ≤ lo ≤ hi → hi ≤ 5 + nc →
            shape_of (TSlice2 x lo hi) = Some [bd; Some n; Some (hi - lo)]).
  { intros lo hi Hlo Hhi. cbn [shape_of]. rewrite Hx. cbn [mbind option_bind].
    by rewrite slice_dim_within. }
  destruct (grid_offsets_spec d1 d2 (Z.of_nat (length anchors)) ltac:(lia))
    as (cxy' & Hcxy' & Hcs & _).
  rewrite Hcxy in Hcxy'. injection Hcxy' as <-.
  apply tiled_anchors in Htile as [Hts _].
  assert (Hc : shape_of (centers_of x cxy (ih' / d1) (iw' / d2))
               = Some [bd; Some n; Some 2]).
  { rewrite (shape_of_centers _ _ _ _ _ (Hsl 0 2 ltac:(lia) ltac:(lia))).
    rewrite Hcs. cbn [fmap list_fmap].
    replace (Z.of_nat (Z.to_nat d2 * Z.to_nat d1
                       * Z.to_nat (Z.of_nat (length anchors)))) with n
      by (unfold n; lia).
    change (2 - 0) with 2. change (Z.of_nat 1) with 1. change (Z.of_nat 2) with 2.
    rewrite bcast_const_3. cbn [mbind option_bind]. apply bcast_const_1. }
  assert (Hs : shape_of (sizes_of x tiled) = Some [bd; Some n; Some 2]).
  { rewrite (shape_of_sizes _ _ _ (Hsl 2 4 ltac:(lia) ltac:(lia))).
    rewrite Hts. cbn [fmap list_fmap].
    replace (Z.of_nat (Z.to_nat (d1 * d2) * length anchors)) with n
      by (unfold n; lia).
    change (4 - 2) with 2. change (Z.of_nat 2) with 2. apply bcast_const_2. }
  assert (Ho : shape_of (objectness_of x) = Some [bd; Some n; Some 1]).
  { unfold objectness_of. change (shape_of (TSigmoid ?u)) with (shape_of u).
    by rewrite Hsl by lia. }
  assert (Hk : shape_of (classes_of x nc) = Some [bd; Some n; Some nc]).
  { unfold classes_of. change (shape_of (TSigmoid ?u)) with (shape_of u).
    rewrite Hsl by lia. by replace (nc + 5 - 5) with nc by lia. }
  eexists bd, _, _, _, _. split; [done |]. repeat split; try done.
  rewrite (shape_of_concat4 _ _ _ _ _ _ _ _ _ Hc Hs Ho Hk).
  unfold concat_shape. change (norm_axis (length [bd; Some n; Some 2]) (-1))
    with (Some 2%nat).
  cbn [mbind option_bind foldl]. rewrite concat_shape2_records.
  cbn [mbind option_bind]. rewrite concat_shape2_records.
  cbn [mbind option_bind]. rewrite concat_shape2_records.
  by replace (2 + 2 + 1 + nc) with (5 + nc) by lia.
Qed.

(** ** The merged prediction *)

Lemma has_type_true (b : block) (ty : string) :
  has_type b ty = true ↔ b !! "type" = Some ty.
Proof. unfold has_type. apply bool_decide_eq_true. Qed.

Lemma dispatch_yolo (img : tensor) (nc : Z) (st : state) (i : Z) (b : block) :
  has_type b "yolo" = true →
  dispatch img nc st i b = yolo_block img nc st b.
Proof.
  intros Hty%has_type_true. by rewrite (dispatch_type _ _ _ _ _ _ Hty).
Qed.

Lemma dispatch_pred_kept (img : tensor) (nc : Z) (st st' : state) (i : Z) (b : block) :
  has_type b "yolo" = false → dispatch img nc st i b = Ok st' →
  out_pred st' = out_pred st ∧ scale st' = scale st.
Proof.
  intros Hy H. unfold dispatch in H. ok_inv H. apply dict_get_Ok in E.
  rewrite (has_type_false _ _ _ Hy E) in H.
  repeat match type of H with
         | (if ?c then _ else _) = _ => destruct c
         end.
  - unfold conv_block in H. ok_inv H. by injection H as <-.
  - unfold upsample_block in H. ok_inv H. by injection H as <-.
  - unfold route_block in H. ok_inv H.
    destruct (1 <? _)%nat; ok_inv H; by injection H as <-.
  - unfold shortcut_block in H. ok_inv H. by injection H as <-.
  - by injection H as <-.
Qed.

Lemma yolo_block_Ok (img : tensor) (nc : Z) (st st' : state) (b : block) :
  pred_ok st → yolo_block img nc st b = Ok st' →
  ∃ x p, yolo_head img nc b (inputs st) = Ok (x, p)
         ∧ out_pred st' = merge_heads (out_pred st) [p]
         ∧ pred_ok st'.
Proof.
  intros (Hz & Hnz & Hsh) H. unfold yolo_block in H.
  apply bind_Ok in H as ([x p] & Hh & H). exists x, p. split; [done |].
  assert (Hp : is_Some (shape_of p)).
  { apply yolo_head_Ok in Hh
      as (? & ? & ? & ? & ? & ? & ? & _ & _ & _ & _ & _ & _ & _ & _ & _
          & _ & _ & _ & Hp).
    done. }
  destruct (Z.eqb_spec (scale st) 0) as [Hs | Hs]; simpl in H.
  - injection H as <-. simpl. rewrite (Hz Hs). split; [done |].
    repeat split; simpl; try done; eauto.
    intros t [= <-]. done.
  - apply bind_Ok in H as (acc & Hacc & H). apply of_option_Ok in Hacc.
    apply bind_Ok in H as (q & Hq & H). apply lib_Ok in Hq as [-> Hq].
    injection H as <-. simpl. rewrite Hacc. split; [done |].
    repeat split; simpl; try done; eauto.
    intros t [= <-]. done.
Qed.

Lemma merge_heads_app (acc : option tensor) (ps qs : list tensor) :
  merge_heads acc (ps ++ qs) = merge_heads (merge_heads acc ps) qs.
Proof. apply foldl_app. Qed.

Lemma walk_heads (img : tensor) (nc : Z) (bs : list block) (st st' : state) (i : Z) :
  pred_ok st → walk img nc st i bs = Ok st' →
  ∃ ps, head_predictions img nc st i bs = Ok ps
        ∧ length ps = length (filter (fun b => has_type b "yolo" = true) bs)
        ∧ out_pred st' = merge_heads (out_pred st) ps
        ∧ pred_ok st'.
Proof.
  revert st i. induction bs as [| b bs IH]; intros st i Hok; simpl.
  - intros [= <-]. by exists [].
  - intros Hw. apply bind_Ok in Hw as (st1 & Hstep & Hw). rewrite Hstep. simpl.
    apply step_Ok in Hstep as (st2 & Hd & ->).
    destruct (has_type b "yolo") eqn:Hy.
    + rewrite dispatch_yolo in Hd by done.
      apply yolo_block_Ok in Hd as (x & p & Hh & Hm & Hok2); [| done].
      destruct (IH (record_layer st2 i) (i + 1)%Z Hok2 Hw) as (ps & Hps & Hl & Hm' & Hok').
      rewrite Hps, Hh. simpl. exists (p :: ps). split; [done |].
      rewrite filter_cons_True by done. simpl. split; [by rewrite Hl |].
      split; [| done]. rewrite Hm'. simpl. by rewrite Hm.
    + apply dispatch_pred_kept in Hd as [Hp Hs]; [| done].
      assert (Hok2 : pred_ok (record_layer st2 i)).
      { destruct Hok as (Hz & Hnz & Hsh). unfold pred_ok. simpl.
        rewrite Hp, Hs. done. }
      destruct (IH (record_layer st2 i) (i + 1)%Z Hok2 Hw) as (ps & Hps & Hl & Hm' & Hok').
      rewrite Hps. simpl. exists ps. split; [done |].
      rewrite filter_cons_False by congruence. split; [done |]. split; [| done].
      rewrite Hm'. simpl. by rewrite Hp.
Qed.

Lemma run_heads_merged (img : tensor) (nc : Z) (bs : list block) (st : state) :
  run img nc bs = Ok st →
  ∃ ps, run_heads img nc bs = Ok ps
        ∧ length ps = length (filter (fun b => has_type b "yolo" = true) bs)
        ∧ out_pred st = merge_heads None ps
        ∧ ∀ t, out_pred st = Some t → is_Some (shape_of t).
Proof.
  unfold run, run_heads. intros Hr. apply bind_Ok in Hr as (st0 & H0 & Hw).
  rewrite H0. simpl.
  assert (Hok : pred_ok st0 ∧ out_pred st0 = None).
  { unfold init_state in H0. ok_inv H0. injection H0 as <-.
    unfold pred_ok. simpl. repeat split; done. }
  destruct Hok as [Hok Hn].
  destruct (walk_heads _ _ _ _ _ _ Hok Hw) as (ps & Hps & Hl & Hm & Hok').
  exists ps. rewrite Hn in Hm. repeat split; try done. apply Hok'.
Qed.

Local Open Scope nat_scope.

(** Concatenating two batches of records along the record axis. *)
Lemma nd_concat_batches {A} (bsz n1 n2 d : nat) (x y : ndarray A) :
  nd_shape x = [bsz; n1; d] → nd_shape y = [bsz; n2; d] →
  nd_wf x → nd_wf y →
  ∃ z, nd_concat 1 [x; y] = Some z
       ∧ nd_shape z = [bsz; n1 + n2; d] ∧ nd_wf z
       ∧ ∀ i, i < bsz → batch_block z i = batch_block x i ++ batch_block y i.
Proof.
  intros Hx Hy Hwx Hwy. rewrite nd_concat_cons, Hx.
  change (norm_axis (length [bsz; n1; d]) 1) with (Some 1).
  cbn [mbind option_bind forallb]. rewrite Hx, Hy. unfold same_but_axis.
  rewrite !bool_decide_eq_true_2 by done. cbn [andb].
  eexists. split; [done |].
  cbn [nd_shape nd_data fmap list_fmap take drop app lookup list_lookup].
  rewrite Hx, Hy. cbn [take drop lookup list_lookup default sum_list sum_list_with].
  unfold id.
  replace (prod_list [bsz]) with bsz by (unfold prod_list; simpl; lia).
  replace (prod_list [n1; d]) with (n1 * d) by (unfold prod_list; simpl; lia).
  replace (prod_list [n2; d]) with (n2 * d) by (unfold prod_list; simpl; lia).
  replace (n1 + (n2 + 0)) with (n1 + n2) by lia.
  unfold nd_wf in *. rewrite Hx, prod_list_3 in Hwx. rewrite Hy, prod_list_3 in Hwy.
  assert (Hparts : Forall (fun p : nat * list A => bsz * fst p ≤ length (snd p))
                     [(n1 * d, nd_data x); (n2 * d, nd_data y)]).
  { repeat (constructor; [simpl; lia |]). constructor. }
  assert (Hw : widths [(n1 * d, nd_data x); (n2 * d, nd_data y)] = (n1 + n2) * d)
    by (unfold widths; simpl; lia).
  split; [done |]. split.
  - cbn [nd_shape nd_data]. rewrite interleave_length, Hw, prod_list_3 by done. lia.
  - intros i Hi. unfold batch_block. cbn [nd_shape nd_data]. rewrite Hx, Hy.
    rewrite <- Hw, interleave_chunk by done.
    cbn [fmap list_fmap mjoin list_join fst snd]. by rewrite app_nil_r.
Qed.

Lemma concat_shape2_batches (bd1 bd2 : option Z) (n1 n2 d1 d2 : Z) (s : sshape) :
  concat_shape2 1 [bd1; Some n1; Some d1] [bd2; Some n2; Some d2] = Some s →
  s = [bd1; Some (n1 + n2)%Z; Some d1].
Proof.
  unfold concat_shape2. destruct (_ && _); [| done].
  cbn [lookup list_lookup mbind option_bind take drop app dim_add].
  by intros [= <-].
Qed.

Lemma shape_of_merged2 (a b : tensor) (bd1 bd2 : option Z) (n1 n2 d1 d2 : Z) :
  shape_of a = Some [bd1; Some n1; Some d1] →
  shape_of b = Some [bd2; Some n2; Some d2] →
  is_Some (shape_of (TConcat [a; b] 1)) →
  shape_of (TConcat [a; b] 1) = Some [bd1; Some (n1 + n2)%Z; Some d1].
Proof.
  intros Ha Hb [s Hs]. rewrite Hs. f_equal.
  rewrite (shape_of_concat2 _ _ _ _ _ Ha Hb) in Hs. unfold concat_shape in Hs.
  change (norm_axis (length [bd1; Some n1; Some d1]) 1) with (Some 1) in Hs.
  cbn [mbind option_bind foldl] in Hs. by apply concat_shape2_batches in Hs.
Qed.

Lemma is_Some_shape_concat_l (a b : tensor) (axis : Z) :
  is_Some (shape_of (TConcat [a; b] axis)) → is_Some (shape_of a).
Proof.
  intros [s Hs]. cbn [shape_of] in Hs. destruct (shape_of a); [eauto | done].
Qed.

Lemma take2_lookup {A} (l : list A) (i : nat) (a b : A) :
  l !! i = Some a → l !! (i + 1) = Some b → take 2 (drop i l) = [a; b].
Proof.
  intros Ha Hb.
  assert (H0 : drop i l !! 0 = Some a) by (by rewrite lookup_drop, Nat.add_0_r).
  assert (H1 : drop i l !! 1 = Some b) by (by rewrite lookup_drop).
  destruct (drop i l) as [| x [| y r]]; by simplify_eq/=.
Qed.

(** The shape of a head's prediction on a grid of [d1] by [d2] cells,
    for a mask of [a] anchors: [a * d1 * d2] records to an entry of the
    batch, each of [5 + num_classes] channels. *)
Lemma head_shapes
    (img : tensor) (nc : Z) (b : block) (t x p : tensor)
    (anchors : list (Z * Z)) (d1 d2 : Z) :
  (0 ≤ nc)%Z →
  yolo_head img nc b t = Ok (x, p) →
  yolo_anchors b = Ok anchors →
  get_shape t !! 1 = Some (Some d1) →
  get_shape t !! 2 = Some (Some d2) →
  (0 < d1)%Z → (0 < d2)%Z →
  let a := length anchors in
  let n := a * Z.to_nat d1 * Z.to_nat d2 in
  let d := Z.to_nat (5 + nc) in
  (∃ mask, b !! "mask" = Some mask ∧ a = length (split_on "," mask))
  ∧ (∃ bd centers sizes objectness classes,
       p = TConcat [centers; sizes; objectness; classes] (-1)
       ∧ shape_of centers = Some [bd; Some (Z.of_nat n); Some 2%Z]
       ∧ shape_of sizes = Some [bd; Some (Z.of_nat n); Some 2%Z]
       ∧ shape_of objectness = Some [bd; Some (Z.of_nat n); Some 1%Z]
       ∧ shape_of classes = Some [bd; Some (Z.of_nat n); Some nc]
       ∧ shape_of p = Some [bd; Some (Z.of_nat n); Some (5 + nc)%Z])
  ∧ ∀ R (N : Numeric R) (K : Kernels R) (img0 vt : ndarray R),
      eval img0 t = Some vt → nd_wf vt →
      length (nd_data vt) mod (n * d) = 0 →
      ∃ v, eval img0 p = Some v
           ∧ nd_shape v = [length (nd_data vt) / (n * d); n; d]
           ∧ nd_wf v
           ∧ (∀ bsz, nd_shape vt = [bsz; Z.to_nat d1; Z.to_nat d2; a * d] →
                nd_shape v = [bsz; n; d]).
Proof.
  intros Hnc Hhead Han Hd1 Hd2 Hp1 Hp2 a n d.
  assert (Hn : (Z.of_nat a * d1 * d2)%Z = Z.of_nat n) by (unfold n; lia).
  split; [| split].
  - apply yolo_anchors_length in Han as (mask & ? & ? & _). eauto.
  - destruct (head_static_shape img nc b t x p anchors d1 d2)
      as (bd & c & s & o & k & -> & _ & Hc & Hs & Ho & Hk & Hp); try done.
    fold a in Hc, Hs, Ho, Hk, Hp. rewrite Hn in *.
    by exists bd, c, s, o, k.
  - intros R N K img0 vt Ht Hwt Hmod.
    assert (Hhead' := Hhead).
    apply yolo_head_Ok in Hhead'
      as (_ & _ & _ & ih & iw & _ & _ & _ & _ & _ & Hih & Hiw & _).
    destruct (head_value img nc b t x p anchors d1 d2 ih iw img0 vt)
      as (v & Hv & Hvs & Hvw & _); try done.
    exists v. repeat split; try done.
    intros bsz Hs. rewrite Hvs. f_equal.
    unfold nd_wf in Hwt. rewrite Hwt, Hs. fold a n d.
    assert (0 < n * d).
    { apply yolo_anchors_length in Han as (_ & _ & _ & ?).
      unfold n, d. fold a in H. nia. }
    replace (prod_list [bsz; Z.to_nat d1; Z.to_nat d2; a * d])
      with (bsz * (n * d)) by (unfold prod_list, n; simpl; lia).
    by rewrite Nat.div_mul by lia.
Qed.

(** In a head's prediction the first two channels of record
    [(cy * h + cx) * a + k] are the sigmoid of the two raw offsets, plus
    [(cx, cy)], times the stride, which is the image size divided, with
    floor, by the grid size: [cx] runs over the first grid dimension,
    of [h] cells, and varies fastest. *)
Lemma box_center_decode
    (R : Type) (N : Numeric R) (K : Kernels R)
    (img : tensor) (nc : Z) (b : block) (t x p : tensor)
    (anchors : list (Z * Z)) (d1 d2 ih iw : Z) (img0 vt : ndarray R) :
  (0 ≤ nc)%Z →
  yolo_head img nc b t = Ok (x, p) →
  yolo_anchors b = Ok anchors →
  get_shape t !! 1 = Some (Some d1) →
  get_shape t !! 2 = Some (Some d2) →
  (0 < d1)%Z → (0 < d2)%Z →
  get_shape img !! 1 = Some (Some ih) →
  get_shape img !! 2 = Some (Some iw) →
  eval img0 t = Some vt → nd_wf vt →
  let a := length anchors in
  let h := Z.to_nat d1 in
  let w := Z.to_nat d2 in
  let n := a * h * w in
  let d := Z.to_nat (5 + nc) in
  length (nd_data vt) mod (n * d) = 0 →
  ∃ v, eval img0 p = Some v
    ∧ ∀ i cx cy k raw_x raw_y,
        i < length (nd_data vt) / (n * d) → cx < h → cy < w → k < a →
        let j := i * n + (cy * h + cx) * a + k in
        record d j vt !! 0 = Some raw_x →
        record d j vt !! 1 = Some raw_y →
        take 2 (record d j v)
        = [rmul (radd (rsigmoid raw_x) (rofZ (Z.of_nat cx))) (rofZ (ih / d1)%Z);
           rmul (radd (rsigmoid raw_y) (rofZ (Z.of_nat cy))) (rofZ (iw / d2)%Z)].
Proof.
  intros Hnc Hhead Han Hd1 Hd2 Hp1 Hp2 Hih Hiw Ht Hwt a h w n d Hmod.
  destruct (head_value img nc b t x p anchors d1 d2 ih iw img0 vt)
    as (v & Hv & Hvs & Hvw & Hl); try done.
  fold a h w n d in Hl, Hvs.
  exists v. split; [done |].
  intros i cx cy k rx ry Hi Hcx Hcy Hk j Hrx Hry.
  assert (Hd : 5 ≤ d) by (unfold d; lia).
  assert (Hr : (cy * h + cx) * a + k < n).
  { assert (Hc1 : cy * h + cx + 1 ≤ w * h) by nia.
    apply (Nat.mul_le_mono_r _ _ a) in Hc1. unfold n. lia. }
  assert (Hj : j < length (nd_data vt) / (n * d) * n).
  { assert (Hi1 : (i + 1) * n ≤ length (nd_data vt) / (n * d) * n)
      by (apply Nat.mul_le_mono_r; lia).
    unfold j. lia. }
  assert (Hjn : j mod n = (cy * h + cx) * a + k).
  { unfold j. rewrite <- Nat.add_assoc, Nat.add_comm, Nat.Div0.mod_add.
    by apply Nat.mod_small. }
  assert (Hcell : ((cy * h + cx) * a + k) / a = cy * h + cx).
  { rewrite Nat.div_add_l by lia. rewrite Nat.div_small by lia. lia. }
  unfold record in Hrx, Hry |- *.
  rewrite lookup_take_lt, lookup_drop in Hrx, Hry by lia.
  rewrite take_take, Nat.min_l by lia.
  rewrite Nat.add_0_r in Hrx.
  pose proof (Hl j 0 rx Hj ltac:(lia)) as H0.
  rewrite Nat.add_0_r in H0. specialize (H0 Hrx).
  pose proof (Hl j 1 ry Hj ltac:(lia) Hry) as H1.
  rewrite (take2_lookup _ _ _ _ H0 H1). unfold grid_coordinate.
  rewrite Hjn, Hcell. simpl.
  rewrite Nat.add_comm, Nat.Div0.mod_add, Nat.mod_small by lia.
  rewrite Nat.div_add by lia. rewrite Nat.div_small by lia. done.
Qed.

(** ** A walked head *)

Lemma run_pred_ok (img : tensor) (nc : Z) (bs : list block) (st : state) :
  run img nc bs = Ok st → pred_ok st.
Proof.
  unfold run. intros Hr. apply bind_Ok in Hr as (st0 & H0 & Hw).
  assert (Hok : pred_ok st0).
  { unfold init_state in H0. ok_inv H0. injection H0 as <-.
    unfold pred_ok. simpl. repeat split; done. }
  by destruct (walk_heads _ _ _ _ _ _ Hok Hw) as (? & _ & _ & _ & ?).
Qed.

(** What a [yolo] block does when it is walked: the head is computed on
    the current tensor, its reshaped input becomes the current tensor
    and is cached, and its prediction is joined to the accumulated
    one. *)
Lemma walked_head (img : tensor) (nc : Z) (bs : list block) (st st' : state)
    (b : block) :
  run img nc bs = Ok st →
  b !! "type" = Some "yolo" →
  step img nc st (Z.of_nat (length bs)) b = Ok st' →
  ∃ x p, yolo_head img nc b (inputs st) = Ok (x, p)
    ∧ inputs st' = x
    ∧ outputs st' !! Z.of_nat (length bs) = Some x
    ∧ out_pred st'
      = Some match out_pred st with
             | Some acc => TConcat [acc; p] 1
             | None => p
             end.
Proof.
  intros Hrun Hty H. apply run_pred_ok in Hrun as (Hz & Hnz & _).
  apply step_Ok in H as (st1 & H & ->).
  rewrite (dispatch_type _ _ _ _ _ _ Hty) in H. simpl in H.
  unfold yolo_block in H. apply bind_Ok in H as ([x p] & Hh & H).
  exists x, p. split; [done |].
  destruct (Z.eqb_spec (scale st) 0) as [Hs | Hs]; simpl in H.
  - injection H as <-. simpl. rewrite (Hz Hs).
    split; [done |]. split; [apply lookup_insert_eq | done].
  - apply bind_Ok in H as (acc & Hacc & H). apply of_option_Ok in Hacc.
    apply bind_Ok in H as (q & Hq & H). apply lib_Ok in Hq as [-> _].
    injection H as <-. simpl. rewrite Hacc.
    split; [done |]. split; [apply lookup_insert_eq | done].
Qed.

(** C4, as the code has it: a walked [yolo] block on a grid of [h] by [w]
    cells, whose mask selects [a] anchors, reshapes its input to records
    of [5 + num_classes] channels, [a * h * w] to an entry of the batch,
    and joins their decoding (two channels for the centre, two for the
    size, one for the objectness, [num_classes] for the classes) to the
    prediction. An image yields exactly [a * h * w] records when, and
    only when, the input has [a * (5 + num_classes)] channels: any other
    depth the reshape accepts spreads the records of an image over
    several entries of the batch. *)
Theorem head_record_count
    (img : tensor) (nc : Z) (bs : list block) (st st' : state) (b : block)
    (anchors : list (Z * Z)) (d1 d2 : Z) :
  run img nc bs = Ok st →
  b !! "type" = Some "yolo" →
  step img nc st (Z.of_nat (length bs)) b = Ok st' →
  yolo_anchors b = Ok anchors →
  get_shape (inputs st) !! 1 = Some (Some d1) →
  get_shape (inputs st) !! 2 = Some (Some d2) →
  (0 ≤ nc)%Z → (0 < d1)%Z → (0 < d2)%Z →
  let a := length anchors in
  let h := Z.to_nat d1 in
  let w := Z.to_nat d2 in
  let n := a * h * w in
  let d := Z.to_nat (5 + nc) in
  (∃ mask, b !! "mask" = Some mask ∧ a = length (split_on "," mask))
  ∧ ∃ p,
      out_pred st'
      = Some match out_pred st with
             | Some acc => TConcat [acc; p] 1
             | None => p
             end
      ∧ inputs st'
        = TReshape (inputs st) [-1; Z.of_nat a * d1 * d2; 5 + nc]%Z
      ∧ (∃ bd centers sizes objectness classes,
           p = TConcat [centers; sizes; objectness; classes] (-1)
           ∧ shape_of centers = Some [bd; Some (Z.of_nat n); Some 2%Z]
           ∧ shape_of sizes = Some [bd; Some (Z.of_nat n); Some 2%Z]
           ∧ shape_of objectness = Some [bd; Some (Z.of_nat n); Some 1%Z]
           ∧ shape_of classes = Some [bd; Some (Z.of_nat n); Some nc]
           ∧ shape_of p = Some [bd; Some (Z.of_nat n); Some (5 + nc)%Z])
      ∧ ∀ R (N : Numeric R) (K : Kernels R) (img0 vt : ndarray R)
          (bsz c : nat),
          eval img0 (inputs st) = Some vt → nd_wf vt →
          nd_shape vt = [bsz; h; w; c] →
          (bsz * (h * w * c)) mod (n * d) = 0 →
          ∃ v, eval img0 p = Some v ∧ nd_wf v
               ∧ nd_shape v = [bsz * (h * w * c) / (n * d); n; d]
               ∧ (c = a * d → nd_shape v = [bsz; n; d])
               ∧ (0 < bsz → nd_shape v = [bsz; n; d] → c = a * d).
Proof.
  intros Hrun Hty Hstep Han Hd1 Hd2 Hnc Hp1 Hp2 a h w n d.
  destruct (walked_head _ _ _ _ _ _ Hrun Hty Hstep)
    as (x & p & Hhead & Hin & _ & Hout).
  destruct (head_shapes img nc b (inputs st) x p anchors d1 d2
              Hnc Hhead Han Hd1 Hd2 Hp1 Hp2) as (Hmask & Hstatic & Hval).
  fold a in Hmask. fold a h w n d in Hval. fold a h w n in Hstatic.
  split; [exact Hmask |]. exists p. split; [done |]. split.
  { rewrite Hin. apply yolo_head_Ok in Hhead
      as (an' & d1' & d2' & _ & _ & _ & _ & Han' & Hd1' & Hd2'
          & _ & _ & _ & _ & _ & _ & -> & _).
    rewrite Han in Han'. injection Han' as <-.
    rewrite Hd1 in Hd1'. injection Hd1' as <-.
    rewrite Hd2 in Hd2'. injection Hd2' as <-. done. }
  split; [exact Hstatic |].
  intros R N K img0 vt bsz c Ht Hwt Hs Hmod.
  assert (Hlen : length (nd_data vt) = bsz * (h * w * c)).
  { unfold nd_wf in Hwt. rewrite Hwt, Hs. unfold prod_list. simpl. lia. }
  destruct (Hval R N K img0 vt Ht Hwt) as (v & Hv & Hvs & Hvw & Hfull);
    [by rewrite Hlen |].
  rewrite Hlen in Hvs.
  exists v. split; [done |]. split; [done |]. split; [done |]. split.
  - intros ->. by apply Hfull.
  - intros Hb Hsv. rewrite Hvs in Hsv. injection Hsv as Hq.
    assert (Hna : 0 < a).
    { apply yolo_anchors_length in Han as (_ & _ & _ & ?). done. }
    assert (Hhw : 0 < h * w) by (unfold h, w; nia).
    assert (Hnd : 0 < n * d) by (unfold n, d; nia).
    pose proof (Nat.div_mod_eq (bsz * (h * w * c)) (n * d)) as Heq.
    rewrite Hmod, Hq, Nat.add_0_r in Heq.
    assert (Hc : bsz * (h * w * c) = bsz * (h * w * (a * d)))
      by (rewrite Heq; unfold n; lia).
    apply Nat.mul_cancel_l in Hc; [| lia].
    apply Nat.mul_cancel_l in Hc; [done | lia].
Qed.

(** C2: the head of a 64 by 96 image at stride 32 works on a grid of 2
    rows and 3 columns. The record it reads from row 0, column 2 of the
    grid (entries [(0 * 3 + 2) * 6] and the next of the input) is
    decoded with the cell (0, 1): the centre is the sigmoid of the raw
    offsets plus (0, 1), times the stride 32, where the claim has the
    record's own cell. The code pairs the record of cell index [q] with
    [q] modulo the number of rows and [q] divided by it, which is the
    record's column and row on square grids only. *)
Theorem oblong_grid_center
    (R : Type) (N : Numeric R) (K : Kernels R) (img0 vt : ndarray R)
    (raw_x raw_y : R) :
  let st := state_after img_oblong 1 [conv_32] in
  let st' := state_after img_oblong 1 [conv_32; yolo_of "0"] in
  eval img0 (inputs st) = Some vt →
  nd_shape vt = [1; 2; 3; 6] → nd_wf vt →
  nd_data vt !! ((0 * 3 + 2) * 6 + 0) = Some raw_x →
  nd_data vt !! ((0 * 3 + 2) * 6 + 1) = Some raw_y →
  run img_oblong 1 [conv_32; yolo_of "0"] = Ok st'
  ∧ get_shape (inputs st) = [None; Some 2; Some 3; Some 6]%Z
  ∧ ∃ p v, out_pred st' = Some p ∧ eval img0 p = Some v
      ∧ take 2 (record 6 ((0 * 3 + 2) * 1 + 0) v)
        = [rmul (radd (rsigmoid raw_x) (rofZ 0)) (rofZ 32);
           rmul (radd (rsigmoid raw_y) (rofZ 1)) (rofZ 32)].
Proof.
  intros st st' Ht Hs Hwt Hx Hy.
  assert (Hrun' : run img_oblong 1 [conv_32; yolo_of "0"] = Ok st')
    by (apply value_of_Ok; vm_compute; reflexivity).
  assert (Hrun : run img_oblong 1 [conv_32] = Ok st)
    by (apply value_of_Ok; vm_compute; reflexivity).
  assert (Hstep : step img_oblong 1 st (Z.of_nat (length [conv_32])) (yolo_of "0")
                  = Ok st').
  { change [conv_32; yolo_of "0"] with ([conv_32] ++ [yolo_of "0"]) in Hrun'.
    rewrite run_snoc, Hrun in Hrun'. exact Hrun'. }
  split; [done |]. split; [vm_compute; reflexivity |].
  assert (Hty : yolo_of "0" !! "type" = Some "yolo")
    by (vm_compute; reflexivity).
  destruct (walked_head _ _ _ _ _ _ Hrun Hty Hstep)
    as (x & p & Hhead & _ & _ & Hout).
  assert (Hnone : out_pred st = None) by (vm_compute; reflexivity).
  rewrite Hnone in Hout.
  assert (Hlen : length (nd_data vt) = 36).
  { unfold nd_wf in Hwt. by rewrite Hwt, Hs. }
  assert (Han : yolo_anchors (yolo_of "0") = Ok [(10, 13)%Z])
    by (vm_compute; reflexivity).
  assert (Hd1 : get_shape (inputs st) !! 1 = Some (Some 2%Z))
    by (vm_compute; reflexivity).
  assert (Hd2 : get_shape (inputs st) !! 2 = Some (Some 3%Z))
    by (vm_compute; reflexivity).
  assert (Hih : get_shape img_oblong !! 1 = Some (Some 64%Z))
    by (vm_compute; reflexivity).
  assert (Hiw : get_shape img_oblong !! 2 = Some (Some 96%Z))
    by (vm_compute; reflexivity).
  assert (Hmod : length (nd_data vt)
                 mod (length [(10, 13)%Z] * Z.to_nat 2 * Z.to_nat 3
                      * Z.to_nat (5 + 1)) = 0)
    by (rewrite Hlen; vm_compute; reflexivity).
  destruct (box_center_decode R N K img_oblong 1 (yolo_of "0") (inputs st) x p
              [(10, 13)%Z] 2 3 64 96 img0 vt
              ltac:(lia) Hhead Han Hd1 Hd2 ltac:(lia) ltac:(lia)
              Hih Hiw Ht Hwt Hmod)
    as (v & Hv & Hdec).
  exists p, v. split; [done |]. split; [done |].
  rewrite Hlen in Hdec.
  apply (Hdec 0 0 1 0 raw_x raw_y); try (vm_compute; lia).
  - unfold record. by rewrite lookup_take_lt, lookup_drop by lia.
  - unfold record. by rewrite lookup_take_lt, lookup_drop by lia.
Qed.

(** C3: with three heads the accumulated prediction is the first two
    predictions joined along the record axis, joined with the third; its
    record count is the sum of the three, and for every image the records
    of the first head come first, then those of the second, then those of
    the third. *)
Theorem three_heads_merged
    (img : tensor) (nc : Z) (bs : list block) (st : state) :
  run img nc bs = Ok st →
  length (filter (fun b => has_type b "yolo" = true) bs) = 3 →
  ∃ p1 p2 p3 out,
    run_heads img nc bs = Ok [p1; p2; p3]
    ∧ out_pred st = Some out
    ∧ out = TConcat [TConcat [p1; p2] 1; p3] 1
    ∧ (∀ bd1 bd2 bd3 n1 n2 n3 c1 c2 c3,
         shape_of p1 = Some [bd1; Some n1; Some c1] →
         shape_of p2 = Some [bd2; Some n2; Some c2] →
         shape_of p3 = Some [bd3; Some n3; Some c3] →
         shape_of out = Some [bd1; Some (n1 + n2 + n3)%Z; Some c1])
    ∧ ∀ R (N : Numeric R) (K : Kernels R) (img0 v1 v2 v3 : ndarray R)
        (bsz n1 n2 n3 d : nat),
        eval img0 p1 = Some v1 → eval img0 p2 = Some v2 →
        eval img0 p3 = Some v3 →
        nd_shape v1 = [bsz; n1; d] → nd_shape v2 = [bsz; n2; d] →
        nd_shape v3 = [bsz; n3; d] →
        nd_wf v1 → nd_wf v2 → nd_wf v3 →
        ∃ v, eval img0 out = Some v
             ∧ nd_shape v = [bsz; n1 + n2 + n3; d]
             ∧ ∀ i, i < bsz →
                 batch_block v i
                 = batch_block v1 i ++ batch_block v2 i ++ batch_block v3 i.
Proof.
  intros Hrun H3.
  destruct (run_heads_merged _ _ _ _ Hrun) as (ps & Hps & Hl & Hout & Hsh).
  rewrite H3 in Hl.
  destruct ps as [| p1 [| p2 [| p3 [| ? ?]]]]; try done.
  exists p1, p2, p3, (TConcat [TConcat [p1; p2] 1; p3] 1).
  split; [done |]. split; [done |]. split; [done |]. split.
  - intros bd1 bd2 bd3 n1 n2 n3 c1 c2 c3 H1 H2 H3'.
    pose proof (Hsh _ Hout) as Hs.
    pose proof (is_Some_shape_concat_l _ _ _ Hs) as Hs12.
    pose proof (shape_of_merged2 _ _ _ _ _ _ _ _ H1 H2 Hs12) as H12.
    apply (shape_of_merged2 _ _ _ _ _ _ _ _ H12 H3' Hs).
  - intros R N K img0 v1 v2 v3 bsz n1 n2 n3 d He1 He2 He3 Hs1 Hs2 Hs3 Hw1 Hw2 Hw3.
    destruct (nd_concat_batches bsz n1 n2 d v1 v2 Hs1 Hs2 Hw1 Hw2)
      as (v12 & Hv12 & Hs12 & Hw12 & Hb12).
    destruct (nd_concat_batches bsz (n1 + n2) n3 d v12 v3 Hs12 Hs3 Hw12 Hw3)
      as (v & Hv & Hs & Hw & Hb).
    exists v. split; [| split; [done |]].
    + erewrite eval_concat2; [exact Hv | | done].
      erewrite eval_concat2; [exact Hv12 | done | done].
    + intros i Hi. rewrite Hb, Hb12 by done. by rewrite <- app_assoc.
Qed.

(** ** The heads at small inputs *)

Lemma value_of_pair_Ok {A B} (d : A * B) (r : result (A * B)) :
  succeeds r = true → r = Ok (fst (value_of d r), snd (value_of d r)).
Proof. by destruct r as [[? ?] |]. Qed.

Lemma head_128_Ok :
  yolo_head img128 1 (yolo_of "0") head_input
  = Ok (fst head_128, snd head_128).
Proof. apply value_of_pair_Ok. vm_compute. reflexivity. Qed.

Lemma state_after_Ok (img : tensor) (nc : Z) (bs : list block) :
  succeeds (run img nc bs) = true → run img nc bs = Ok (state_after img nc bs).
Proof. apply value_of_Ok. Qed.

Lemma step_state_after (img : tensor) (nc : Z) (bs : list block) (b : block) :
  succeeds (run img nc (bs ++ [b])) = true →
  run img nc bs = Ok (state_after img nc bs)
  ∧ step img nc (state_after img nc bs) (Z.of_nat (length bs)) b
    = Ok (state_after img nc (bs ++ [b])).
Proof.
  intros Hs. apply state_after_Ok in Hs as Hr. rewrite run_snoc in Hr.
  unfold state_after in *. destruct (run img nc bs) as [st |]; simpl in *;
    [by split | done].
Qed.

Lemma head_record_count_witness :
  let st := state_after img128 1 [conv_32] in
  let st' := state_after img128 1 ([conv_32] ++ [yolo_of "0"]) in
  let a := length [(10, 13)%Z] in
  let h := Z.to_nat 4 in
  let w := Z.to_nat 4 in
  let n := a * h * w in
  let d := Z.to_nat (5 + 1) in
  (∃ mask, yolo_of "0" !! "mask" = Some mask ∧ a = length (split_on "," mask))
  ∧ ∃ p,
      out_pred st'
      = Some match out_pred st with
             | Some acc => TConcat [acc; p] 1
             | None => p
             end
      ∧ inputs st'
        = TReshape (inputs st) [-1; Z.of_nat a * 4 * 4; 5 + 1]%Z
      ∧ (∃ bd centers sizes objectness classes,
           p = TConcat [centers; sizes; objectness; classes] (-1)
           ∧ shape_of centers = Some [bd; Some (Z.of_nat n); Some 2%Z]
           ∧ shape_of sizes = Some [bd; Some (Z.of_nat n); Some 2%Z]
           ∧ shape_of objectness = Some [bd; Some (Z.of_nat n); Some 1%Z]
           ∧ shape_of classes = Some [bd; Some (Z.of_nat n); Some 1%Z]
           ∧ shape_of p = Some [bd; Some (Z.of_nat n); Some (5 + 1)%Z])
      ∧ ∀ R (N : Numeric R) (K : Kernels R) (img0 vt : ndarray R)
          (bsz c : nat),
          eval img0 (inputs st) = Some vt → nd_wf vt →
          nd_shape vt = [bsz; h; w; c] →
          (bsz * (h * w * c)) mod (n * d) = 0 →
          ∃ v, eval img0 p = Some v ∧ nd_wf v
               ∧ nd_shape v = [bsz * (h * w * c) / (n * d); n; d]
               ∧ (c = a * d → nd_shape v = [bsz; n; d])
               ∧ (0 < bsz → nd_shape v = [bsz; n; d] → c = a * d).
Proof.
  apply (head_record_count img128 1 [conv_32]
           (state_after img128 1 [conv_32])
           (state_after img128 1 ([conv_32] ++ [yolo_of "0"]))
           (yolo_of "0") [(10, 13)%Z] 4 4).
  - apply state_after_Ok. vm_compute. reflexivity.
  - vm_compute. reflexivity.
  - apply (step_state_after img128 1 [conv_32] (yolo_of "0")).
    vm_compute. reflexivity.
  - vm_compute. reflexivity.
  - vm_compute. reflexivity.
  - vm_compute. reflexivity.
  - lia.
  - lia.
  - lia.
Defined.

(** C4 fails on the code: a head with one anchor and one class on a grid
    of 2 by 2 cells, fed 12 channels, is built without an error, and for
    one image its prediction holds two entries of 4 records each, 8
    records where the claim has [1 * 2 * 2]. *)
Lemma head_record_count_counterexample :
  get_shape (inputs (state_after img64 1 [conv_12]))
  = [None; Some 2; Some 2; Some 12]%Z
  ∧ yolo_anchors (yolo_of "0") = Ok [(10, 13)%Z]
  ∧ match out_pred (state_after img64 1 [conv_12; yolo_of "0"]) with
    | Some p =>
        nd_shape <$> eval (H := Q_demo) (H0 := zero_kernels) black64 p
        = Some [2; 4; 6]
    | None => False
    end.
Proof. split; [| split]; vm_compute; reflexivity. Qed.

Lemma oblong_grid_center_witness :
  run img_oblong 1 [conv_32; yolo_of "0"]
  = Ok (state_after img_oblong 1 [conv_32; yolo_of "0"])
  ∧ get_shape (inputs (state_after img_oblong 1 [conv_32]))
    = [None; Some 2; Some 3; Some 6]%Z
  ∧ ∃ p v,
      out_pred (state_after img_oblong 1 [conv_32; yolo_of "0"]) = Some p
      ∧ eval (H := Q_demo) (H0 := zero_kernels) black_oblong p = Some v
      ∧ take 2 (record 6 ((0 * 3 + 2) * 1 + 0) v)
        = [((sigmoid_of exp_1st 0 + inject_Z 0) * inject_Z 32)%Q;
           ((sigmoid_of exp_1st 0 + inject_Z 1) * inject_Z 32)%Q].
Proof.
  apply (oblong_grid_center Q Q_demo zero_kernels black_oblong
           (zeros [1; 2; 3; 6]) 0%Q 0%Q).
  - vm_compute. reflexivity.
  - vm_compute. reflexivity.
  - vm_compute. reflexivity.
  - vm_compute. reflexivity.
  - vm_compute. reflexivity.
Defined.

(** With a sigmoid of one half the record of row 0, column 2 is given the
    centre (16, 48); the claim has (80, 16) for it. *)
Example oblong_grid_center_values :
  match out_pred (state_after img_oblong 1 [conv_32; yolo_of "0"]) with
  | Some p =>
      match eval (H := Q_demo) (H0 := zero_kernels) black_oblong p with
      | Some v =>
          Forall2 Qeq (take 2 (record 6 2 v)) [16%Q; 48%Q]
          ∧ ¬ Forall2 Qeq (take 2 (record 6 2 v)) [80%Q; 16%Q]
      | None => False
      end
  | None => False
  end.
Proof.
  vm_compute. split.
  - repeat constructor.
  - intros H. inversion H as [| ? ? ? ? Hq _]; subst. by vm_compute in Hq.
Qed.

Lemma three_heads_merged_witness :
  ∃ p1 p2 p3 out,
    run_heads img8 1 three_heads = Ok [p1; p2; p3]
    ∧ out_pred (after three_heads) = Some out
    ∧ out = TConcat [TConcat [p1; p2] 1; p3] 1
    ∧ (∀ bd1 bd2 bd3 n1 n2 n3 c1 c2 c3,
         shape_of p1 = Some [bd1; Some n1; Some c1] →
         shape_of p2 = Some [bd2; Some n2; Some c2] →
         shape_of p3 = Some [bd3; Some n3; Some c3] →
         shape_of out = Some [bd1; Some (n1 + n2 + n3)%Z; Some c1])
    ∧ ∀ R (N : Numeric R) (K : Kernels R) (img0 v1 v2 v3 : ndarray R)
        (bsz n1 n2 n3 d : nat),
        eval img0 p1 = Some v1 → eval img0 p2 = Some v2 →
        eval img0 p3 = Some v3 →
        nd_shape v1 = [bsz; n1; d] → nd_shape v2 = [bsz; n2; d] →
        nd_shape v3 = [bsz; n3; d] →
        nd_wf v1 → nd_wf v2 → nd_wf v3 →
        ∃ v, eval img0 out = Some v
             ∧ nd_shape v = [bsz; n1 + n2 + n3; d]
             ∧ ∀ i, i < bsz →
                 batch_block v i
                 = batch_block v1 i ++ batch_block v2 i ++ batch_block v3 i.
Proof.
  apply (three_heads_merged img8 1 three_heads (after three_heads)).
  - apply after_Ok. vm_compute. reflexivity.
  - vm_compute. reflexivity.
Defined.

(** The three heads of the small walk yield 64, 128 and 64 records; the
    merged prediction has 256. *)
Example three_heads_shapes :
  match run_heads img8 1 three_heads with
  | Ok ps => map shape_of ps
  | Raise _ => []
  end
  = [Some [None; Some 64%Z; Some 6%Z]; Some [None; Some 128%Z; Some 6%Z];
     Some [None; Some 64%Z; Some 6%Z]]
  ∧ match out_pred (after three_heads) with
    | Some out => shape_of out
    | None => None
    end = Some [None; Some 256%Z; Some 6%Z].
Proof. split; vm_compute; reflexivity. Qed.

(** ** Sums of equal shapes, and square grids *)

Lemma drop_ones_suffix (s : list nat) : drop_ones s `suffix_of` s.
Proof.
  induction s as [| d s IH]; [done |].
  destruct d as [| [| d]]; simpl; try done.
  by apply suffix_cons_r.
Qed.

Lemma cycle_1 {A} (l : list A) : cycle 1 l = l.
Proof. unfold cycle. simpl. apply app_nil_r. Qed.

(** On two arrays of one shape the broadcast operation is the operation
    entry by entry. *)
Lemma nd_broadcast_same_shape {A B C} (op : A → B → C)
    (x : ndarray A) (y : ndarray B) :
  nd_shape x = nd_shape y → nd_wf x → nd_wf y →
  nd_broadcast op x y
  = Some (NDArray (nd_shape x) (zip_with op (nd_data x) (nd_data y))).
Proof.
  intros Hs Hx Hy. unfold nd_broadcast.
  rewrite bool_decide_eq_true_2
    by (rewrite Hs; split; [apply drop_ones_suffix | done]).
  do 2 f_equal. rewrite prod_list_drop_ones, Hs.
  unfold nd_wf in *. rewrite Hs in Hx.
  destruct (prod_list (nd_shape y)) as [| m] eqn:Hm.
  - apply nil_length_inv in Hx. by rewrite Hx.
  - rewrite Nat.div_same by lia. by rewrite cycle_1.
Qed.

(** C6: a shortcut block adds the tensor cached for the layer just
    before it and the one cached at [i + from], whatever [from] is; on
    operands of one shape the sum is entry by entry. *)
Theorem shortcut_reads_previous_layer
    (img : tensor) (nc : Z) (st st' : state) (i : Z) (b : block) :
  b !! "type" = Some "shortcut" →
  step img nc st i b = Ok st' →
  ∃ from_ t1 t2,
    attr_int b "from" = Ok from_
    ∧ outputs st !! (i - 1)%Z = Some t1
    ∧ outputs st !! (i + from_)%Z = Some t2
    ∧ inputs st' = TAdd t1 t2
    ∧ outputs st' !! i = Some (TAdd t1 t2)
    ∧ ∀ R (N : Numeric R) (K : Kernels R) (img0 x1 x2 : ndarray R),
        eval img0 t1 = Some x1 → eval img0 t2 = Some x2 →
        eval img0 (inputs st') = nd_broadcast radd x1 x2
        ∧ (nd_shape x1 = nd_shape x2 → nd_wf x1 → nd_wf x2 →
           eval img0 (inputs st')
           = Some (NDArray (nd_shape x1)
                     (zip_with radd (nd_data x1) (nd_data x2)))).
Proof.
  intros Hty H. apply step_Ok in H as (st1 & H & ->).
  rewrite (dispatch_type _ _ _ _ _ _ Hty) in H. simpl in H.
  unfold shortcut_block in H. ok_inv H. injection H as <-.
  apply dict_get_Ok in E0, E1. apply lib_Ok in E2 as [-> _].
  exists x, x0, x1. simpl. repeat split; try done.
  - apply lookup_insert_eq.
  - by rewrite H, H0.
  - intros Hs Hw1 Hw2. rewrite H, H0. simpl.
    by apply nd_broadcast_same_shape.
Qed.

Lemma shortcut_reads_previous_layer_witness :
  let st := after [conv_plain "4"; conv_plain "4"] in
  let st' := after [conv_plain "4"; conv_plain "4"; shortcut_back2] in
  ∃ from_ t1 t2,
    attr_int shortcut_back2 "from" = Ok from_
    ∧ outputs st !! (2 - 1)%Z = Some t1
    ∧ outputs st !! (2 + from_)%Z = Some t2
    ∧ inputs st' = TAdd t1 t2
    ∧ outputs st' !! 2%Z = Some (TAdd t1 t2)
    ∧ ∀ R (N : Numeric R) (K : Kernels R) (img0 x1 x2 : ndarray R),
        eval img0 t1 = Some x1 → eval img0 t2 = Some x2 →
        eval img0 (inputs st') = nd_broadcast radd x1 x2
        ∧ (nd_shape x1 = nd_shape x2 → nd_wf x1 → nd_wf x2 →
           eval img0 (inputs st')
           = Some (NDArray (nd_shape x1)
                     (zip_with radd (nd_data x1) (nd_data x2)))).
Proof.
  apply (shortcut_reads_previous_layer img8 1 _ _ 2 shortcut_back2).
  - vm_compute. reflexivity.
  - apply (step_after [conv_plain "4"; conv_plain "4"] shortcut_back2).
    vm_compute. reflexivity.
Defined.

(** On a square grid the coordinate the code pairs with a record is the
    column and the row of the cell the record is read from. *)
Lemma grid_coordinate_square (h a row col k : nat) :
  row < h → col < h → k < a →
  grid_coordinate h a ((row * h + col) * a + k) 0 = Z.of_nat col
  ∧ grid_coordinate h a ((row * h + col) * a + k) 1 = Z.of_nat row.
Proof.
  intros Hr Hc Hk. unfold grid_coordinate. simpl.
  rewrite Nat.div_add_l, (Nat.div_small k a), Nat.add_0_r by lia.
  rewrite Nat.add_comm, Nat.Div0.mod_add, Nat.mod_small by lia.
  rewrite Nat.div_add, (Nat.div_small col h) by lia. done.
Qed.

(** On a grid of 2 rows and 3 columns the record read from row 0,
    column 2 is paired with the coordinate (0, 1). *)
Example grid_coordinate_oblong :
  grid_coordinate 2 1 ((0 * 3 + 2) * 1 + 0) 0 = 0%Z
  ∧ grid_coordinate 2 1 ((0 * 3 + 2) * 1 + 0) 1 = 1%Z.
Proof. split; reflexivity. Qed.

(** * Further properties *)

(** ** The lines of a text *)

Lemma append_cons (c : ascii) (l s : string) :
  String c l +:+ s = String c (l +:+ s).
Proof. done. Qed.

Lemma universal_newlines_line (l s : string) :
  no_breaks l = true →
  universal_newlines (l +:+ String nl s) = l +:+ String nl (universal_newlines s).
Proof.
  induction l as [| c l IH]; intros Hl; [done |].
  simpl in Hl. apply andb_prop in Hl as [[_ Hc]%andb_prop Hl].
  apply negb_true_iff in Hc. rewrite !append_cons. cbn [universal_newlines].
  rewrite Hc. by rewrite IH.
Qed.

Lemma file_lines_line (l s : string) :
  no_breaks l = true →
  file_lines (l +:+ String nl s) = (l +:+ String nl EmptyString) :: file_lines s.
Proof.
  induction l as [| c l IH]; intros Hl; [done |].
  simpl in Hl. apply andb_prop in Hl as [[Hc _]%andb_prop Hl].
  apply negb_true_iff in Hc. rewrite !append_cons. cbn [file_lines].
  rewrite Hc. by rewrite IH.
Qed.

Lemma rstrip_nl_line (l : string) :
  no_breaks l = true → rstrip_nl (l +:+ String nl EmptyString) = l.
Proof.
  induction l as [| c l IH]; intros Hl; [done |].
  simpl in Hl. apply andb_prop in Hl as [[Hc _]%andb_prop Hl].
  apply negb_true_iff in Hc. rewrite !append_cons. cbn [rstrip_nl].
  rewrite IH, Hc by done. by rewrite andb_false_r.
Qed.

Lemma keep_line_line (l : string) :
  keep_line (l +:+ String nl EmptyString) = negb (is_empty l || is_comment l).
Proof.
  destruct l as [| c l]; [done |]. unfold keep_line.
  rewrite !append_cons. cbn [is_empty is_comment orb].
  replace (String.eqb (String c (l +:+ String nl EmptyString)) (String nl EmptyString))
    with false; [done |].
  symmetry. apply String.eqb_neq. intros [= _ Hl]. by destruct l.
Qed.

Lemma lines_of_text (ls : list string) :
  Forall (fun l => no_breaks l = true) ls →
  file_lines (universal_newlines (text_of ls))
  = (fun l => l +:+ String nl EmptyString) <$> ls.
Proof.
  induction 1 as [| l ls Hl _ IH]; [done |].
  cbn [text_of foldr fmap list_fmap]. fold (text_of ls).
  by rewrite universal_newlines_line, file_lines_line, IH.
Qed.

Lemma cfg_lines_text (ls : list string) :
  Forall (fun l => no_breaks l = true) ls →
  cfg_lines (text_of ls)
  = filter (fun l => is_empty l || is_comment l = false) ls.
Proof.
  intros Hls. unfold cfg_lines. rewrite lines_of_text by done.
  induction Hls as [| l ls Hl _ IH]; [done |].
  rewrite fmap_cons. destruct (is_empty l || is_comment l) eqn:Hk.
  - rewrite filter_cons_False by (by rewrite keep_line_line, Hk).
    rewrite filter_cons_False by (by rewrite Hk). apply IH.
  - rewrite filter_cons_True by (by rewrite keep_line_line, Hk).
    rewrite filter_cons_True by (by rewrite Hk).
    rewrite fmap_cons, rstrip_nl_line by done. f_equal. apply IH.
Qed.

(** X1: blank lines and lines that open with the hash sign are dropped
    before anything is parsed: a text of lines is parsed as the text of
    its other lines. *)
Theorem comments_and_blank_lines_dropped (ls : list string) :
  Forall (fun l => no_breaks l = true) ls →
  let kept := filter (fun l => is_empty l || is_comment l = false) ls in
  cfg_lines (text_of ls) = kept
  ∧ parse_cfg (text_of ls) = parse_cfg (text_of kept).
Proof.
  intros Hls kept. split; [by apply cfg_lines_text |].
  assert (Hk : Forall (fun l => no_breaks l = true) kept).
  { apply Forall_forall. intros l [_ Hl]%list_elem_of_filter.
    by eapply Forall_forall in Hls. }
  unfold parse_cfg. rewrite !cfg_lines_text by done.
  unfold kept. by rewrite list_filter_filter_r.
Qed.

Lemma comments_and_blank_lines_dropped_witness :
  let ls := ["# a network"; ""; "[net]"; "# its size"; "width = 8"; ""] in
  let kept := filter (fun l => is_empty l || is_comment l = false) ls in
  cfg_lines (text_of ls) = kept
  ∧ parse_cfg (text_of ls) = parse_cfg (text_of kept).
Proof.
  apply (comments_and_blank_lines_dropped
           ["# a network"; ""; "[net]"; "# its size"; "width = 8"; ""]).
  repeat constructor.
Defined.

(** ** What the parser raises, and the blocks it returns *)

(** Every line a file yields is not empty, and only the line that is a
    lone newline is emptied by stripping newlines. *)
Lemma file_lines_nonblank (s : string) :
  Forall (fun l => l ≠ EmptyString
                   ∧ (rstrip_nl l = EmptyString → l = String nl EmptyString))
         (file_lines s).
Proof.
  induction s as [| c s IH]; [constructor |].
  cbn [file_lines]. destruct (Ascii.eqb c nl) eqn:Hc.
  - constructor; [| done]. done.
  - assert (Hne : ∀ l, rstrip_nl (String c l) ≠ EmptyString).
    { intros l. cbn [rstrip_nl]. rewrite Hc, andb_false_r. done. }
    destruct (file_lines s) as [| l ls].
    + constructor; [| done]. split; [done |]. intros H. by apply Hne in H.
    + inversion IH; subst. constructor; [| done].
      split; [done |]. intros H. by apply Hne in H.
Qed.

Lemma cfg_lines_nonempty (content : string) :
  Forall (fun l => l ≠ EmptyString) (cfg_lines content).
Proof.
  unfold cfg_lines. apply Forall_fmap, Forall_forall.
  intros l [Hk Hl]%list_elem_of_filter. simpl.
  pose proof (file_lines_nonblank (universal_newlines content)) as Hall.
  eapply Forall_forall in Hall as [_ Hb]; [| done].
  intros He. apply Hb in He. subst l. done.
Qed.

(** The body of the loop, for a line that is not empty. *)
Lemma parse_line_eq (p : parser) (c : ascii) (s : string) :
  let line := String c s in
  let q := if is_header line && negb (size (holder p) =? 0)
           then Parser ∅ (blocks p ++ [holder p]) else p in
  parse_line p line
  = match split_on "=" (assignment_of line) with
    | [key; value] =>
        Ok (Parser (<[rstrip key := lstrip value]> (holder q)) (blocks q))
    | _ => Raise ValueError
    end.
Proof.
  unfold parse_line, assignment_of, is_header. cbn [str_head mbind result_bind].
  destruct (Ascii.eqb c "["); [| done]. cbn [andb].
  by destruct (negb (size (holder p) =? 0)).
Qed.

Lemma parse_line_outcome (p : parser) (line : string) :
  line ≠ EmptyString →
  if one_equals line then ∃ p', parse_line p line = Ok p'
  else parse_line p line = Raise ValueError.
Proof.
  destruct line as [| c s]; [done |]. intros _. rewrite parse_line_eq.
  unfold one_equals.
  destruct (split_on "=" (assignment_of (String c s))) as [| k [| v [| ? ?]]];
    simpl; eauto.
Qed.

Lemma parse_lines_outcome (lines : list string) (p : parser) :
  Forall (fun l => l ≠ EmptyString) lines →
  if forallb one_equals lines then ∃ p', parse_lines p lines = Ok p'
  else parse_lines p lines = Raise ValueError.
Proof.
  intros Hl. revert p. induction Hl as [| l lines Hne _ IH]; intros p.
  - simpl. eauto.
  - cbn [forallb parse_lines]. pose proof (parse_line_outcome p l Hne) as Hp.
    destruct (one_equals l); cbn [andb].
    + destruct Hp as [p' ->]. cbn [mbind result_bind]. apply IH.
    + by rewrite Hp.
Qed.

(** X2: [open] raises [OSError] when the file cannot be opened and the
    reading raises [UnicodeDecodeError] when its bytes are no text; once
    the text is read the parser raises nothing but [ValueError], and
    raises it exactly when some line that is kept does not hold one [=]
    where it is split (a header line once rewritten); otherwise it
    returns a list that is not empty. *)
Theorem parse_cfg_outcome (f : cfg_file) :
  match f with
  | NoFile => parse_cfg_file f = Raise OSError
  | NoText => parse_cfg_file f = Raise UnicodeDecodeError
  | Text content =>
      if forallb one_equals (cfg_lines content)
      then ∃ bs, parse_cfg_file f = Ok bs ∧ bs ≠ []
      else parse_cfg_file f = Raise ValueError
  end.
Proof.
  destruct f as [| | content]; [done | done |].
  cbn [parse_cfg_file]. unfold parse_cfg.
  pose proof (parse_lines_outcome (cfg_lines content) (Parser ∅ [])
                (cfg_lines_nonempty content)) as Hp.
  destruct (forallb one_equals (cfg_lines content)).
  - destruct Hp as [p' ->]. cbn [mbind result_bind]. eexists. split; [done |].
    by destruct (blocks p').
  - by rewrite Hp.
Qed.

(** The key of a rewritten header line is [type]. *)
Lemma split_on_type (x : string) :
  split_on "=" ("type=" +:+ x) = "type" :: split_on "=" x.
Proof. done. Qed.

Lemma parse_line_header (p p' : parser) (line : string) :
  is_header line = true → parse_line p line = Ok p' →
  ∃ value,
    p' = if negb (size (holder p) =? 0)
         then Parser (<[ "type" := value ]> ∅) (blocks p ++ [holder p])
         else Parser (<[ "type" := value ]> (holder p)) (blocks p).
Proof.
  destruct line as [| c s]; [done |]. intros Hh. rewrite parse_line_eq.
  unfold assignment_of. rewrite Hh, split_on_type. cbn [andb].
  destruct (split_on "=" (rstrip (slice_1_m1 (String c s)))) as [| v [| ? ?]];
    try done.
  intros [= <-]. exists (lstrip v).
  by destruct (negb (size (holder p) =? 0)).
Qed.

Lemma parse_line_plain (p p' : parser) (line : string) :
  is_header line = false → parse_line p line = Ok p' →
  ∃ key value, p' = Parser (<[ key := value ]> (holder p)) (blocks p).
Proof.
  destruct line as [| c s]; [done |]. intros Hh. rewrite parse_line_eq.
  unfold assignment_of. rewrite Hh. cbn [andb].
  destruct (split_on "=" (String c s)) as [| k [| v [| ? ?]]]; try done.
  intros [= <-]. eauto.
Qed.

Lemma size_zero_empty (h : block) : (size h =? 0) = true ↔ h = ∅.
Proof. rewrite Nat.eqb_eq. apply map_size_empty_iff. Qed.

Lemma typed_parse_line (p p' : parser) (line : string) :
  typed_blocks p → parse_line p line = Ok p' → typed_blocks p'.
Proof.
  intros (Hb & Hh & He) Hp. destruct (is_header line) eqn:Hl.
  - apply parse_line_header in Hp as [v ->]; [| done].
    destruct (size (holder p) =? 0) eqn:Hs; cbn [negb].
    + apply size_zero_empty in Hs. rewrite (He Hs).
      split; [constructor | split]; simpl; [done |].
      intros H. by apply insert_non_empty in H.
    + assert (holder p ≠ ∅) as Hne.
      { intros H. apply size_zero_empty in H. congruence. }
      split; [| split]; simpl.
      * destruct (blocks p) as [| b bl]; [constructor |]. simpl in *.
        apply Forall_app. split; [done |]. constructor; [| done].
        by apply Hh.
      * intros _. rewrite lookup_insert_eq. eauto.
      * intros H. by apply insert_non_empty in H.
  - apply parse_line_plain in Hp as (k & v & ->); [| done].
    split; [| split]; simpl.
    + done.
    + intros Hne. rewrite lookup_insert. case_decide; eauto.
    + intros H. by apply insert_non_empty in H.
Qed.

Lemma typed_parse_lines (lines : list string) (p p' : parser) :
  typed_blocks p → parse_lines p lines = Ok p' → typed_blocks p'.
Proof.
  revert p. induction lines as [| l lines IH]; intros p Hp; simpl.
  - by intros [= <-].
  - intros H. ok_inv H. eauto using typed_parse_line.
Qed.

(** X3: every block of the result but the first holds the key [type]:
    the walk over [blocks[1:]] never meets a block without one. *)
Theorem blocks_after_first_have_type (content : string) (bs : list block) :
  parse_cfg content = Ok bs →
  Forall (fun b : block => is_Some (b !! "type")) (drop 1 bs).
Proof.
  unfold parse_cfg. intros H. ok_inv H. injection H as <-.
  apply typed_parse_lines in E as (Hb & Hh & _).
  - destruct (blocks x) as [| b bl]; [constructor |]. simpl in *.
    apply Forall_app. split; [done |]. constructor; [| done]. by apply Hh.
  - split; [constructor | split]; simpl; done.
Qed.

Lemma blocks_after_first_have_type_witness :
  Forall (fun b : block => is_Some (b !! "type"))
         (drop 1 (value_of [] (parse_cfg kv_text))).
Proof.
  apply (blocks_after_first_have_type kv_text).
  apply value_of_Ok. vm_compute. reflexivity.
Defined.

Lemma parse_lines_count (lines : list string) (p p' : parser) :
  holder p ≠ ∅ → parse_lines p lines = Ok p' →
  length (blocks p')
  = length (blocks p) + length (filter (fun l => is_header l = true) lines).
Proof.
  revert p. induction lines as [| l lines IH]; intros p Hne; simpl.
  - intros [= <-]. lia.
  - intros H. ok_inv H.
    assert (Hs : (size (holder p) =? 0) = false).
    { apply not_true_is_false. intros Hs. by apply size_zero_empty in Hs. }
    destruct (is_header l) eqn:Hl.
    + rewrite filter_cons_True by done.
      apply parse_line_header in E as [v ->]; [| done]. rewrite Hs in H.
      apply IH in H; [| by apply insert_non_empty].
      rewrite H. simpl. rewrite length_app. simpl. lia.
    + rewrite filter_cons_False by congruence.
      apply parse_line_plain in E as (k & v & ->); [| done].
      apply IH in H; [| by apply insert_non_empty]. done.
Qed.

(** X4: the result holds one block for every header line, in addition to
    the block of the lines ahead of the first header when the text does
    not open with one (an empty block when no line is kept at all). *)
Theorem one_block_per_header (content : string) (bs : list block) :
  parse_cfg content = Ok bs →
  length bs
  = length (filter (fun l => is_header l = true) (cfg_lines content))
    + match cfg_lines content with
      | l :: _ => if is_header l then 0 else 1
      | [] => 1
      end.
Proof.
  unfold parse_cfg. intros H. ok_inv H. injection H as <-.
  rewrite length_app. simpl.
  destruct (cfg_lines content) as [| l lines]; simpl in E.
  - injection E as <-. done.
  - ok_inv E. destruct (is_header l) eqn:Hl.
    + rewrite filter_cons_True by done.
      apply parse_line_header in E0 as [v ->]; [| done].
      cbn [holder blocks] in E.
      rewrite (proj2 (size_zero_empty ∅) eq_refl) in E. cbn [negb] in E.
      apply parse_lines_count in E; [| by apply insert_non_empty].
      rewrite E. simpl. lia.
    + rewrite filter_cons_False by congruence.
      apply parse_line_plain in E0 as (k & v & ->); [| done].
      apply parse_lines_count in E; [| by apply insert_non_empty].
      rewrite E. simpl. lia.
Qed.

Lemma one_block_per_header_witness :
  length (value_of [] (parse_cfg maxpool_cfg))
  = length (filter (fun l => is_header l = true) (cfg_lines maxpool_cfg))
    + match cfg_lines maxpool_cfg with
      | l :: _ => if is_header l then 0 else 1
      | [] => 1
      end.
Proof.
  apply (one_block_per_header maxpool_cfg).
  apply value_of_Ok. vm_compute. reflexivity.
Defined.

(** Key-value lines fill the open block and close none; the keys it
    held stay. *)
Lemma last_assignment_free (pre : list string) (h : block) :
  Forall (fun l => kv_line l = true) pre →
  ∃ h', parse_lines (Parser h []) pre = Ok (Parser h' [])
        ∧ (is_Some (h !! "type") → is_Some (h' !! "type")).
Proof.
  intros Hpre. destruct (parse_lines_kv pre h Hpre) as (h' & Hh' & Hk).
  exists h'. split; [done |]. apply Hk.
Qed.

(** X5: within a section a key that is assigned more than once keeps the
    value of its last line; a key no line assigns keeps what the block
    held. *)
Theorem last_assignment_wins
    (pre : list string) (h : block) (bs : list block) (k : string) :
  Forall (fun l => kv_line l = true) pre →
  ∃ h', parse_lines (Parser h bs) pre = Ok (Parser h' bs)
        ∧ h' !! k = match last (filter (fun l => kv_key l = k) pre) with
                    | Some l => Some (kv_value l)
                    | None => h !! k
                    end.
Proof.
  intros Hpre. revert h. induction Hpre as [| l pre Hl _ IH]; intros h.
  - exists h. done.
  - cbn [parse_lines]. rewrite parse_line_kv by done. cbn [mbind result_bind].
    cbn [holder blocks].
    destruct (IH (<[kv_key l := kv_value l]> h)) as (h' & -> & Hh').
    exists h'. split; [done |]. rewrite Hh'.
    destruct (decide (kv_key l = k)) as [Hk | Hk].
    + rewrite filter_cons_True by done. rewrite last_cons.
      destruct (last (filter _ pre)); [done |]. by rewrite Hk, lookup_insert_eq.
    + rewrite filter_cons_False by done.
      destruct (last (filter _ pre)); [done |]. by rewrite lookup_insert_ne.
Qed.

Lemma last_assignment_wins_witness :
  ∃ h', parse_lines (Parser ∅ []) ["size=1"; "stride = 2"; "size = 3"]
        = Ok (Parser h' [])
        ∧ h' !! "size"
          = match last (filter (fun l => kv_key l = "size")
                          ["size=1"; "stride = 2"; "size = 3"]) with
            | Some l => Some (kv_value l)
            | None => (∅ : block) !! "size"
            end.
Proof.
  apply (last_assignment_wins ["size=1"; "stride = 2"; "size = 3"] ∅ [] "size").
  repeat constructor.
Defined.

(** ** The attributes a step reads *)

Lemma same_reads_lookup (b b' : block) (key : string) :
  same_reads b b' = true → key ∈ value_keys → b !! key = b' !! key.
Proof.
  intros [Hv _]%andb_prop Hk.
  apply Is_true_true, forallb_True in Hv.
  eapply Forall_forall in Hv; [| done]. by apply bool_decide_unpack in Hv.
Qed.

(** X6: a step reads a block for the values of [type], [activation],
    [filters], [size], [stride], [layers], [from], [mask] and [anchors],
    and for the presence of [batch_normalize], whatever its value; any
    other key ([pad], [classes], [num], ...) changes nothing. *)
Theorem step_reads_only (img : tensor) (nc : Z) (st : state) (i : Z) (b b' : block) :
  same_reads b b' = true →
  step img nc st i b = step img nc st i b'.
Proof.
  intros Hs.
  assert (Hk : ∀ key, key ∈ value_keys → b !! key = b' !! key)
    by (intros; by apply same_reads_lookup).
  assert (Hbn : dict_has b "batch_normalize" = dict_has b' "batch_normalize").
  { apply andb_prop in Hs as [_ Hs]. by apply Bool.eqb_prop. }
  pose proof (Hk "type" ltac:(set_solver)) as H1.
  pose proof (Hk "activation" ltac:(set_solver)) as H2.
  pose proof (Hk "filters" ltac:(set_solver)) as H3.
  pose proof (Hk "size" ltac:(set_solver)) as H4.
  pose proof (Hk "stride" ltac:(set_solver)) as H5.
  pose proof (Hk "layers" ltac:(set_solver)) as H6.
  pose proof (Hk "from" ltac:(set_solver)) as H7.
  pose proof (Hk "mask" ltac:(set_solver)) as H8.
  pose proof (Hk "anchors" ltac:(set_solver)) as H9.
  unfold step, dispatch, conv_block, upsample_block, route_block,
    shortcut_block, yolo_block, yolo_head, yolo_anchors, attr_int, dict_get.
  rewrite Hbn, H1, H2, H3, H4, H5, H6, H7, H8, H9. reflexivity.
Qed.

Lemma step_reads_only_witness :
  step img8 1 (after []) 0 conv_down = step img8 1 (after []) 0 conv_down_plain.
Proof.
  apply (step_reads_only img8 1 (after []) 0 conv_down conv_down_plain).
  vm_compute. reflexivity.
Defined.

(** ** The layers a block may refer to *)

Local Open Scope Z_scope.

Lemma list_get_out {A} (l : list A) (k : Z) :
  Z.of_nat (length l) ≤ k ∨ k < - Z.of_nat (length l) →
  list_get l k = Raise IndexError.
Proof.
  intros Hk. unfold list_get.
  destruct (Z.ltb_spec k 0); destruct (Z.leb_spec 0 (k + Z.of_nat (length l)));
    destruct (Z.leb_spec 0 k); destruct (Z.ltb_spec k (Z.of_nat (length l)));
    destruct (Z.ltb_spec (k + Z.of_nat (length l)) (Z.of_nat (length l)));
    simpl; try done; lia.
Qed.

Lemma list_get_raises {A} (l : list A) (k : Z) (e : exn) :
  list_get l k = Raise e → e = IndexError.
Proof.
  unfold list_get. destruct (_ && _); [| by intros [= <-]].
  destruct (l !! _); simpl; [done | by intros [= <-]].
Qed.

Lemma cache_miss (st : state) (n : nat) (k : Z) :
  cache_ok st n → k < 0 ∨ Z.of_nat n ≤ k → outputs st !! k = None.
Proof.
  intros [_ Hd _ _] Hk. apply eq_None_not_Some. rewrite Hd. lia.
Qed.

(** X7: a shortcut block whose [from] is not negative, or reaches back
    beyond the first layer, or that is the first block, raises
    [KeyError]: the cache holds the earlier layers only. *)
Theorem shortcut_bad_reference_raises
    (img : tensor) (nc : Z) (bs : list block) (st : state) (b : block) (from_ : Z) :
  run img nc bs = Ok st →
  b !! "type" = Some "shortcut" →
  attr_int b "from" = Ok from_ →
  bs = [] ∨ 0 ≤ from_ ∨ from_ < - Z.of_nat (length bs) →
  step img nc st (Z.of_nat (length bs)) b = Raise KeyError.
Proof.
  intros Hrun Hty Hf Hbad. apply run_cache_ok in Hrun as Hc.
  unfold step. rewrite (dispatch_type _ _ _ _ _ _ Hty). simpl.
  unfold shortcut_block. rewrite Hf. cbn [mbind result_bind].
  unfold dict_get.
  destruct (outputs st !! (Z.of_nat (length bs) - 1)) as [t1 |] eqn:H1;
    [| done].
  cbn [of_option mbind result_bind].
  rewrite (cache_miss st (length bs)); [done | done |].
  destruct Hbad as [-> | Hbad]; [| lia].
  apply (cached_index _ _ _ _ Hc) in H1. simpl in H1. lia.
Qed.

Lemma shortcut_bad_reference_raises_witness :
  step img8 1 (after [conv_plain "4"])
       (Z.of_nat (length [conv_plain "4"])) shortcut_self
  = Raise KeyError.
Proof.
  apply (shortcut_bad_reference_raises img8 1 [conv_plain "4"]
           (after [conv_plain "4"]) shortcut_self 0).
  - apply after_Ok. vm_compute. reflexivity.
  - vm_compute. reflexivity.
  - vm_compute. reflexivity.
  - right. left. lia.
Defined.

(** X8: a route block that succeeds names earlier layers only: its first
    reference is relative and negative, within the layers walked so far,
    and its second reference, when there is one, is the absolute index
    of one of them. *)
Theorem route_reference_ranges
    (img : tensor) (nc : Z) (bs : list block) (st st' : state) (b : block) :
  run img nc bs = Ok st →
  b !! "type" = Some "route" →
  step img nc st (Z.of_nat (length bs)) b = Ok st' →
  ∃ s l0 rest start,
    b !! "layers" = Some s ∧ split_on "," s = l0 :: rest
    ∧ py_int l0 = Ok start
    ∧ - Z.of_nat (length bs) ≤ start < 0
    ∧ match rest with
      | [] => True
      | l1 :: _ => ∃ raw, py_int l1 = Ok raw ∧ 0 ≤ raw < Z.of_nat (length bs)
      end.
Proof.
  intros Hrun Hty H. apply run_cache_ok in Hrun as Hc.
  apply step_Ok in H as (st1 & H & _).
  rewrite (dispatch_type _ _ _ _ _ _ Hty) in H. simpl in H.
  unfold route_block in H.
  apply bind_Ok in H as (s & Hs & H). apply dict_get_Ok in Hs.
  apply bind_Ok in H as (start & Hstart & H).
  apply bind_Ok in Hstart as (l0 & Hl0 & Hstart).
  destruct (split_on "," s) as [| l0' rest] eqn:Hsp; [done |].
  injection Hl0 as ->.
  exists s, l0, rest, start. split; [done |]. split; [done |]. split; [done |].
  destruct rest as [| l1 rest].
  - simpl in H. ok_inv H. apply dict_get_Ok in E0.
    apply (cached_index _ _ _ _ Hc) in E0. split; [lia | done].
  - assert ((1 <? length (l0 :: l1 :: rest))%nat = true) as Hlen
      by (apply Nat.ltb_lt; simpl; lia).
    rewrite Hlen in H.
    apply bind_Ok in H as (raw & Hraw & H).
    apply bind_Ok in Hraw as (l1' & Hl1 & Hraw).
    assert (l1' = l1) as ->.
    { apply list_get_Ok in Hl1 as [[_ Hl1] | [? _]]; [| lia].
      by injection Hl1. }
    ok_inv H. apply dict_get_Ok in E2, E3.
    apply (cached_index _ _ _ _ Hc) in E2, E3.
    split; [lia |]. exists raw. split; [done | lia].
Qed.

Lemma route_reference_ranges_witness :
  ∃ s l0 rest start,
    route_pair !! "layers" = Some s ∧ split_on "," s = l0 :: rest
    ∧ py_int l0 = Ok start
    ∧ - Z.of_nat (length [conv_plain "4"; conv_plain "4"]) ≤ start < 0
    ∧ match rest with
      | [] => True
      | l1 :: _ =>
          ∃ raw, py_int l1 = Ok raw
                 ∧ 0 ≤ raw < Z.of_nat (length [conv_plain "4"; conv_plain "4"])
      end.
Proof.
  apply (route_reference_ranges img8 1 [conv_plain "4"; conv_plain "4"]
           (after [conv_plain "4"; conv_plain "4"])
           (after [conv_plain "4"; conv_plain "4"; route_pair]) route_pair).
  - apply after_Ok. vm_compute. reflexivity.
  - vm_compute. reflexivity.
  - apply (step_after [conv_plain "4"; conv_plain "4"] route_pair).
    vm_compute. reflexivity.
Defined.

(** X9: a route block whose first reference is not negative, or whose
    second reference is negative, raises [IndexError] when it reads the
    list of filter counts. *)
Theorem route_bad_reference_raises
    (img : tensor) (nc : Z) (bs : list block) (st : state) (b : block)
    (s l0 : string) (rest : list string) (start : Z) :
  run img nc bs = Ok st →
  b !! "type" = Some "route" →
  b !! "layers" = Some s → split_on "," s = l0 :: rest →
  py_int l0 = Ok start →
  match rest with
  | [] => 0 ≤ start
  | l1 :: _ => ∃ raw, py_int l1 = Ok raw ∧ (0 ≤ start ∨ raw < 0)
  end →
  step img nc st (Z.of_nat (length bs)) b = Raise IndexError.
Proof.
  intros Hrun Hty Hs Hsp Hstart Hbad. apply run_cache_ok in Hrun as Hc.
  pose proof (cache_filters_length _ _ Hc) as Hlen.
  unfold step. rewrite (dispatch_type _ _ _ _ _ _ Hty). simpl.
  destruct rest as [| l1 rest].
  - rewrite (route_block_one _ _ _ _ _ _ Hs Hsp Hstart).
    rewrite list_get_out by lia. done.
  - destruct Hbad as (raw & Hraw & Hbad).
    rewrite (route_block_two _ _ _ _ _ _ _ _ _ Hs Hsp Hstart Hraw).
    destruct (list_get (output_filters st) (Z.of_nat (length bs) + start))
      as [f1 | e] eqn:H1.
    + cbn [mbind result_bind]. destruct Hbad as [Hbad | Hbad].
      * rewrite list_get_out in H1 by lia. done.
      * rewrite list_get_out by lia. done.
    + apply list_get_raises in H1 as ->. done.
Qed.

Lemma route_bad_reference_raises_witness :
  step img8 1 (after [conv_plain "4"])
       (Z.of_nat (length [conv_plain "4"])) route_ahead
  = Raise IndexError.
Proof.
  apply (route_bad_reference_raises img8 1 [conv_plain "4"]
           (after [conv_plain "4"]) route_ahead "1" "1" [] 1).
  - apply after_Ok. vm_compute. reflexivity.
  - vm_compute. reflexivity.
  - vm_compute. reflexivity.
  - vm_compute. reflexivity.
  - vm_compute. reflexivity.
  - simpl. lia.
Defined.

(** ** The cache *)

Lemma walk_outputs_kept (img : tensor) (nc : Z) (bs : list block)
    (st st' : state) (i k : Z) :
  walk img nc st i bs = Ok st' → k < i → outputs st' !! k = outputs st !! k.
Proof.
  revert st i. induction bs as [| b bs IH]; intros st i; simpl.
  - by intros [= <-].
  - intros H Hk. ok_inv H. apply step_Ok in E as (st1 & E & ->).
    apply dispatch_frame in E as [Ho _].
    rewrite (IH _ _ H) by lia. simpl. rewrite Ho, lookup_insert_ne by lia.
    done.
Qed.

Lemma walk_filters_prefix (img : tensor) (nc : Z) (bs : list block)
    (st st' : state) (i : Z) :
  walk img nc st i bs = Ok st' →
  output_filters st `prefix_of` output_filters st'.
Proof.
  revert st i. induction bs as [| b bs IH]; intros st i; simpl.
  - by intros [= <-].
  - intros H. ok_inv H. apply step_Ok in E as (st1 & E & ->).
    apply dispatch_frame in E as [_ Hf]. apply IH in H. simpl in H.
    rewrite Hf in H. etrans; [| exact H]. by apply prefix_app_r.
Qed.

(** X10: the cache is complete and only grows: after [n] blocks it holds
    a tensor for each index from 0 to [n - 1] and for no other, and as
    many filter counts; what it holds for a layer is what was stored when
    that layer was walked, whatever blocks follow. *)
Theorem cache_complete_and_kept
    (img : tensor) (nc : Z) (bs1 bs2 : list block) (st1 st2 : state) :
  run img nc bs1 = Ok st1 →
  run img nc (bs1 ++ bs2) = Ok st2 →
  (∀ k, is_Some (outputs st2 !! k) ↔ 0 ≤ k < Z.of_nat (length (bs1 ++ bs2)))
  ∧ length (output_filters st2) = length (bs1 ++ bs2)
  ∧ (∀ k t, outputs st1 !! k = Some t → outputs st2 !! k = Some t)
  ∧ output_filters st1 `prefix_of` output_filters st2.
Proof.
  intros H1 H2. pose proof (run_cache_ok _ _ _ _ H1) as Hc1.
  pose proof (run_cache_ok _ _ _ _ H2) as Hc2.
  rewrite run_app, H1 in H2. cbn [mbind result_bind] in H2.
  split; [apply Hc2 |]. split; [apply Hc2 |]. split.
  - intros k t Hk. rewrite (walk_outputs_kept _ _ _ _ _ _ _ H2); [done |].
    apply (cached_index _ _ _ _ Hc1) in Hk. lia.
  - by eapply walk_filters_prefix.
Qed.

Lemma cache_complete_and_kept_witness :
  let st1 := after [conv_plain "4"] in
  let st2 := after ([conv_plain "4"] ++ [upsample_2; route_back2]) in
  (∀ k, is_Some (outputs st2 !! k)
        ↔ 0 ≤ k < Z.of_nat (length ([conv_plain "4"] ++ [upsample_2; route_back2])))
  ∧ length (output_filters st2)
    = length ([conv_plain "4"] ++ [upsample_2; route_back2])
  ∧ (∀ k t, outputs st1 !! k = Some t → outputs st2 !! k = Some t)
  ∧ output_filters st1 `prefix_of` output_filters st2.
Proof.
  apply (cache_complete_and_kept img8 1 [conv_plain "4"]
           [upsample_2; route_back2]).
  - apply after_Ok. vm_compute. reflexivity.
  - apply after_Ok. vm_compute. reflexivity.
Defined.

(** ** Any number of heads *)

Local Open Scope nat_scope.

Section Merged.
Context {R : Type} `{Numeric R} `{Kernels R}.

Lemma merge_heads_value (img0 : ndarray R) (bsz d : nat)
    (ps : list tensor) (vs : list (ndarray R)) :
  Forall2 (head_value_of img0 bsz d) ps vs →
  ∀ (a : tensor) (va : ndarray R),
    head_value_of img0 bsz d a va →
    ∃ out v, merge_heads (Some a) ps = Some out
      ∧ head_value_of img0 bsz d out v
      ∧ records_of v = records_of va + sum_list (records_of <$> vs)
      ∧ ∀ i, i < bsz →
          batch_block v i
          = batch_block va i ++ mjoin ((fun x => batch_block x i) <$> vs).
Proof.
  induction 1 as [| p v ps vs (Hp & Hwv & Hsv) _ IH];
    intros a va (Ha & Hwa & Hsa).
  - exists a, va. simpl. split; [done |]. split; [done |].
    split; [lia |]. intros i _. by rewrite app_nil_r.
  - destruct (nd_concat_batches bsz (records_of va) (records_of v) d va v
                Hsa Hsv Hwa Hwv) as (z & Hz & Hsz & Hwz & Hbz).
    assert (Hrz : records_of z = records_of va + records_of v)
      by (unfold records_of at 1; by rewrite Hsz).
    destruct (IH (TConcat [a; p] 1) z) as (out & w & Hout & Hw & Hrw & Hbw).
    { split; [| split; [done |]].
      - by rewrite (eval_concat2 img0 a p 1 va v Ha Hp).
      - by rewrite Hrz. }
    exists out, w. split; [done |]. split; [done |]. split.
    + rewrite Hrw, Hrz, fmap_cons. simpl. lia.
    + intros i Hi. rewrite Hbw, Hbz by done. rewrite fmap_cons.
      simpl. by rewrite <- app_assoc.
Qed.

End Merged.

(** X11: whatever the number of [yolo] blocks, the model's output is the
    predictions of the heads joined along the record axis in the order
    the blocks are met: as many heads as [yolo] blocks, no output when
    there is none, and otherwise, for every image, the records of the
    first head, then those of the second, and so on, their count the sum
    of the heads' counts. *)
Theorem heads_merged_in_order
    (img : tensor) (nc : Z) (bs : list block) (st : state) :
  run img nc bs = Ok st →
  ∃ ps,
    run_heads img nc bs = Ok ps
    ∧ length ps = length (filter (fun b => has_type b "yolo" = true) bs)
    ∧ out_pred st = merge_heads None ps
    ∧ (ps = [] → out_pred st = None)
    ∧ ∀ R (N : Numeric R) (K : Kernels R) (img0 : ndarray R)
        (vs : list (ndarray R)) (bsz d : nat),
        ps ≠ [] →
        Forall2 (head_value_of img0 bsz d) ps vs →
        ∃ out v, out_pred st = Some out
          ∧ head_value_of img0 bsz d out v
          ∧ records_of v = sum_list (records_of <$> vs)
          ∧ ∀ i, i < bsz →
              batch_block v i = mjoin ((fun x => batch_block x i) <$> vs).
Proof.
  intros Hrun.
  destruct (run_heads_merged _ _ _ _ Hrun) as (ps & Hps & Hl & Hout & _).
  exists ps. split; [done |]. split; [done |]. split; [done |]. split.
  - intros ->. done.
  - intros R N K img0 vs bsz d Hne Hvs.
    destruct Hvs as [| p v ps vs Hp Hvs]; [done |].
    destruct (merge_heads_value img0 bsz d ps vs Hvs p v Hp)
      as (out & w & Hm & Hw & Hrw & Hbw).
    exists out, w. split; [by rewrite Hout |]. split; [done |]. split.
    + rewrite Hrw, fmap_cons. done.
    + intros i Hi. rewrite Hbw by done. by rewrite fmap_cons.
Qed.

Lemma heads_merged_in_order_witness :
  ∃ ps,
    run_heads img8 1 three_heads = Ok ps
    ∧ length ps
      = length (filter (fun b => has_type b "yolo" = true) three_heads)
    ∧ out_pred (after three_heads) = merge_heads None ps
    ∧ (ps = [] → out_pred (after three_heads) = None)
    ∧ ∀ R (N : Numeric R) (K : Kernels R) (img0 : ndarray R)
        (vs : list (ndarray R)) (bsz d : nat),
        ps ≠ [] →
        Forall2 (head_value_of img0 bsz d) ps vs →
        ∃ out v, out_pred (after three_heads) = Some out
          ∧ head_value_of img0 bsz d out v
          ∧ records_of v = sum_list (records_of <$> vs)
          ∧ ∀ i, i < bsz →
              batch_block v i = mjoin ((fun x => batch_block x i) <$> vs).
Proof.
  apply (heads_merged_in_order img8 1 three_heads (after three_heads)).
  apply after_Ok. vm_compute. reflexivity.
Defined.

(** ** The other channels of a head *)

Lemma piece_lengths {A} (o : nat) (parts : list (nat * list A)) :
  Forall (fun p => (o + 1) * fst p ≤ length (snd p)) parts →
  length (mjoin ((fun p => take (fst p) (drop (o * fst p) (snd p))) <$> parts))
  = widths parts.
Proof.
  unfold widths. induction 1 as [| [w d] parts Hp _ IH]; [done |].
  change (length (take w (drop (o * w) d)
                  ++ mjoin ((fun p => take (fst p) (drop (o * fst p) (snd p)))
                            <$> parts))
          = w + sum_list (fst <$> parts)).
  rewrite length_app, IH, length_take, length_drop. simpl in Hp. lia.
Qed.

Lemma widths_app {A} (p1 p2 : list (nat * list A)) :
  widths (p1 ++ p2) = widths p1 + widths p2.
Proof.
  unfold widths. rewrite fmap_app.
  induction (fst <$> p1) as [| x l IH]; [done |]. simpl. rewrite IH. lia.
Qed.

(** An entry of any part of an interleaving. *)
Lemma interleave_lookup_part {A} (outer o c w : nat) (d : list A)
    (pre post : list (nat * list A)) :
  o < outer → c < w →
  Forall (fun p => outer * fst p ≤ length (snd p)) (pre ++ (w, d) :: post) →
  interleave outer (pre ++ (w, d) :: post)
    !! (o * widths (pre ++ (w, d) :: post) + (widths pre + c))
  = d !! (o * w + c).
Proof.
  intros Ho Hc Hp.
  pose proof (interleave_chunk outer o _ Ho Hp) as Hch.
  apply (f_equal (fun l => l !! (widths pre + c))) in Hch.
  assert (Hw : widths (pre ++ (w, d) :: post) = widths pre + (w + widths post)).
  { rewrite widths_app. unfold widths. by rewrite fmap_cons. }
  rewrite lookup_take_lt, lookup_drop in Hch by lia.
  rewrite Hch. rewrite fmap_app, fmap_cons.
  assert (Hall : ∀ q : list (nat * list A),
             Forall (fun p => outer * fst p ≤ length (snd p)) q →
             Forall (fun p => (o + 1) * fst p ≤ length (snd p)) q).
  { intros q Hq. eapply Forall_impl; [exact Hq |]. intros [w' d'] H'.
    simpl in *. assert ((o + 1) * w' ≤ outer * w')
      by (apply Nat.mul_le_mono_r; lia). lia. }
  apply Forall_app in Hp as [Hpre Hrest].
  rewrite join_app, lookup_app_r by (rewrite piece_lengths by eauto; lia).
  rewrite piece_lengths by eauto.
  replace (widths pre + c - widths pre) with c by lia.
  cbn [mjoin list_join fst snd].
  inversion Hrest as [| ? ? Hd _]; subst. simpl in Hd.
  assert ((o + 1) * w ≤ outer * w) by (apply Nat.mul_le_mono_r; lia).
  rewrite lookup_app_l by (rewrite length_take, length_drop; lia).
  by rewrite lookup_take_lt, lookup_drop.
Qed.

Lemma chunks_S {A} (count size : nat) (l : list A) :
  chunks (S count) size l = take size l :: chunks count size (drop size l).
Proof. done. Qed.

Lemma mjoin_chunks_id {A} (count size : nat) (l : list A) :
  length l ≤ count * size → mjoin (chunks count size l) = l.
Proof.
  revert l. induction count as [| count IH]; intros l Hl.
  - destruct l; [done | simpl in Hl; lia].
  - rewrite chunks_S. cbn [mjoin list_join].
    rewrite IH by (rewrite length_drop; lia). apply take_drop.
Qed.

Lemma fmap_cycle_1 {A} (ls : list (list A)) : cycle 1 <$> ls = ls.
Proof.
  induction ls as [| l ls IH]; [done |].
  by rewrite fmap_cons, IH, cycle_1.
Qed.

(** The anchors repeated for every cell: what the array holds. *)
Lemma tiled_anchors_data {A} (m : Z) (l : list (A * A)) (y : ndarray A) :
  nd_tile [m; 1]%Z (of_pairs l) = Some y →
  nd_data y = cycle (Z.to_nat m) (nd_data (of_pairs l)).
Proof.
  unfold nd_tile. case_bool_decide; [| done]. intros [= <-].
  cbn [fmap list_fmap tile_from]. change (Z.to_nat 1) with 1.
  pose proof (of_pairs_wf l) as Hw. unfold nd_wf in Hw.
  assert (Hp : prod_list (nd_shape (of_pairs l)) = length l * 2).
  { unfold of_pairs, prod_list. simpl. lia. }
  assert (H1 : nd_data (tile_axis 1 1 (of_pairs l)) = nd_data (of_pairs l)).
  { unfold tile_axis. cbn [nd_data]. rewrite fmap_cycle_1.
    apply mjoin_chunks_id. rewrite Hw.
    rewrite (prod_list_split 1 (nd_shape (of_pairs l))). done. }
  unfold tile_axis at 1. cbn [nd_data].
  change (take 0 (nd_shape (tile_axis 1 1 (of_pairs l)))) with (@nil nat).
  change (prod_list []) with 1. rewrite chunks_S. cbn [fmap list_fmap chunks].
  rewrite H1. cbn [mjoin list_join]. rewrite app_nil_r, take_ge; [done |].
  rewrite drop_0, Hw. unfold tile_axis, of_pairs. cbn [nd_shape].
  unfold prod_list. simpl. lia.
Qed.

Lemma pair_lookup {A} (l : list (A * A)) (q : nat) :
  nd_data (of_pairs l) !! q
  = l !! (q / 2) ≫= fun p => [fst p; snd p] !! (q mod 2).
Proof.
  unfold of_pairs. cbn [nd_data].
  rewrite (Nat.div_mod_eq q 2) at 1. rewrite (Nat.mul_comm 2).
  rewrite (mjoin_lookup_uniform _ 2).
  - rewrite list_lookup_fmap. by destruct (l !! (q / 2)).
  - apply Forall_fmap, Forall_forall. done.
  - apply Nat.mod_upper_bound. lia.
Qed.

(** Entry [c] of row [j] of the tiled anchors. *)
Lemma tiled_anchors_lookup {A} (m : Z) (l : list (A * A)) (y : ndarray A)
    (j c : nat) :
  nd_tile [m; 1]%Z (of_pairs l) = Some y →
  j < Z.to_nat m * length l → c < 2 →
  nd_data y !! (j * 2 + c)
  = l !! (j mod length l) ≫= fun p => [fst p; snd p] !! c.
Proof.
  intros Hy Hj Hc. rewrite (tiled_anchors_data _ _ _ Hy).
  pose proof (of_pairs_wf l) as Hw. unfold nd_wf, of_pairs in Hw.
  cbn [nd_shape] in Hw. unfold prod_list in Hw. simpl in Hw.
  assert (Hlen : length (nd_data (of_pairs l)) = length l * 2)
    by (unfold of_pairs; cbn [nd_data]; lia).
  assert (0 < length l) by lia.
  rewrite cycle_lookup_mod by (rewrite Hlen; nia).
  rewrite Hlen, pair_lookup.
  assert (Hq : (j * 2 + c) mod (length l * 2) = (j mod length l) * 2 + c).
  { rewrite (Nat.div_mod_eq j (length l)) at 1.
    replace ((length l * (j / length l) + j mod length l) * 2 + c)
      with (j mod length l * 2 + c + (j / length l) * (length l * 2)) by lia.
    rewrite Nat.Div0.mod_add. apply Nat.mod_small.
    pose proof (Nat.mod_upper_bound j (length l)). lia. }
  rewrite Hq. rewrite Nat.div_add_l, (Nat.div_small c 2), Nat.add_0_r by lia.
  rewrite Nat.add_comm, Nat.Div0.mod_add, Nat.mod_small by lia. done.
Qed.

Section HeadRest.
Context {R : Type} `{Numeric R} `{Kernels R}.

(** The channels of a record after the centre: the size, the objectness
    and the class scores. *)
Lemma head_value_rest (img : tensor) (nc : Z) (b : block) (t x p : tensor)
    (anchors : list (Z * Z)) (d1 d2 : Z) (img0 vt : ndarray R) :
  (0 ≤ nc)%Z →
  yolo_head img nc b t = Ok (x, p) →
  yolo_anchors b = Ok anchors →
  get_shape t !! 1 = Some (Some d1) → get_shape t !! 2 = Some (Some d2) →
  (0 < d1)%Z → (0 < d2)%Z →
  eval img0 t = Some vt → nd_wf vt →
  let na := length anchors in
  let n := na * Z.to_nat d1 * Z.to_nat d2 in
  let d := Z.to_nat (5 + nc) in
  length (nd_data vt) mod (n * d) = 0 →
  ∃ v, eval img0 p = Some v
    ∧ ∀ j c a, j < length (nd_data vt) / (n * d) * n → 2 ≤ c < d →
        nd_data vt !! (j * d + c) = Some a →
        nd_data v !! (j * d + c)
        = Some (if c <? 4
                then rmul (rexp a) (rofZ (anchor_component anchors j (c - 2)))
                else rsigmoid a).
Proof.
  intros Hnc Hhead Han Hd1 Hd2 Hp1 Hp2 Ht Hwt na n d Hmod.
  apply yolo_head_Ok in Hhead
    as (an' & d1' & d2' & ih & iw & tiled & cxy & Han' & Hd1' & Hd2'
        & _ & _ & _ & _ & Htile & Hcxy & -> & -> & _ & _).
  rewrite Han in Han'. injection Han' as <-.
  rewrite Hd1 in Hd1'. injection Hd1' as <-.
  rewrite Hd2 in Hd2'. injection Hd2' as <-.
  apply yolo_anchors_length in Han as (_ & _ & _ & Hna). fold na in Hna.
  set (h := Z.to_nat d1) in *. set (w := Z.to_nat d2) in *.
  set (B := length (nd_data vt) / (n * d)).
  assert (Hn : Z.to_nat (Z.of_nat na * d1 * d2) = n).
  { unfold n, h, w. rewrite !Z2Nat.inj_mul, Nat2Z.id by lia. done. }
  assert (Hd : 5 ≤ d) by (unfold d; lia).
  assert (Hnpos : 0 < n) by (unfold n, h, w; nia).
  (* the reshaped input *)
  set (vx := NDArray [B; n; d] (nd_data vt)).
  assert (Hx : eval img0 (TReshape t [-1; Z.of_nat na * d1 * d2; 5 + nc]%Z)
               = Some vx).
  { rewrite eval_reshape, Ht. cbn [mbind option_bind]. unfold nd_reshape.
    unfold nd_wf in Hwt. rewrite <- Hwt.
    rewrite resolve_records_ok; rewrite ?Hn; fold d; try done; nia. }
  assert (Hlen : length (nd_data vt) = B * (n * d)).
  { unfold B. rewrite (Nat.div_mod_eq (length (nd_data vt)) (n * d)) at 1.
    rewrite Hmod. lia. }
  assert (Hwx : nd_wf vx).
  { unfold nd_wf, vx. cbn [nd_shape nd_data]. rewrite prod_list_3. lia. }
  (* the four slices *)
  destruct (nd_slice2_records 0 2 B n d vx eq_refl Hwx) as (s0 & Hs0 & Hs0s & Hs0w & _);
    [lia | lia |].
  destruct (nd_slice2_records 2 4 B n d vx eq_refl Hwx) as (s1 & Hs1 & Hs1s & Hs1w & Hs1l);
    [lia | lia |].
  destruct (nd_slice2_records 4 5 B n d vx eq_refl Hwx) as (s2 & Hs2 & Hs2s & Hs2w & Hs2l);
    [lia | lia |].
  destruct (nd_slice2_records 5 (nc + 5) B n d vx eq_refl Hwx) as (s3 & Hs3 & Hs3s & Hs3w & Hs3l);
    [lia | unfold d; lia |].
  change (Z.to_nat (2 - 0)) with 2 in *. change (Z.to_nat (4 - 2)) with 2 in *.
  change (Z.to_nat (5 - 4)) with 1 in *.
  change (Z.to_nat 2) with 2 in *. change (Z.to_nat 4) with 4 in *.
  change (Z.to_nat 5) with 5 in *.
  replace (Z.to_nat (nc + 5 - 5)) with (Z.to_nat nc) in * by lia.
  (* the constants *)
  destruct (grid_offsets_spec d1 d2 (Z.of_nat na) ltac:(lia))
    as (cxy' & Hcxy' & Hcs & Hcw & _).
  assert (Some cxy' = Some cxy) as [= ->] by (by rewrite <- Hcxy, <- Hcxy').
  rewrite Nat2Z.id in Hcs. fold h w in Hcs.
  pose proof (tiled_anchors _ _ _ Htile) as [Hts Htw]. fold na in Hts.
  (* the centers *)
  destruct (nd_broadcast_ok radd (nd_map rsigmoid s0) (nd_map rofZ cxy))
    as (c1 & Hc1 & Hc1s & Hc1w & _).
  { cbn [nd_map nd_shape]. rewrite Hcs, Hs0s.
    replace (w * h * na) with n by (unfold n; lia). apply drop_ones_suffix_3. }
  { cbn [nd_map nd_shape]. rewrite Hcs, Hs0s. done. }
  { by apply nd_map_wf. }
  { by apply nd_map_wf. }
  destruct (nd_broadcast_ok rmul c1 (nd_map rofZ (NDArray [2] [ih / d1; iw / d2]%Z)))
    as (c2 & Hc2 & Hc2s & Hc2w & _).
  { cbn [nd_map nd_shape] in *. rewrite Hc1s, Hs0s. apply drop_ones_suffix_1. }
  { cbn [nd_map nd_shape] in *. rewrite Hc1s, Hs0s. simpl. lia. }
  { done. }
  { done. }
  (* the sizes *)
  assert (Hm : Z.to_nat (d1 * d2) * na = n)
    by (unfold n, h, w; rewrite Z2Nat.inj_mul by lia; lia).
  destruct (nd_broadcast_ok rmul (nd_map rexp s1) (nd_map rofZ tiled))
    as (z1 & Hz1 & Hz1s & Hz1w & Hz1l).
  { cbn [nd_map nd_shape]. rewrite Hts, Hs1s, Hm. apply drop_ones_suffix_2. }
  { cbn [nd_map nd_shape]. rewrite Hts, Hs1s. simpl. lia. }
  { by apply nd_map_wf. }
  { by apply nd_map_wf. }
  (* the prediction *)
  destruct (nd_concat_records_ok B n
              [c2; z1; nd_map rsigmoid s2; nd_map rsigmoid s3]
              [2; 2; 1; Z.to_nat nc])
    as (v & Hv & Hvs & Hvd & Hvw); [done | |].
  { cbn [nd_map nd_shape] in *.
    repeat (constructor; [split |]); try (by constructor);
      cbn [nd_map nd_shape]; try (by apply nd_map_wf); try done; congruence. }
  exists v. split.
  { fold na. erewrite eval_concat4; [exact Hv | | | |].
    - rewrite eval_centers, Hx. cbn [mbind option_bind].
      rewrite Hs0. cbn [mbind option_bind]. rewrite Hc1. exact Hc2.
    - rewrite eval_sizes, Hx. cbn [mbind option_bind].
      rewrite Hs1. exact Hz1.
    - rewrite eval_objectness, Hx. cbn [mbind option_bind]. by rewrite Hs2.
    - rewrite eval_classes, Hx. cbn [mbind option_bind]. by rewrite Hs3. }
  intros j c a Hj Hc Ha. rewrite Hvd.
  cbn [fmap list_fmap nd_map nd_shape nd_data] in *.
  rewrite Hc2s, Hc1s, Hs0s, Hz1s, Hs1s, Hs2s, Hs3s. cbn [lookup list_lookup default].
  unfold id.
  set (pc := (2, nd_data c2)). set (pz := (2, nd_data z1)).
  set (po := (1, rsigmoid <$> nd_data s2)).
  set (pk := (Z.to_nat nc, rsigmoid <$> nd_data s3)).
  assert (Hall : Forall (fun q : nat * list R => B * n * fst q ≤ length (snd q))
                        [pc; pz; po; pk]).
  { unfold nd_wf in *. cbn [nd_shape nd_data] in *.
    rewrite Hc2s, Hc1s, Hs0s, prod_list_3 in Hc2w.
    rewrite Hz1s, Hs1s, prod_list_3 in Hz1w.
    rewrite Hs2s, prod_list_3 in Hs2w. rewrite Hs3s, prod_list_3 in Hs3w.
    unfold pc, pz, po, pk.
    repeat (constructor; [cbn [fst snd]; rewrite ?length_fmap; lia |]).
    constructor. }
  assert (Hdd : d = 5 + Z.to_nat nc) by (unfold d; lia).
  destruct (Nat.ltb_spec c 4) as [Hc4 | Hc4].
  - (* a size *)
    assert (Hi : j * widths ([pc] ++ pz :: [po; pk]) + (widths [pc] + (c - 2))
                 = j * d + c)
      by (unfold widths, pc, pz, po, pk; simpl; lia).
    rewrite <- Hi.
    etrans; [exact (interleave_lookup_part (B * n) j (c - 2) 2 (nd_data z1)
                      [pc] [po; pk] Hj ltac:(lia) Hall) |].
    assert (Hsl : nd_data s1 !! (j * 2 + (c - 2)) = Some a).
    { rewrite Hs1l by lia. cbn [nd_data vx]. rewrite <- Ha. f_equal. lia. }
    destruct (Hz1l (j * 2 + (c - 2)) (rexp a)) as (g & Hg & ->).
    { by rewrite list_lookup_fmap, Hsl. }
    do 2 f_equal.
    rewrite length_fmap in Hg. unfold nd_wf in Htw. rewrite Htw, Hts, Hm in Hg.
    assert (Hpr : prod_list [n; 2] = n * 2) by (unfold prod_list; simpl; lia).
    rewrite Hpr in Hg.
    assert (Hq : (j * 2 + (c - 2)) mod (n * 2) = (j mod n) * 2 + (c - 2)).
    { rewrite (Nat.div_mod_eq j n) at 1.
      replace ((n * (j / n) + j mod n) * 2 + (c - 2))
        with (j mod n * 2 + (c - 2) + (j / n) * (n * 2)) by lia.
      rewrite Nat.Div0.mod_add. apply Nat.mod_small.
      pose proof (Nat.mod_upper_bound j n). lia. }
    rewrite Hq, list_lookup_fmap in Hg.
    rewrite (tiled_anchors_lookup _ _ _ _ _ Htile) in Hg.
    + fold na in Hg. unfold anchor_component. fold na.
      assert (Hjn : (j mod n) mod na = j mod na).
      { unfold n. rewrite <- Nat.mul_assoc. rewrite Nat.Div0.mod_mul_r.
        rewrite (Nat.mul_comm na ((j / na) mod (h * w))), Nat.Div0.mod_add.
        apply Nat.Div0.mod_mod. }
      rewrite Hjn in Hg. destruct (anchors !! (j mod na)) as [[aw ah] |];
        [| done].
      cbn [mbind option_bind fmap option_fmap option_map fst snd] in Hg.
      destruct (c - 2) as [| [| ?]] eqn:Hc2'; [| | lia]; simpl in Hg;
        by injection Hg as <-.
    + fold na. rewrite Hm. apply Nat.mod_upper_bound. lia.
    + lia.
  - destruct (decide (c = 4)) as [-> | Hc5].
    + (* the objectness *)
      assert (Hi : j * widths ([pc; pz] ++ po :: [pk]) + (widths [pc; pz] + 0)
                   = j * d + 4)
        by (unfold widths, pc, pz, po, pk; simpl; lia).
      rewrite <- Hi.
      etrans; [exact (interleave_lookup_part (B * n) j 0 1
                        (rsigmoid <$> nd_data s2)
                        [pc; pz] [pk] Hj ltac:(lia) Hall) |].
      rewrite list_lookup_fmap.
      rewrite Hs2l by lia. cbn [nd_data vx].
      replace (j * d + 4 + 0) with (j * d + 4) by lia. by rewrite Ha.
    + (* a class score *)
      assert (Hi : j * widths ([pc; pz; po] ++ pk :: [])
                   + (widths [pc; pz; po] + (c - 5))
                   = j * d + c)
        by (unfold widths, pc, pz, po, pk; simpl; lia).
      rewrite <- Hi.
      etrans; [exact (interleave_lookup_part (B * n) j (c - 5) (Z.to_nat nc)
                        (rsigmoid <$> nd_data s3)
                        [pc; pz; po] [] Hj ltac:(lia) Hall) |].
      rewrite list_lookup_fmap. rewrite Hs3l by lia. cbn [nd_data vx].
      replace (j * d + 5 + (c - 5)) with (j * d + c) by lia. by rewrite Ha.
Qed.

End HeadRest.

Lemma record_lookup {A} (d j c : nat) (x : ndarray A) :
  c < d → record d j x !! c = nd_data x !! (j * d + c).
Proof.
  intros Hc. unfold record. by rewrite lookup_take_lt, lookup_drop.
Qed.

(** X12: in a head's prediction channels 2 and 3 of a record are the
    exponentials of the two raw sizes, each times the component of the
    anchor of the record; the records of a cell take the anchors the
    mask selects in turn. *)
Theorem box_size_decode
    (R : Type) (N : Numeric R) (K : Kernels R)
    (img : tensor) (nc : Z) (b : block) (t x p : tensor)
    (anchors : list (Z * Z)) (d1 d2 : Z) (img0 vt : ndarray R) :
  (0 ≤ nc)%Z →
  yolo_head img nc b t = Ok (x, p) →
  yolo_anchors b = Ok anchors →
  get_shape t !! 1 = Some (Some d1) → get_shape t !! 2 = Some (Some d2) →
  (0 < d1)%Z → (0 < d2)%Z →
  eval img0 t = Some vt → nd_wf vt →
  let na := length anchors in
  let cells := Z.to_nat d1 * Z.to_nat d2 in
  let n := na * Z.to_nat d1 * Z.to_nat d2 in
  let d := Z.to_nat (5 + nc) in
  length (nd_data vt) mod (n * d) = 0 →
  ∃ v, eval img0 p = Some v
    ∧ ∀ i cell k aw ah raw_w raw_h,
        i < length (nd_data vt) / (n * d) → cell < cells →
        anchors !! k = Some (aw, ah) →
        let j := i * n + cell * na + k in
        record d j vt !! 2 = Some raw_w →
        record d j vt !! 3 = Some raw_h →
        take 2 (drop 2 (record d j v))
        = [rmul (rexp raw_w) (rofZ aw); rmul (rexp raw_h) (rofZ ah)].
Proof.
  intros Hnc Hhead Han Hd1 Hd2 Hp1 Hp2 Ht Hwt na cells n d Hmod.
  destruct (head_value_rest img nc b t x p anchors d1 d2 img0 vt)
    as (v & Hv & Hl); try done.
  fold na n d in Hl. exists v. split; [done |].
  intros i cell k aw ah rw rh Hi Hcell Hk j Hrw Hrh.
  assert (Hd : 5 ≤ d) by (unfold d; lia).
  assert (Hkn : k < na) by (by apply lookup_lt_Some in Hk).
  assert (Hn : n = cells * na) by (unfold n, cells; lia).
  assert (Hr : cell * na + k < n).
  { assert (Hc1 : cell + 1 ≤ cells) by lia.
    apply (Nat.mul_le_mono_r _ _ na) in Hc1. lia. }
  assert (Hj : j < length (nd_data vt) / (n * d) * n).
  { assert (Hi1 : (i + 1) * n ≤ length (nd_data vt) / (n * d) * n)
      by (apply Nat.mul_le_mono_r; lia).
    unfold j. lia. }
  assert (Hjk : j mod na = k).
  { unfold j. rewrite Hn.
    replace (i * (cells * na) + cell * na + k)
      with (k + (i * cells + cell) * na) by lia.
    rewrite Nat.Div0.mod_add. by apply Nat.mod_small. }
  rewrite record_lookup in Hrw, Hrh by lia.
  pose proof (Hl j 2 rw Hj ltac:(lia) Hrw) as H2.
  pose proof (Hl j 3 rh Hj ltac:(lia) Hrh) as H3.
  unfold anchor_component in H2, H3. fold na in H2, H3.
  rewrite Hjk, Hk in H2, H3. simpl in H2, H3.
  apply take2_lookup; rewrite record_lookup by lia; [done |].
  by replace (j * d + (2 + 1)) with (j * d + 3) by lia.
Qed.

Lemma box_size_decode_witness :
  ∃ v, eval (H := Q_demo) (H0 := zero_kernels) black (snd head_128) = Some v
       ∧ take 2 (drop 2 (record 6 14 v))
         = [(exp_1st 0 * inject_Z 10)%Q; (exp_1st 0 * inject_Z 13)%Q].
Proof.
  destruct (box_size_decode Q Q_demo zero_kernels img128 1 (yolo_of "0")
              head_input (fst head_128) (snd head_128) [(10, 13)%Z]
              4 4 black (zeros [1; 4; 4; 6]))
    as (v & Hv & Hdec).
  - lia.
  - exact head_128_Ok.
  - vm_compute. reflexivity.
  - vm_compute. reflexivity.
  - vm_compute. reflexivity.
  - lia.
  - lia.
  - vm_compute. reflexivity.
  - vm_compute. reflexivity.
  - vm_compute. reflexivity.
  - exists v. split; [exact Hv |].
    apply (Hdec 0 14 0 10%Z 13%Z 0%Q 0%Q); try (vm_compute; lia);
      vm_compute; reflexivity.
Defined.

(** X13: in a head's prediction channel 4 of a record, the objectness,
    and the channels from 5 on, the class scores, are the sigmoids of the
    raw values at the same places. *)
Theorem scores_decode
    (R : Type) (N : Numeric R) (K : Kernels R)
    (img : tensor) (nc : Z) (b : block) (t x p : tensor)
    (anchors : list (Z * Z)) (d1 d2 : Z) (img0 vt : ndarray R) :
  (0 ≤ nc)%Z →
  yolo_head img nc b t = Ok (x, p) →
  yolo_anchors b = Ok anchors →
  get_shape t !! 1 = Some (Some d1) → get_shape t !! 2 = Some (Some d2) →
  (0 < d1)%Z → (0 < d2)%Z →
  eval img0 t = Some vt → nd_wf vt →
  let n := length anchors * Z.to_nat d1 * Z.to_nat d2 in
  let d := Z.to_nat (5 + nc) in
  length (nd_data vt) mod (n * d) = 0 →
  ∃ v, eval img0 p = Some v
    ∧ ∀ j c raw,
        j < length (nd_data vt) / (n * d) * n → 4 ≤ c < d →
        record d j vt !! c = Some raw →
        record d j v !! c = Some (rsigmoid raw).
Proof.
  intros Hnc Hhead Han Hd1 Hd2 Hp1 Hp2 Ht Hwt n d Hmod.
  destruct (head_value_rest img nc b t x p anchors d1 d2 img0 vt)
    as (v & Hv & Hl); try done.
  fold n d in Hl. exists v. split; [done |].
  intros j c raw Hj Hc Hraw.
  rewrite record_lookup in Hraw |- * by lia.
  rewrite (Hl j c raw Hj ltac:(lia) Hraw).
  destruct (Nat.ltb_spec c 4); [lia | done].
Qed.

Lemma scores_decode_witness :
  ∃ v, eval (H := Q_demo) (H0 := zero_kernels) black (snd head_128) = Some v
       ∧ record 6 14 v !! 4 = Some (sigmoid_of exp_1st 0)
       ∧ record 6 14 v !! 5 = Some (sigmoid_of exp_1st 0).
Proof.
  destruct (scores_decode Q Q_demo zero_kernels img128 1 (yolo_of "0")
              head_input (fst head_128) (snd head_128) [(10, 13)%Z]
              4 4 black (zeros [1; 4; 4; 6]))
    as (v & Hv & Hdec).
  - lia.
  - exact head_128_Ok.
  - vm_compute. reflexivity.
  - vm_compute. reflexivity.
  - vm_compute. reflexivity.
  - lia.
  - lia.
  - vm_compute. reflexivity.
  - vm_compute. reflexivity.
  - vm_compute. reflexivity.
  - exists v. split; [exact Hv |].
    split; apply (Hdec 14 _ 0%Q); try (vm_compute; lia);
      vm_compute; reflexivity.
Defined.

(** ** The anchors of a head *)

Local Open Scope Z_scope.

Lemma rmapM_lookup {A B} (f : A → result B) (l : list A) (l' : list B)
    (j : nat) (y : B) :
  rmapM f l = Ok l' → l' !! j = Some y → ∃ x, l !! j = Some x ∧ f x = Ok y.
Proof.
  revert l' j. induction l as [| a l IH]; intros l' j; simpl.
  - by intros [= <-].
  - intros Hl. ok_inv Hl. injection Hl as <-. destruct j as [| j]; simpl.
    + intros [= <-]. eauto.
    + intros Hj. by apply (IH x0).
Qed.

Lemma rmapM_raise {A B} (f : A → result B) (l1 l2 : list A) (x : A) (e : exn) :
  Forall (fun y => ∃ z, f y = Ok z) l1 → f x = Raise e →
  rmapM f (l1 ++ x :: l2) = Raise e.
Proof.
  intros Hl1 Hx. induction Hl1 as [| y l1 [z Hz] _ IH]; simpl.
  - by rewrite Hx.
  - rewrite Hz. simpl. by rewrite IH.
Qed.

Lemma range_by_2_lookup (n j : nat) (k : Z) :
  range_by_2 n !! j = Some k → k = 2 * Z.of_nat j ∧ (2 * j < n + 1)%nat.
Proof.
  unfold range_by_2. rewrite list_lookup_fmap.
  destruct (seq 0 ((n + 1) / 2) !! j) as [m |] eqn:Hm; [| done].
  apply lookup_seq in Hm as [-> Hj]. intros [= <-]. split; [done |].
  pose proof (Nat.Div0.mul_div_le (n + 1) 2). simpl in *. lia.
Qed.

Lemma range_by_2_length (n : nat) : length (range_by_2 n) = ((n + 1) / 2)%nat.
Proof. unfold range_by_2. by rewrite length_fmap, length_seq. Qed.

(** X14: the anchors of a head are read off the list of anchor values in
    pairs: the anchor the [j]-th entry [m] of the mask selects is the
    pair of the values at [2m] and [2m + 1]; the head has as many anchors
    as the mask has entries. *)
Theorem anchors_selected (b : block) (sel : list (Z * Z)) :
  yolo_anchors b = Ok sel →
  ∃ mask anchors ms vals,
    b !! "mask" = Some mask ∧ b !! "anchors" = Some anchors
    ∧ rmapM py_int (split_on "," mask) = Ok ms
    ∧ rmapM py_int (split_on "," anchors) = Ok vals
    ∧ length sel = length ms
    ∧ ∀ j m p, ms !! j = Some m → sel !! j = Some p → 0 ≤ m →
        vals !! Z.to_nat (2 * m) = Some (fst p)
        ∧ vals !! Z.to_nat (2 * m + 1) = Some (snd p).
Proof.
  unfold yolo_anchors. intros H.
  apply bind_Ok in H as (mask & Hm & H). apply dict_get_Ok in Hm.
  apply bind_Ok in H as (ms & Hms & H).
  apply bind_Ok in H as (anchors & Ha & H). apply dict_get_Ok in Ha.
  apply bind_Ok in H as (vals & Hvals & H).
  apply bind_Ok in H as (pairs & Hpairs & H).
  exists mask, anchors, ms, vals. do 4 (split; [done |]).
  split; [by apply rmapM_length in H |].
  intros j m p Hj Hp Hm0.
  destruct (rmapM_lookup _ _ _ _ _ H Hp) as (m' & Hj' & Hget).
  rewrite Hj in Hj'. injection Hj' as <-.
  apply list_get_direct in Hget; [| done].
  destruct (rmapM_lookup _ _ _ _ _ Hpairs Hget) as (k & Hk & Hpair).
  apply range_by_2_lookup in Hk as [-> _]. rewrite Z2Nat.id in Hpair by done.
  apply bind_Ok in Hpair as (a & Ha1 & Hpair).
  apply bind_Ok in Hpair as (a' & Ha2 & Hpair). injection Hpair as <-.
  apply list_get_direct in Ha1, Ha2; try lia. done.
Qed.

Lemma anchors_selected_witness :
  ∃ mask anchors ms vals,
    yolo_of "2,0" !! "mask" = Some mask
    ∧ yolo_of "2,0" !! "anchors" = Some anchors
    ∧ rmapM py_int (split_on "," mask) = Ok ms
    ∧ rmapM py_int (split_on "," anchors) = Ok vals
    ∧ length [(33, 23); (10, 13)] = length ms
    ∧ ∀ j m p, ms !! j = Some m → [(33, 23); (10, 13)] !! j = Some p → 0 ≤ m →
        vals !! Z.to_nat (2 * m) = Some (fst p)
        ∧ vals !! Z.to_nat (2 * m + 1) = Some (snd p).
Proof.
  apply (anchors_selected (yolo_of "2,0") [(33, 23); (10, 13)]).
  vm_compute. reflexivity.
Defined.

(** Building the pair of the last of an odd number of anchor values
    raises. *)
Lemma odd_anchors_raise
    (b : block) (mask anchors : string) (ms vals : list Z) :
  b !! "mask" = Some mask → b !! "anchors" = Some anchors →
  rmapM py_int (split_on "," mask) = Ok ms →
  rmapM py_int (split_on "," anchors) = Ok vals →
  Nat.Odd (length vals) →
  yolo_anchors b = Raise IndexError.
Proof.
  intros Hm Ha Hms Hvals [q Hq]. unfold yolo_anchors, dict_get.
  rewrite Hm. cbn [of_option mbind result_bind]. rewrite Hms.
  cbn [mbind result_bind]. rewrite Ha. cbn [of_option mbind result_bind].
  rewrite Hvals. cbn [mbind result_bind].
  assert (Hr : range_by_2 (length vals)
               = ((fun k => 2 * Z.of_nat k) <$> seq 0 q) ++ [2 * Z.of_nat q]).
  { unfold range_by_2. rewrite Hq.
    replace ((2 * q + 1 + 1) / 2)%nat with (q + 1)%nat.
    - by rewrite seq_app, fmap_app.
    - replace (2 * q + 1 + 1)%nat with ((q + 1) * 2)%nat by lia.
      by rewrite Nat.div_mul. }
  rewrite Hr, (rmapM_raise _ _ _ _ IndexError); [done | |].
  - apply Forall_fmap, Forall_forall. intros k [_ Hk]%elem_of_seq. simpl.
    destruct (lookup_lt_is_Some_2 vals (2 * k)%nat) as [a Ha1]; [lia |].
    destruct (lookup_lt_is_Some_2 vals (2 * k + 1)%nat) as [a' Ha2]; [lia |].
    exists (a, a').
    assert (list_get vals (2 * Z.of_nat k) = Ok a) as ->.
    { apply list_get_Ok. left. split; [lia |].
      by replace (Z.to_nat (2 * Z.of_nat k)) with (2 * k)%nat by lia. }
    assert (list_get vals (2 * Z.of_nat k + 1) = Ok a') as ->.
    { apply list_get_Ok. left. split; [lia |].
      by replace (Z.to_nat (2 * Z.of_nat k + 1)) with (2 * k + 1)%nat by lia. }
    done.
  - destruct (lookup_lt_is_Some_2 vals (2 * q)%nat) as [a Ha1]; [lia |].
    assert (list_get vals (2 * Z.of_nat q) = Ok a) as ->.
    { apply list_get_Ok. left. split; [lia |].
      by replace (Z.to_nat (2 * Z.of_nat q)) with (2 * q)%nat by lia. }
    cbn [mbind result_bind]. rewrite list_get_out by lia. done.
Qed.

(** X15: a [yolo] block whose list of anchor values has an odd length
    raises [IndexError] when it is walked, whatever the state, the image
    and the mask: the pair of the last value is built before anything is
    read from the current tensor. *)
Theorem odd_anchor_list_raises
    (img : tensor) (nc : Z) (st : state) (i : Z)
    (b : block) (mask anchors : string) (ms vals : list Z) :
  b !! "type" = Some "yolo" →
  b !! "mask" = Some mask → b !! "anchors" = Some anchors →
  rmapM py_int (split_on "," mask) = Ok ms →
  rmapM py_int (split_on "," anchors) = Ok vals →
  Nat.Odd (length vals) →
  step img nc st i b = Raise IndexError.
Proof.
  intros Hty Hm Ha Hms Hvals Hodd. unfold step.
  rewrite (dispatch_type _ _ _ _ _ _ Hty). simpl.
  unfold yolo_block, yolo_head.
  by rewrite (odd_anchors_raise b mask anchors ms vals).
Qed.

Lemma odd_anchor_list_raises_witness :
  step img8 1 (after [conv_plain "6"]) 1 yolo_odd = Raise IndexError.
Proof.
  apply (odd_anchor_list_raises img8 1 (after [conv_plain "6"]) 1
           yolo_odd "0" "10,13,  16" [0] [10; 13; 16]).
  - vm_compute. reflexivity.
  - vm_compute. reflexivity.
  - vm_compute. reflexivity.
  - vm_compute. reflexivity.
  - vm_compute. reflexivity.
  - exists 1%nat. reflexivity.
Defined.

(** ** The shapes of the layers *)

Local Open Scope Z_scope.

Lemma shape_of_wrapped (leaky bn : bool) (alpha : Q) (n1 n2 : string) (t : tensor) :
  shape_of (if leaky
            then TLeakyReLU alpha n1 (if bn then TBatchNormalization n2 t else t)
            else if bn then TBatchNormalization n2 t else t)
  = shape_of t.
Proof. by destruct leaky, bn. Qed.

Lemma shape_of_strided (f k s : Z) (name : string) (bias : bool) (t : tensor)
    (bd c : option Z) (h w : Z) (r : sshape) :
  shape_of t = Some [bd; Some h; Some w; c] →
  shape_of (TConv2D f k s (if 1 <? s then Valid else Same) name bias
              (if 1 <? s then TZeroPadding2D 1 0 1 0 t else t)) = Some r →
  0 < f ∧ 0 < k ∧ 0 < s
  ∧ r = [bd; Some (conv_grid k s h); Some (conv_grid k s w); Some f].
Proof.
  intros Hsh Hr. cbn [shape_of] in Hr. unfold conv_grid.
  destruct (Z.ltb_spec 1 s) as [Hst | Hst].
  - cbn [shape_of] in Hr. rewrite Hsh in Hr.
    cbn [fmap option_fmap option_map] in Hr.
    destruct c as [c |]; [| done].
    destruct (Z.ltb_spec 0 f); [| done]. destruct (Z.ltb_spec 0 k); [| done].
    destruct (Z.ltb_spec 0 s); [| lia]. cbn [andb conv_dim] in Hr.
    destruct (k <=? 1 + 0 + h); [| done]. cbn [mbind option_bind] in Hr.
    destruct (k <=? 1 + 0 + w); [| done]. cbn [mbind option_bind] in Hr.
    injection Hr as <-. do 3 (split; [done |]).
    replace (1 + 0 + h - k) with (h + 1 - k) by lia.
    by replace (1 + 0 + w - k) with (w + 1 - k) by lia.
  - rewrite Hsh in Hr. destruct c as [c |]; [| done].
    destruct (Z.ltb_spec 0 f); [| done]. destruct (Z.ltb_spec 0 k); [| done].
    destruct (Z.ltb_spec 0 s); [| done].
    cbn [andb conv_dim mbind option_bind] in Hr.
    injection Hr as <-. do 3 (split; [done |]).
    assert (s = 1) as -> by lia.
    replace (h + 1 - 1) with h by lia. replace (w + 1 - 1) with w by lia.
    by rewrite !Z.div_1_r.
Qed.

(** X16: a convolutional block on a grid of [h] by [w] cells leaves a
    grid of [conv_grid] cells along each axis, with as many channels as
    the block has filters, which is also the filter count it records;
    with stride 1 the grid is kept, whatever the kernel size. *)
Theorem conv_output_shape
    (img : tensor) (nc : Z) (st st' : state) (i : Z) (b : block)
    (bd c : option Z) (h w : Z) :
  b !! "type" = Some "convolutional" →
  step img nc st i b = Ok st' →
  shape_of (inputs st) = Some [bd; Some h; Some w; c] →
  ∃ f k s,
    attr_int b "filters" = Ok f ∧ attr_int b "size" = Ok k
    ∧ attr_int b "stride" = Ok s
    ∧ 0 < f ∧ 0 < k ∧ 0 < s
    ∧ shape_of (inputs st')
      = Some [bd; Some (conv_grid k s h); Some (conv_grid k s w); Some f]
    ∧ output_filters st' = output_filters st ++ [FInt f]
    ∧ (s = 1 → conv_grid k s h = h ∧ conv_grid k s w = w).
Proof.
  intros Hty H Hsh. apply step_Ok in H as (st1 & H & ->).
  rewrite (dispatch_type _ _ _ _ _ _ Hty) in H. simpl in H.
  unfold conv_block in H.
  apply bind_Ok in H as (act & _ & H).
  apply bind_Ok in H as (f & Hf & H).
  apply bind_Ok in H as (k & Hk & H).
  apply bind_Ok in H as (s & Hs & H).
  apply bind_Ok in H as (x1 & Hx1 & H). apply if_lib_Ok in Hx1 as [-> _].
  apply bind_Ok in H as (x2 & Hx2 & H). apply lib_Ok in Hx2 as [-> [r Hr]].
  apply bind_Ok in H as (x3 & Hx3 & H). apply if_lib_Ok in Hx3 as [-> _].
  apply bind_Ok in H as (x4 & Hx4 & H). apply if_lib_Ok in Hx4 as [-> _].
  injection H as <-. exists f, k, s. do 3 (split; [done |]).
  cbn [inputs output_filters record_layer filters].
  rewrite shape_of_wrapped, Hr.
  apply (shape_of_strided _ _ _ _ _ _ _ _ _ _ _ Hsh) in Hr
    as (? & ? & ? & ->).
  do 5 (split; [done |]). intros ->. by unfold conv_grid.
Qed.

Lemma conv_output_shape_witness :
  ∃ f k s,
    attr_int conv_down "filters" = Ok f ∧ attr_int conv_down "size" = Ok k
    ∧ attr_int conv_down "stride" = Ok s
    ∧ 0 < f ∧ 0 < k ∧ 0 < s
    ∧ shape_of (inputs (after [conv_down]))
      = Some [None; Some (conv_grid k s 8); Some (conv_grid k s 8); Some f]
    ∧ output_filters (after [conv_down]) = output_filters (after []) ++ [FInt f]
    ∧ (s = 1 → conv_grid k s 8 = 8 ∧ conv_grid k s 8 = 8).
Proof.
  apply (conv_output_shape img8 1 (after []) (after [conv_down]) 0 conv_down
           None (Some 3) 8 8).
  - vm_compute. reflexivity.
  - apply (step_after [] conv_down). vm_compute. reflexivity.
  - vm_compute. reflexivity.
Defined.

Lemma resolve_shape_length (total : nat) (target : list Z) (r : list nat) :
  resolve_shape total target = Some r → length r = length target.
Proof.
  unfold resolve_shape. case_bool_decide; [| done].
  destruct (length (filter _ target)) as [| [| ?]]; [| | done].
  - destruct (_ =? _)%nat; [| done]. intros [= <-]. by rewrite length_fmap.
  - destruct (_ && _); [| done]. intros [= <-]. by rewrite length_fmap.
Qed.

Lemma reshape_shape_length (s r : sshape) (target : list Z) :
  reshape_shape s target = Some r → length r = length target.
Proof.
  unfold reshape_shape. case_bool_decide; [| done].
  destruct (all_known s) as [dims |].
  - case_bool_decide; [| done].
    destruct (resolve_shape _ target) as [r0 |] eqn:Hr; [| done].
    intros [= <-]. rewrite length_fmap. by apply resolve_shape_length in Hr.
  - intros [= <-]. by rewrite length_fmap.
Qed.

Lemma lib_raise (t : tensor) : shape_of t = None → lib t = Raise LibError.
Proof. unfold lib. by intros ->. Qed.

(** X17: a [yolo] block leaves its reshaped input, of three dimensions,
    as the current tensor: a convolutional or an upsample block right
    after it, at an index [str] can write, raises inside the library,
    whatever its attributes. *)
Theorem layer_after_yolo_raises
    (img : tensor) (nc : Z) (st st1 : state) (i : Z) (b b' : block) :
  b !! "type" = Some "yolo" →
  step img nc st i b = Ok st1 →
  layer_reads b' = true →
  str_fits (i + 1) = true →
  (∃ s, shape_of (inputs st1) = Some s ∧ length s = 3%nat)
  ∧ outputs st1 !! i = Some (inputs st1)
  ∧ step img nc st1 (i + 1) b' = Raise LibError.
Proof.
  intros Hty H Hb' _. apply step_Ok in H as (st2 & H & ->).
  rewrite (dispatch_type _ _ _ _ _ _ Hty) in H. simpl in H.
  unfold yolo_block in H. apply bind_Ok in H as ([x p] & Hh & H).
  assert (Hin : inputs st2 = x).
  { destruct (negb _); ok_inv H; by injection H as <-. }
  apply yolo_head_Ok in Hh
    as (? & ? & ? & ? & ? & ? & ? & _ & _ & _ & _ & _ & _ & _ & _ & _
        & Hx & _ & [s Hs] & _).
  assert (Hlen : length s = 3%nat).
  { rewrite Hx in Hs. cbn [shape_of] in Hs.
    destruct (shape_of (inputs st)) as [s0 |]; [| done].
    cbn [mbind option_bind] in Hs. by apply reshape_shape_length in Hs. }
  cbn [inputs record_layer outputs]. rewrite Hin.
  split; [eauto |]. split; [apply lookup_insert_eq |].
  destruct s as [| d0 [| d1 [| d2 [| ? ?]]]]; try done.
  unfold layer_reads in Hb'. unfold step.
  apply orb_true_iff in Hb' as [Hc | Hu].
  - apply andb_prop in Hc as [[[[Hc Ha]%andb_prop Hf]%andb_prop Hk]%andb_prop Hst].
    apply bool_decide_eq_true in Hc.
    rewrite (dispatch_type _ _ _ _ _ _ Hc). simpl.
    unfold conv_block, dict_get. apply bool_decide_eq_true in Ha as [a Ha].
    rewrite Ha. cbn [of_option mbind result_bind].
    destruct (attr_int b' "filters") as [f |]; [| done].
    destruct (attr_int b' "size") as [k |]; [| done].
    destruct (attr_int b' "stride") as [sd |]; [| done].
    cbn [mbind result_bind inputs record_layer]. rewrite Hin.
    destruct (1 <? sd).
    + rewrite lib_raise; [done |]. cbn [shape_of]. by rewrite Hs.
    + cbn [mbind result_bind]. rewrite lib_raise; [done |].
      cbn [shape_of]. by rewrite Hs.
  - apply andb_prop in Hu as [Hu Hst]. apply bool_decide_eq_true in Hu.
    rewrite (dispatch_type _ _ _ _ _ _ Hu). simpl.
    unfold upsample_block.
    destruct (attr_int b' "stride") as [sd |]; [| done].
    cbn [mbind result_bind inputs record_layer]. rewrite Hin.
    rewrite lib_raise; [done |]. cbn [shape_of]. by rewrite Hs.
Qed.

Lemma layer_after_yolo_raises_witness :
  let st1 := after [conv_plain "6"; yolo_of "0"] in
  (∃ s, shape_of (inputs st1) = Some s ∧ length s = 3%nat)
  ∧ outputs st1 !! 1 = Some (inputs st1)
  ∧ step img8 1 st1 (1 + 1) (conv_plain "4") = Raise LibError.
Proof.
  apply (layer_after_yolo_raises img8 1 (after [conv_plain "6"])
           (after [conv_plain "6"; yolo_of "0"]) 1 (yolo_of "0") (conv_plain "4")).
  - vm_compute. reflexivity.
  - apply (step_after [conv_plain "6"] (yolo_of "0")). vm_compute. reflexivity.
  - vm_compute. reflexivity.
  - vm_compute. reflexivity.
Defined.

(** ** The first section *)

Lemma parse_line_frame (g : block) (bl pre : list block) (line : string) :
  parse_line (Parser g (pre ++ bl)) line
  = (p ← parse_line (Parser g bl) line;
     Ok (Parser (holder p) (pre ++ blocks p))).
Proof.
  destruct line as [| c s]; [done |]. rewrite !parse_line_eq.
  cbn [holder blocks].
  destruct (split_on "=" (assignment_of (String c s))) as [| k [| v [| ? ?]]];
    try done.
  cbn [mbind result_bind holder blocks].
  destruct (is_header (String c s) && negb (size g =? 0)%nat);
    cbn [holder blocks]; by rewrite ?app_assoc.
Qed.

Lemma parse_lines_frame (lines : list string) (g : block) (bl pre : list block) :
  parse_lines (Parser g (pre ++ bl)) lines
  = (p ← parse_lines (Parser g bl) lines;
     Ok (Parser (holder p) (pre ++ blocks p))).
Proof.
  revert g bl. induction lines as [| l lines IH]; intros g bl; [done |].
  cbn [parse_lines]. rewrite parse_line_frame.
  destruct (parse_line (Parser g bl) l) as [[g' bl'] | e]; [| done].
  cbn [mbind result_bind holder blocks]. apply IH.
Qed.

(** After a section the rest of the lines is parsed as if it stood
    alone: the section's block comes first, the blocks of the rest
    follow. *)
Lemma parse_after_section (h : block) (rest : list string) :
  h ≠ ∅ → opens_section rest = true →
  (parse_lines (Parser h []) rest ≫= fun p => Ok (blocks p ++ [holder p]))
  = match rest with
    | [] => Ok [h]
    | _ => parse_lines (Parser ∅ []) rest
           ≫= fun p => Ok (h :: blocks p ++ [holder p])
    end.
Proof.
  intros Hne Hr. destruct rest as [| l rest]; [done |].
  cbn [opens_section] in Hr. destruct l as [| c s]; [done |].
  cbn [parse_lines]. rewrite !parse_line_eq. rewrite Hr. cbn [andb holder blocks].
  assert ((size h =? 0)%nat = false) as ->.
  { apply not_true_is_false. intros Hs. by apply size_zero_empty in Hs. }
  rewrite (proj2 (size_zero_empty ∅) eq_refl). cbn [negb holder blocks app].
  destruct (split_on "=" (assignment_of (String c s))) as [| k [| v [| ? ?]]];
    try done.
  cbn [mbind result_bind].
  rewrite (parse_lines_frame rest _ [] [h]).
  destruct (parse_lines (Parser (<[rstrip k:=lstrip v]> ∅) []) rest)
    as [p |]; done.
Qed.

(** X18: the first section of a description is never read: two
    descriptions that differ in their first section only (its header and
    its key-value lines) give the same model, or the same exception, for
    the same model size and number of classes. *)
Theorem first_section_ignored
    (c1 c2 : string) (h1 h2 : string) (sec1 sec2 rest : list string)
    (model_size : Z * Z * Z) (num_classes : Z) :
  cfg_lines c1 = h1 :: sec1 ++ rest →
  cfg_lines c2 = h2 :: sec2 ++ rest →
  is_header h1 && one_equals h1 = true →
  is_header h2 && one_equals h2 = true →
  Forall (fun l => kv_line l = true) sec1 →
  Forall (fun l => kv_line l = true) sec2 →
  opens_section rest = true →
  load_model c1 model_size num_classes = load_model c2 model_size num_classes.
Proof.
  intros Hc1 Hc2 Hh1 Hh2 Hs1 Hs2 Hrest.
  assert (Hsec : ∀ content hd sec,
             cfg_lines content = hd :: sec ++ rest →
             is_header hd && one_equals hd = true →
             Forall (fun l => kv_line l = true) sec →
             ∃ h : block, h ≠ ∅
               ∧ parse_cfg content
                 = match rest with
                   | [] => Ok [h]
                   | _ => parse_lines (Parser ∅ []) rest
                          ≫= fun p => Ok (h :: blocks p ++ [holder p])
                   end).
  { intros content hd sec Hc [Hhd Heq]%andb_prop Hsec.
    destruct hd as [| c s]; [done |].
    assert (∃ v, parse_line (Parser ∅ []) (String c s)
                 = Ok (Parser (<["type" := v]> ∅) [])) as [v Hv].
    { rewrite parse_line_eq. cbn [holder blocks].
      rewrite (proj2 (size_zero_empty ∅) eq_refl), andb_false_r.
      cbn [holder blocks]. unfold one_equals in Heq.
      unfold assignment_of in Heq |- *. rewrite Hhd in Heq |- *.
      rewrite split_on_type in Heq |- *.
      destruct (split_on "=" (rstrip (slice_1_m1 (String c s))))
        as [| v [| ? ?]]; try done.
      by exists (lstrip v). }
    destruct (last_assignment_free sec (<["type" := v]> ∅) Hsec)
      as (h & Hh & Hty).
    assert (Hne : h ≠ ∅).
    { intros ->. destruct Hty as [? Hty]; [by rewrite lookup_insert_eq |].
      by rewrite lookup_empty in Hty. }
    exists h. split; [done |].
    unfold parse_cfg. rewrite Hc.
    change (String c s :: sec ++ rest) with ([String c s] ++ sec ++ rest).
    rewrite parse_lines_app. cbn [parse_lines]. rewrite Hv.
    cbn [mbind result_bind]. rewrite parse_lines_app, Hh.
    cbn [mbind result_bind].
    by apply parse_after_section. }
  destruct (Hsec c1 h1 sec1 Hc1 Hh1 Hs1) as (b1 & _ & Hp1).
  destruct (Hsec c2 h2 sec2 Hc2 Hh2 Hs2) as (b2 & _ & Hp2).
  unfold load_model. rewrite Hp1, Hp2. destruct rest as [| l rest]; [done |].
  by destruct (parse_lines (Parser ∅ []) (l :: rest)).
Qed.

Lemma first_section_ignored_witness :
  load_model net_416_cfg (8, 8, 3) 1 = load_model net_bare_cfg (8, 8, 3) 1.
Proof.
  apply (first_section_ignored net_416_cfg net_bare_cfg
           "[net]" "[anything]" ["width=416"; "height=416"] []
           ["[convolutional]"; "filters=4"; "size=1"; "stride=1";
            "activation=linear"]).
  - vm_compute. reflexivity.
  - vm_compute. reflexivity.
  - vm_compute. reflexivity.
  - vm_compute. reflexivity.
  - repeat constructor.
  - constructor.
  - vm_compute. reflexivity.
Defined.

(** ** The names of the layers *)

Local Open Scope Z_scope.

Lemma digit_val_digit (d : nat) :
  (d < 10)%nat → digit_val (ascii_of_nat (48 + d)) = Some (Z.of_nat d).
Proof.
  intros Hd. unfold digit_val. rewrite nat_ascii_embedding by lia.
  destruct (Nat.leb_spec 48 (48 + d)); [| lia].
  destruct (Nat.leb_spec (48 + d) 57); [| lia]. simpl. f_equal. lia.
Qed.

Lemma nat_digits_all (fuel n : nat) (acc : string) :
  all_digits acc = true → all_digits (nat_digits fuel n acc) = true.
Proof.
  revert n acc. induction fuel as [| fuel IH]; intros n acc Hacc; [done |].
  cbn [nat_digits].
  assert (Hd : all_digits (String (ascii_of_nat (48 + n mod 10)) acc) = true).
  { cbn [all_digits]. rewrite digit_val_digit, Hacc; [done |].
    apply Nat.mod_upper_bound. lia. }
  destruct (n <? 10)%nat; [done | by apply IH].
Qed.

Lemma nat_digits_value (fuel n : nat) (acc : string) (a : Z) (seen : bool) :
  (n < fuel)%nat →
  ∃ len : Z, 0 ≤ len
    ∧ int_digits a seen (nat_digits fuel n acc)
      = int_digits (a * 10 ^ len + Z.of_nat n) true acc.
Proof.
  revert n acc a seen. induction fuel as [| fuel IH]; intros n acc a seen Hn;
    [lia |].
  cbn [nat_digits]. destruct (Nat.ltb_spec n 10) as [Hlt | Hge].
  - exists 1. split; [lia |]. cbn [int_digits].
    rewrite Nat.mod_small by done. rewrite digit_val_digit by done.
    f_equal. lia.
  - assert (Hdiv : (n / 10 < fuel)%nat).
    { assert (n / 10 < n)%nat by (apply Nat.div_lt; lia). lia. }
    destruct (IH (n / 10)%nat (String (ascii_of_nat (48 + n mod 10)) acc)
                a seen Hdiv) as (len & Hlen & ->).
    exists (len + 1). split; [lia |]. cbn [int_digits].
    rewrite digit_val_digit by (apply Nat.mod_upper_bound; lia).
    f_equal. rewrite Z.pow_add_r by lia.
    rewrite (Nat.div_mod_eq n 10) at 3.
    rewrite Nat2Z.inj_add, Nat2Z.inj_mul. lia.
Qed.

(** The digits [str] writes read back as the absolute value. *)
Lemma py_str_digits (n : Z) :
  ∃ d, py_str n = (if n <? 0 then String "-" d else d)
       ∧ all_digits d = true
       ∧ int_digits 0 false d = Some (Z.abs n).
Proof.
  unfold py_str. set (m := Z.abs_nat n).
  exists (nat_digits (S m) m EmptyString). split; [done |].
  split; [by apply nat_digits_all |].
  destruct (nat_digits_value (S m) m EmptyString 0 false ltac:(lia))
    as (len & _ & ->).
  cbn [int_digits]. f_equal. unfold m. lia.
Qed.

Lemma py_str_inj (n m : Z) : py_str n = py_str m → n = m.
Proof.
  destruct (py_str_digits n) as (dn & -> & Hn & Hvn).
  destruct (py_str_digits m) as (dm & -> & Hm & Hvm).
  destruct (Z.ltb_spec n 0), (Z.ltb_spec m 0); intros Heq.
  - injection Heq as ->. rewrite Hvn in Hvm. injection Hvm. lia.
  - rewrite <- Heq in Hm. done.
  - rewrite Heq in Hn. done.
  - rewrite Heq, Hvm in Hvn. injection Hvn. lia.
Qed.

Lemma append_inj (p s1 s2 : string) : p +:+ s1 = p +:+ s2 → s1 = s2.
Proof.
  induction p as [| c p IH]; [done |]. rewrite !append_cons.
  intros [= H]. by apply IH.
Qed.

(** The layers a convolutional block makes, top first. *)
Lemma conv_step_names
    (img : tensor) (nc : Z) (st st' : state) (i : Z) (b : block) :
  b !! "type" = Some "convolutional" →
  step img nc st i b = Ok st' →
  ∃ (leaky bn : bool),
    block_names (inputs st')
    = (if leaky then ["leaky_" +:+ py_str i] else [])
      ++ (if bn then ["bnorm_" +:+ py_str i] else [])
      ++ ["conv_" +:+ py_str i].
Proof.
  intros Hty H. apply step_Ok in H as (st1 & H & ->).
  rewrite (dispatch_type _ _ _ _ _ _ Hty) in H. simpl in H.
  unfold conv_block in H. ok_inv H. injection H as <-.
  repeat match goal with
         | H : (if _ then lib _ else Ok _) = Ok _ |- _ =>
             apply if_lib_Ok in H as [-> _]
         | H : lib _ = Ok _ |- _ => apply lib_Ok in H as [-> _]
         end.
  exists (String.eqb x "leaky"), (dict_has b "batch_normalize").
  cbn [inputs record_layer].
  by destruct (String.eqb x "leaky"), (dict_has b "batch_normalize").
Qed.

Lemma conv_names_elem (leaky bn : bool) (i : Z) (name : string) :
  name ∈ (if leaky then ["leaky_" +:+ py_str i] else [])
         ++ (if bn then ["bnorm_" +:+ py_str i] else [])
         ++ ["conv_" +:+ py_str i] →
  ∃ p, name = p +:+ py_str i
       ∧ (p = "leaky_" ∨ p = "bnorm_" ∨ p = "conv_").
Proof.
  intros H. destruct leaky, bn; cbn [app] in H;
    repeat match type of H with
           | _ ∈ _ :: _ => apply elem_of_cons in H as [-> | H]
           | _ ∈ [] => by apply elem_of_nil in H
           end; eauto.
Qed.

Lemma conv_names_differ (p q : string) (i j : Z) :
  p = "leaky_" ∨ p = "bnorm_" ∨ p = "conv_" →
  q = "leaky_" ∨ q = "bnorm_" ∨ q = "conv_" →
  p +:+ py_str i = q +:+ py_str j → p = q ∧ i = j.
Proof.
  intros [-> | [-> | ->]] [-> | [-> | ->]] Heq;
    rewrite ?append_cons in Heq; try done;
    (split; [done |]); apply py_str_inj; by simplify_eq.
Qed.

(** X19: the layers two convolutional blocks make at different indices
    of the walk carry different names, and the layers of one block
    differ in name from each other: a name is [conv_], [bnorm_] or
    [leaky_] followed by [str(i)], which determines [i]. *)
Theorem conv_layer_names_distinct
    (img : tensor) (nc : Z) (st1 st1' st2 st2' : state) (i j : Z)
    (b1 b2 : block) :
  b1 !! "type" = Some "convolutional" →
  b2 !! "type" = Some "convolutional" →
  str_fits i = true → str_fits j = true →
  step img nc st1 i b1 = Ok st1' →
  step img nc st2 j b2 = Ok st2' →
  i ≠ j →
  block_names (inputs st1') ≠ []
  ∧ NoDup (block_names (inputs st1'))
  ∧ ∀ name, name ∈ block_names (inputs st1') →
            name ∉ block_names (inputs st2').
Proof.
  intros Hty1 Hty2 _ _ H1 H2 Hij.
  destruct (conv_step_names _ _ _ _ _ _ Hty1 H1) as (l1 & n1 & ->).
  destruct (conv_step_names _ _ _ _ _ _ Hty2 H2) as (l2 & n2 & ->).
  split; [by destruct l1, n1 |]. split.
  - destruct l1, n1; cbn [app];
      repeat (apply NoDup_cons; split; [| ]); try apply NoDup_nil_2;
      intros H;
      repeat match type of H with
             | _ ∈ _ :: _ => apply elem_of_cons in H as [H | H]
             | _ ∈ [] => by apply elem_of_nil in H
             end;
      by apply conv_names_differ in H as [? _]; auto.
  - intros name Hin Hin'.
    apply conv_names_elem in Hin as (p & -> & Hp).
    apply conv_names_elem in Hin' as (q & Heq & Hq).
    by apply conv_names_differ in Heq as [_ ?].
Qed.

Lemma conv_layer_names_distinct_witness :
  let st1' := after [conv_down] in
  let st2' := after ([conv_down] ++ [conv_plain "4"]) in
  block_names (inputs st1') ≠ []
  ∧ NoDup (block_names (inputs st1'))
  ∧ ∀ name, name ∈ block_names (inputs st1') →
            name ∉ block_names (inputs st2').
Proof.
  apply (conv_layer_names_distinct img8 1 (after []) (after [conv_down])
           (after [conv_down]) (after ([conv_down] ++ [conv_plain "4"]))
           0 1 conv_down (conv_plain "4")).
  - vm_compute. reflexivity.
  - vm_compute. reflexivity.
  - vm_compute. reflexivity.
  - vm_compute. reflexivity.
  - apply (step_after [] conv_down). vm_compute. reflexivity.
  - apply (step_after [conv_down] (conv_plain "4")). vm_compute. reflexivity.
  - lia.
Defined.

(** ** Headers and missing attributes *)

Lemma drop_last_snoc (s : string) (c : ascii) :
  drop_last (s +:+ String c EmptyString) = s.
Proof.
  induction s as [| a s IH]; [done |].
  rewrite append_cons. cbn [drop_last].
  destruct (s +:+ String c EmptyString) eqn:Hs.
  - by destruct s.
  - by rewrite IH.
Qed.

Lemma split_on_no_equals (s : string) :
  no_equals s = true → split_on "=" s = [s].
Proof.
  induction s as [| c s IH]; [done |]. cbn [no_equals].
  intros [Hc Hs]%andb_prop. apply negb_true_iff in Hc.
  cbn [split_on]. by rewrite Hc, IH.
Qed.

Lemma rstrip_no_equals (s : string) :
  no_equals s = true → no_equals (rstrip s) = true.
Proof.
  induction s as [| c s IH]; [done |]. cbn [no_equals rstrip].
  intros [Hc Hs]%andb_prop.
  destruct (is_empty (rstrip s) && py_isspace c); [done |].
  cbn [no_equals]. by rewrite Hc, IH.
Qed.

(** X20: the last character of a header line is dropped whatever it is:
    for a name without [=] the block's type is the name stripped on both
    sides, and the line closes the open block when that one is not
    empty. *)
Theorem header_closing_unchecked (p : parser) (name : string) (c : ascii) :
  no_equals name = true →
  parse_line p (String "[" (name +:+ String c EmptyString))
  = Ok (if negb (size (holder p) =? 0)%nat
        then Parser {[ "type" := lstrip (rstrip name) ]} (blocks p ++ [holder p])
        else Parser (<[ "type" := lstrip (rstrip name) ]> (holder p)) (blocks p)).
Proof.
  intros Hn. rewrite parse_line_eq. unfold assignment_of.
  cbn [is_header slice_1_m1]. change (Ascii.eqb "[" "[") with true.
  rewrite drop_last_snoc, split_on_type.
  rewrite split_on_no_equals by (by apply rstrip_no_equals).
  cbn [andb]. by destruct (negb (size (holder p) =? 0)%nat).
Qed.

Lemma header_closing_unchecked_witness :
  parse_line (Parser ∅ []) (String "[" (" net " +:+ String ")" EmptyString))
  = Ok (if negb (size (holder (Parser ∅ [])) =? 0)%nat
        then Parser {[ "type" := lstrip (rstrip " net ") ]}
                    (blocks (Parser ∅ []) ++ [holder (Parser ∅ [])])
        else Parser (<[ "type" := lstrip (rstrip " net ") ]> (holder (Parser ∅ [])))
                    (blocks (Parser ∅ []))).
Proof.
  apply (header_closing_unchecked (Parser ∅ []) " net " ")").
  vm_compute. reflexivity.
Defined.

Local Open Scope Z_scope.

Lemma ints_parse_lookup (b : block) (key v : string) :
  ints_parse b = true → key ∈ conv_int_keys → b !! key = Some v →
  ∃ n, attr_int b key = Ok n.
Proof.
  intros Hp Hk Hv. unfold ints_parse in Hp.
  apply Is_true_true, forallb_True in Hp.
  eapply Forall_forall in Hp; [| done]. rewrite Hv in Hp.
  unfold attr_int, dict_get. rewrite Hv. cbn [of_option mbind result_bind].
  destruct (py_int v) as [n |]; [eauto | done].
Qed.

Lemma attr_int_missing (b : block) (key : string) :
  b !! key = None → attr_int b key = Raise KeyError.
Proof. intros Hk. unfold attr_int, dict_get. by rewrite Hk. Qed.

(** X21: a convolutional block that lacks one of [activation],
    [filters], [size] and [stride] raises [KeyError], when the integer
    attributes it holds parse. *)
Theorem conv_missing_attribute_raises
    (img : tensor) (nc : Z) (st : state) (i : Z) (b : block) (key : string) :
  b !! "type" = Some "convolutional" →
  key ∈ conv_keys → b !! key = None →
  ints_parse b = true →
  step img nc st i b = Raise KeyError.
Proof.
  intros Hty Hkey Hnone Hp. unfold step.
  rewrite (dispatch_type _ _ _ _ _ _ Hty). simpl. unfold conv_block.
  assert (Hint : ∀ k, k ∈ conv_int_keys →
            attr_int b k = Raise KeyError ∨ ∃ n, attr_int b k = Ok n).
  { intros k Hk. destruct (b !! k) as [v |] eqn:Hv.
    - right. by eapply ints_parse_lookup.
    - left. by apply attr_int_missing. }
  destruct (b !! "activation") as [a |] eqn:Ha.
  2:{ unfold dict_get. by rewrite Ha. }
  unfold dict_get at 1. rewrite Ha. cbn [of_option mbind result_bind].
  destruct (Hint "filters" ltac:(set_solver)) as [-> | [f Hf]]; [done |].
  rewrite Hf. cbn [mbind result_bind].
  destruct (Hint "size" ltac:(set_solver)) as [-> | [k Hk]]; [done |].
  rewrite Hk. cbn [mbind result_bind].
  destruct (Hint "stride" ltac:(set_solver)) as [-> | [s Hs]]; [done |].
  exfalso. unfold conv_keys in Hkey.
  apply attr_int_Ok in Hf as (? & Hf & _), Hk as (? & Hk & _), Hs as (? & Hs & _).
  set_solver.
Qed.

Lemma conv_missing_attribute_raises_witness :
  step img8 1 (after []) 0 conv_no_stride = Raise KeyError.
Proof.
  apply (conv_missing_attribute_raises img8 1 (after []) 0 conv_no_stride "stride").
  - vm_compute. reflexivity.
  - set_solver.
  - vm_compute. reflexivity.
  - vm_compute. reflexivity.
Defined.

(** ** The centre of a box on a square grid *)

Local Open Scope nat_scope.

(** X22: on a square grid of [s] by [s] cells a walked [yolo] block
    decodes the centre of the record it reads from row [row], column
    [col] of the grid, for anchor [k] of image [i], as the sigmoid of
    the two raw offsets plus [(col, row)], times the stride, the image
    size divided, with floor, by the grid size; the sum is formed before
    the product. *)
Theorem square_grid_center
    (R : Type) (N : Numeric R) (K : Kernels R)
    (img : tensor) (nc : Z) (bs : list block) (st st' : state) (b : block)
    (anchors : list (Z * Z)) (g ih iw : Z) (img0 vt : ndarray R)
    (bsz : nat) :
  run img nc bs = Ok st →
  b !! "type" = Some "yolo" →
  step img nc st (Z.of_nat (length bs)) b = Ok st' →
  yolo_anchors b = Ok anchors →
  get_shape (inputs st) !! 1 = Some (Some g) →
  get_shape (inputs st) !! 2 = Some (Some g) →
  (0 ≤ nc)%Z → (0 < g)%Z →
  get_shape img !! 1 = Some (Some ih) →
  get_shape img !! 2 = Some (Some iw) →
  let a := length anchors in
  let s := Z.to_nat g in
  let d := Z.to_nat (5 + nc) in
  eval img0 (inputs st) = Some vt → nd_wf vt →
  nd_shape vt = [bsz; s; s; a * d] →
  ∃ p v,
    out_pred st'
    = Some match out_pred st with
           | Some acc => TConcat [acc; p] 1
           | None => p
           end
    ∧ eval img0 p = Some v
    ∧ ∀ i row col k raw_x raw_y,
        i < bsz → row < s → col < s → k < a →
        nd_data vt !! ((((i * s + row) * s + col) * a + k) * d) = Some raw_x →
        nd_data vt !! ((((i * s + row) * s + col) * a + k) * d + 1)
        = Some raw_y →
        take 2 (record d (i * (a * s * s) + (row * s + col) * a + k) v)
        = [rmul (radd (rsigmoid raw_x) (rofZ (Z.of_nat col)))
                (rofZ (ih / g)%Z);
           rmul (radd (rsigmoid raw_y) (rofZ (Z.of_nat row)))
                (rofZ (iw / g)%Z)].
Proof.
  intros Hrun Hty Hstep Han Hd1 Hd2 Hnc Hg Hih Hiw a s d Ht Hwt Hs.
  destruct (walked_head _ _ _ _ _ _ Hrun Hty Hstep)
    as (x & p & Hhead & _ & _ & Hout).
  assert (Hna : 0 < a).
  { apply yolo_anchors_length in Han as (_ & _ & _ & ?). done. }
  assert (Hsp : 0 < s) by (unfold s; lia).
  assert (Hd : 5 ≤ d) by (unfold d; lia).
  assert (Hnd : 0 < a * s * s * d) by nia.
  assert (Hlen : length (nd_data vt) = bsz * (a * s * s * d)).
  { unfold nd_wf in Hwt. rewrite Hwt, Hs. unfold prod_list. simpl. nia. }
  assert (Hmod : length (nd_data vt) mod (a * s * s * d) = 0)
    by (rewrite Hlen; apply Nat.Div0.mod_mul).
  destruct (box_center_decode R N K img nc b (inputs st) x p anchors
              g g ih iw img0 vt Hnc Hhead Han Hd1 Hd2 Hg Hg Hih Hiw
              Ht Hwt Hmod) as (v & Hv & Hdec).
  exists p, v. split; [done |]. split; [done |].
  intros i row col k rx ry Hi Hrow Hcol Hk Hrx Hry.
  apply (Hdec i col row k rx ry); try done.
  - fold a s d. rewrite Hlen, Nat.div_mul by lia. done.
  - rewrite record_lookup by lia. fold a s d. rewrite <- Hrx. f_equal. nia.
  - rewrite record_lookup by lia. fold a s d. rewrite <- Hry. f_equal. nia.
Qed.

Lemma square_grid_center_witness :
  let st := state_after img128 1 [conv_32] in
  let st' := state_after img128 1 ([conv_32] ++ [yolo_of "0"]) in
  let a := length [(10, 13)%Z] in
  let s := Z.to_nat 4 in
  let d := Z.to_nat (5 + 1) in
  ∃ p v,
    out_pred st'
    = Some match out_pred st with
           | Some acc => TConcat [acc; p] 1
           | None => p
           end
    ∧ eval (H := Q_demo) (H0 := zero_kernels) black p = Some v
    ∧ ∀ i row col k raw_x raw_y,
        i < 1 → row < s → col < s → k < a →
        nd_data (zeros [1; 4; 4; 6])
          !! ((((i * s + row) * s + col) * a + k) * d) = Some raw_x →
        nd_data (zeros [1; 4; 4; 6])
          !! ((((i * s + row) * s + col) * a + k) * d + 1) = Some raw_y →
        take 2 (record d (i * (a * s * s) + (row * s + col) * a + k) v)
        = [((sigmoid_of exp_1st raw_x + inject_Z (Z.of_nat col))
            * inject_Z (128 / 4))%Q;
           ((sigmoid_of exp_1st raw_y + inject_Z (Z.of_nat row))
            * inject_Z (128 / 4))%Q].
Proof.
  apply (square_grid_center Q Q_demo zero_kernels img128 1 [conv_32]
           (state_after img128 1 [conv_32])
           (state_after img128 1 ([conv_32] ++ [yolo_of "0"]))
           (yolo_of "0") [(10, 13)%Z] 4 128 128 black (zeros [1; 4; 4; 6]) 1).
  - apply state_after_Ok. vm_compute. reflexivity.
  - vm_compute. reflexivity.
  - apply (step_state_after img128 1 [conv_32] (yolo_of "0")).
    vm_compute. reflexivity.
  - vm_compute. reflexivity.
  - vm_compute. reflexivity.
  - vm_compute. reflexivity.
  - lia.
  - lia.
  - vm_compute. reflexivity.
  - vm_compute. reflexivity.
  - vm_compute. reflexivity.
  - vm_compute. reflexivity.
  - vm_compute. reflexivity.
Defined.

(** The grid cell (2, 3) at stride 32, with a sigmoid of one half: the
    centre is (80, 112). *)
Example square_grid_center_values :
  match out_pred (state_after img128 1 [conv_32; yolo_of "0"]) with
  | Some p =>
      match eval (H := Q_demo) (H0 := zero_kernels) black p with
      | Some v =>
          Forall2 Qeq (take 2 (record 6 ((3 * 4 + 2) * 1 + 0) v))
                  [80%Q; 112%Q]
      | None => False
      end
  | None => False
  end.
Proof. vm_compute. repeat constructor. Qed.
